(** * FinRisk-ai: credit and fraud analytics over tabular data

    A shallow embedding of [src/eda/credit_analysis.py],
    [src/eda/fraud_analysis.py] and [src/utils/data_loader.py].

    The analysers are thin compositions of pandas operations, so the
    development has two layers: a small model of the pandas operations the
    source calls (module [Pd]) and, on top of it, the three source modules
    transcribed call by call.

    Numbers.  There are two readings of a float64.  In module [Pd] it is
    an exact rational or NaN ([float64]): arithmetic is exact, the NaN
    conventions of pandas are kept, and the square root inside
    [Series.std] and [DataFrame.corr] lives in the reals ([rfloat]).
    The statements made on this reading are those that rounding cannot
    break: which rows and groups there are, bounds, counts, order,
    errors.  In module [F64] a float64 is an IEEE 754 binary64 number
    and every operation rounds as the hardware does, in the order in
    which numpy and pandas perform it; the statements about the values
    of z-scores, correlations and rounded means are made there.

    Sorting.  [sort_values] runs with pandas' default sort kind, which
    numpy does not promise to be stable; the sorting algorithm is a
    parameter of [get_high_risk_merchants], constrained in the theorems
    by what numpy promises.  Module [Np] is numpy's quicksort itself. *)

From Stdlib Require Import Floats.
From Stdlib Require Import List String Ascii Bool Arith ZArith Lia.
From Stdlib Require Import QArith Qround Qabs Qreduction.
From Stdlib Require Qcanon.
From Stdlib Require Import Permutation Sorted.
From Stdlib Require Import Reals Qreals Lqa Lra.
Import ListNotations.

Local Open Scope string_scope.
Local Open Scope Q_scope.

(* ================================================================= *)
(** ** Exceptions *)

Inductive exn : Type :=
| KeyError (name : string)
| TypeError
| ValueError
| IndexingError.

Inductive result (A : Type) : Type :=
| Ok (a : A)
| Raise (e : exn).

Arguments Ok {A} a.
Arguments Raise {A} e.

Definition bind {A B : Type} (m : result A) (k : A -> result B) : result B :=
  match m with
  | Ok a => k a
  | Raise e => Raise e
  end.

Notation "x <- m ;; k" := (bind m (fun x => k))
  (at level 61, m at next level, right associativity).

Definition is_ok {A : Type} (m : result A) : bool :=
  match m with Ok _ => true | Raise _ => false end.

(** [for x in l: acc = body(x, acc)] with exceptions. *)
Fixpoint for_each {A S : Type} (body : A -> S -> result S) (l : list A) (s : S)
  : result S :=
  match l with
  | [] => Ok s
  | x :: rest => s' <- body x s ;; for_each body rest s'
  end.

(** [[f(x) for x in l]] with exceptions, evaluated left to right. *)
Fixpoint map_result {A B : Type} (f : A -> result B) (l : list A)
  : result (list B) :=
  match l with
  | [] => Ok []
  | x :: rest => y <- f x ;; ys <- map_result f rest ;; Ok (y :: ys)
  end.

(* ================================================================= *)
(** ** The pandas model *)

Module Pd.

(** A float64: a finite value or NaN. *)
Inductive float64 : Type :=
| Fin (q : Q)
| NaN.

(** A cell of a column.  [NA] is the missing value of every dtype
    (NaN, None, NaT). *)
Inductive cell : Type :=
| Num (x : Q)
| Str (s : string)
| Time (t : Z)          (* nanoseconds since the Unix epoch *)
| NA.

Definition Series := list cell.

(** A frame: the length of its index and its columns in insertion order. *)
Record DataFrame : Type := mkDataFrame {
  nrows : nat;
  columns : list (string * Series)
}.

Definition well_formed (df : DataFrame) : bool :=
  forallb (fun c => Nat.eqb (List.length (snd c)) (nrows df)) (columns df).

Fixpoint lookup {V : Type} (name : string) (l : list (string * V)) : option V :=
  match l with
  | [] => None
  | (n, v) :: rest => if String.eqb n name then Some v else lookup name rest
  end.

(** [col in df.columns] *)
Definition has_column (df : DataFrame) (name : string) : bool :=
  match lookup name (columns df) with Some _ => true | None => false end.

(** [df[name]] *)
Definition getitem (df : DataFrame) (name : string) : result Series :=
  match lookup name (columns df) with
  | Some s => Ok s
  | None => Raise (KeyError name)
  end.

Fixpoint assoc_set {V : Type} (name : string) (v : V) (l : list (string * V))
  : list (string * V) :=
  match l with
  | [] => [(name, v)]
  | (n, w) :: rest =>
      if String.eqb n name then (n, v) :: rest
      else (n, w) :: assoc_set name v rest
  end.

(** [df[name] = s] *)
Definition setitem (df : DataFrame) (name : string) (s : Series) : DataFrame :=
  mkDataFrame (nrows df) (assoc_set name s (columns df)).

(** *** Numeric views *)

Definition cell_float (c : cell) : result float64 :=
  match c with
  | Num x => Ok (Fin x)
  | NA => Ok NaN
  | Str _ | Time _ => Raise TypeError
  end.

(** The values of a numeric column; a non-numeric cell is a [TypeError]. *)
Definition to_numeric (s : Series) : result (list float64) :=
  map_result cell_float s.

Definition of_float (x : float64) : cell :=
  match x with Fin q => Num q | NaN => NA end.

Fixpoint dropna (l : list float64) : list Q :=
  match l with
  | [] => []
  | Fin q :: rest => q :: dropna rest
  | NaN :: rest => dropna rest
  end.

Definition Qsum (l : list Q) : Q := fold_right Qplus 0 l.

Definition Qlen (l : list Q) : Q := inject_Z (Z.of_nat (List.length l)).

(** Arithmetic mean of a non-empty list of rationals. *)
Definition Qmean (l : list Q) : Q := Qsum l / Qlen l.

(** [Series.sum()], skipping NaN; the empty sum is 0. *)
Definition sum (l : list float64) : float64 := Fin (Qsum (dropna l)).

(** [Series.mean()], skipping NaN; NaN when nothing is left. *)
Definition mean (l : list float64) : float64 :=
  match dropna l with
  | [] => NaN
  | v => Fin (Qmean v)
  end.

(** [Series.count()]: the number of non-missing cells, of any dtype. *)
Definition count (s : Series) : nat :=
  List.length (filter (fun c => match c with NA => false | _ => true end) s).

Definition Qltb (x y : Q) : bool := negb (Qle_bool y x).

Definition float_of_bool (b : bool) : float64 := Fin (if b then 1 else 0).

(** [series < c] for a scalar [c]: comparing a missing value is False. *)
Definition lt_scalar (l : list float64) (c : Q) : list bool :=
  map (fun x => match x with Fin q => Qltb q c | NaN => false end) l.

(** [series > c] for a float scalar (NaN compares False). *)
Definition gt_scalar (l : list float64) (c : float64) : list bool :=
  map (fun x => match x, c with
                | Fin q, Fin t => Qltb t q
                | _, _ => false
                end) l.

(** [mask.mean()] of a boolean series: the fraction of True. *)
Definition mean_bool (m : list bool) : float64 := mean (map float_of_bool m).

(** *** Boolean indexing *)

Fixpoint take_mask {A : Type} (m : list bool) (l : list A) : list A :=
  match m, l with
  | b :: m', x :: l' => if b then x :: take_mask m' l' else take_mask m' l'
  | _, _ => []
  end.

Definition count_true (m : list bool) : nat := List.length (filter (fun b => b) m).

(** [df[mask]] for a boolean series aligned with the index. *)
Definition getitem_mask (df : DataFrame) (m : list bool) : DataFrame :=
  mkDataFrame (count_true m)
              (map (fun c => (fst c, take_mask m (snd c))) (columns df)).

(** The rows of a frame, as [df.iterrows()] yields them. *)
Definition row := list (string * cell).

Definition row_at (df : DataFrame) (i : nat) : row :=
  map (fun c => (fst c, nth i (snd c) NA)) (columns df).

Definition iterrows (df : DataFrame) : list row :=
  map (row_at df) (seq 0 (nrows df)).

(** *** Group keys *)

(** The value of a grouping column at a row.  Numeric keys are kept in
    lowest terms, so that equal numbers are the same key. *)
Inductive key : Type :=
| KNum (q : Q)
| KStr (s : string)
| KTime (t : Z).

Definition key_of_cell (c : cell) : option key :=
  match c with
  | Num x => Some (KNum (Qred x))
  | Str s => Some (KStr s)
  | Time t => Some (KTime t)
  | NA => None
  end.

(** Natural order of keys; columns are homogeneous, the order between
    dtypes only makes the comparison total. *)
Definition key_compare (a b : key) : comparison :=
  match a, b with
  | KNum x, KNum y => Qcompare x y
  | KNum _, _ => Lt
  | KStr _, KNum _ => Gt
  | KStr x, KStr y => String.compare x y
  | KStr _, KTime _ => Lt
  | KTime x, KTime y => Z.compare x y
  | KTime _, _ => Gt
  end.

Definition pair_compare {A B : Type} (ca : A -> A -> comparison)
  (cb : B -> B -> comparison) (x y : A * B) : comparison :=
  match ca (fst x) (fst y) with
  | Eq => cb (snd x) (snd y)
  | c => c
  end.

Definition zip_keys {A B : Type} (a : list (option A)) (b : list (option B))
  : list (option (A * B)) :=
  map (fun p => match p with
                | (Some x, Some y) => Some (x, y)
                | _ => None
                end) (combine a b).

Section Grouping.
Context {K : Type}.
Variable cmp : K -> K -> comparison.

Definition cmp_eqb (a b : K) : bool :=
  match cmp a b with Eq => true | _ => false end.

Fixpoint insert_key (k : K) (l : list K) : list K :=
  match l with
  | [] => [k]
  | h :: t =>
      match cmp k h with
      | Lt => k :: l
      | Eq => l
      | Gt => h :: insert_key k t
      end
  end.

(** The distinct keys in ascending order; rows with a missing key are
    dropped ([dropna=True]). *)
Definition unique_sorted (ks : list (option K)) : list K :=
  fold_right (fun o acc => match o with
                           | Some k => insert_key k acc
                           | None => acc
                           end) [] ks.

Definition group_mask (ks : list (option K)) (k : K) : list bool :=
  map (fun o => match o with
                | Some k' => cmp_eqb k' k
                | None => false
                end) ks.

(** [groupby(keys)] with [sort=True]: each distinct key with the mask of
    its rows, keys ascending. *)
Definition groupby (ks : list (option K)) : list (K * list bool) :=
  map (fun k => (k, group_mask ks k)) (unique_sorted ks).
End Grouping.

(** *** Rounding *)

(** Round half to even, as [numpy.rint]. *)
Definition rint (q : Q) : Z :=
  let f := Qfloor q in
  match Qcompare (q - inject_Z f) (1 # 2) with
  | Lt => f
  | Gt => (f + 1)%Z
  | Eq => if Z.even f then f else (f + 1)%Z
  end.

Definition pow10 (d : nat) : Q := inject_Z (10 ^ Z.of_nat d).

(** [round(x, d)]: scale, round to the nearest integer, scale back. *)
Definition round_decimals (d : nat) (x : float64) : float64 :=
  match x with
  | Fin q => Fin (inject_Z (rint (q * pow10 d)) / pow10 d)
  | NaN => NaN
  end.

(** *** Order statistics *)

Fixpoint Qinsert (x : Q) (l : list Q) : list Q :=
  match l with
  | [] => [x]
  | h :: t => if Qle_bool x h then x :: l else h :: Qinsert x t
  end.

Definition Qsort (l : list Q) : list Q := fold_right Qinsert [] l.

(** [Series.median()], skipping NaN. *)
Definition median (l : list float64) : float64 :=
  let v := Qsort (dropna l) in
  let n := List.length v in
  match n with
  | O => NaN
  | _ =>
      if Nat.even n
      then Fin ((nth (n / 2 - 1) v 0 + nth (n / 2) v 0) / 2)
      else Fin (nth (n / 2) v 0)
  end.

(** [Series.quantile(p)], skipping NaN, linear interpolation between the
    two nearest order statistics. *)
Definition quantile (l : list float64) (p : Q) : float64 :=
  let v := Qsort (dropna l) in
  match v with
  | [] => NaN
  | _ =>
      let pos := p * inject_Z (Z.of_nat (List.length v - 1)) in
      let lo := Z.to_nat (Qfloor pos) in
      let frac := pos - inject_Z (Qfloor pos) in
      let a := nth lo v 0 in
      let b := nth (S lo) v a in
      Fin (a + (b - a) * frac)
  end.

(** [Series.fillna(v)]; filling with NaN changes nothing. *)
Definition fillna (l : list float64) (v : float64) : list float64 :=
  match v with
  | NaN => l
  | Fin m => map (fun x => match x with NaN => Fin m | Fin q => Fin q end) l
  end.

(** [Series.clip(upper=u)]; a NaN bound is no bound, NaN cells stay NaN. *)
Definition clip_upper (l : list float64) (u : float64) : list float64 :=
  match u with
  | NaN => l
  | Fin m => map (fun x => match x with
                           | Fin q => if Qltb m q then Fin m else Fin q
                           | NaN => NaN
                           end) l
  end.

(** *** Sorting a frame by a float column *)

Definition is_nan (x : float64) : bool :=
  match x with NaN => true | Fin _ => false end.

Definition take_indices {A : Type} (idx : list nat) (l : list A) : list A :=
  flat_map (fun i => match nth_error l i with
                     | Some x => [x]
                     | None => []
                     end) idx.

Section SortValues.
(** [numpy.argsort(kind='quicksort')], the default [kind] of
    [sort_values]: some permutation of the positions that puts the
    values in ascending order.  numpy documents this kind as not
    stable, so the order it gives to equal values is not fixed; the
    algorithm is therefore a parameter. *)
Variable argsort : list Q -> list nat.

(** [pandas.core.sorting.nargsort(items, ascending=False,
    na_position='last')]: reverse, sort ascending, reverse back, then
    the NaN positions. *)
Definition nargsort_desc (items : list float64) : list nat :=
  let idx := seq 0 (List.length items) in
  let nan_idx := take_mask (map is_nan items) idx in
  let non_nan_idx := rev (take_mask (map (fun x => negb (is_nan x)) items) idx) in
  let non_nans := rev (dropna items) in
  let indexer := rev (take_indices (argsort non_nans) non_nan_idx) in
  indexer ++ nan_idx.

(** [frame.sort_values(by, ascending=False)] on a list of rows. *)
Definition sort_values_desc {A : Type} (by_ : A -> float64) (l : list A)
  : list A :=
  take_indices (nargsort_desc (map by_ l)) l.
End SortValues.

(** *** Time buckets *)

Definition day_ns : Z := 86400000000000.

(** [Timestamp.normalize()]: midnight of the same day. *)
Definition normalize (t : Z) : Z := (t / day_ns * day_ns)%Z.

Definition cell_time (c : cell) : result (option Z) :=
  match c with
  | Time t => Ok (Some t)
  | NA => Ok None
  | Num _ | Str _ => Raise TypeError
  end.

(** The values of a datetime column; anything else is a [TypeError]. *)
Definition to_datetime_values (s : Series) : result (list (option Z)) :=
  map_result cell_time s.

Fixpoint min_time (l : list (option Z)) : option Z :=
  match l with
  | [] => None
  | None :: rest => min_time rest
  | Some t :: rest =>
      match min_time rest with
      | None => Some t
      | Some u => Some (Z.min t u)
      end
  end.

(** [pd.Grouper(key, freq)] for a fixed-width frequency of [freq]
    nanoseconds: left-closed, left-labelled bins whose edges are anchored
    at midnight of the first day of the grouped data
    ([origin='start_day']). *)
Definition grouper_bins (freq : positive) (ts : list (option Z))
  : list (option Z) :=
  match min_time ts with
  | None => map (fun _ => None) ts
  | Some first =>
      map (option_map
             (fun t => (t - (t - normalize first) mod Z.pos freq)%Z)) ts
  end.

(** *** Statistics that take a square root *)

(** A float64 computed through [sqrt]: a real number, an infinity or
    NaN. *)
Inductive rfloat : Type :=
| RFin (r : R)
| RPInf
| RNInf
| RNaN.

(** Sum of squared deviations from the mean. *)
Definition Qssq (v : list Q) : Q :=
  let m := Qmean v in Qsum (map (fun x => (x - m) * (x - m)) v).

(** [Series.var()] with the default [ddof=1]: NaN below two
    observations. *)
Definition var (l : list float64) : float64 :=
  let v := dropna l in
  if (List.length v <=? 1)%nat then NaN
  else Fin (Qssq v / (Qlen v - 1)).

(** [Series.std()] with the default [ddof=1]. *)
Definition std (l : list float64) : rfloat :=
  match var l with
  | Fin q => RFin (sqrt (Q2R q))
  | NaN => RNaN
  end.

(** [series - c] *)
Definition sub_scalar (l : list float64) (c : float64) : list float64 :=
  map (fun x => match x, c with
                | Fin q, Fin m => Fin (q - m)
                | _, _ => NaN
                end) l.

(** IEEE division of a float by a float: [x / 0] is an infinity of the
    sign of [x], [0 / 0] is NaN. *)
Definition fdiv (x : float64) (d : rfloat) : rfloat :=
  match x, d with
  | NaN, _ | _, RNaN => RNaN
  | Fin q, RFin s =>
      if Req_dec_T s 0%R then
        match Qcompare q 0 with
        | Eq => RNaN
        | Gt => RPInf
        | Lt => RNInf
        end
      else RFin (Q2R q / s)%R
  | Fin _, RPInf | Fin _, RNInf => RFin 0%R
  end.

(** [series / d] *)
Definition div_scalar (l : list float64) (d : rfloat) : list rfloat :=
  map (fun x => fdiv x d) l.

(** [np.abs] *)
Definition fabs (x : rfloat) : rfloat :=
  match x with
  | RFin r => RFin (Rabs r)
  | RPInf | RNInf => RPInf
  | RNaN => RNaN
  end.

(** [x > t]; every comparison with NaN is False. *)
Definition fgt (x : rfloat) (t : float64) : bool :=
  match x, t with
  | RFin r, Fin q => if Rlt_dec (Q2R q) r then true else false
  | RPInf, Fin _ => true
  | _, _ => false
  end.

(** [DataFrame.any(axis=1)] of a boolean frame of [n] rows. *)
Definition any_axis1 (n : nat) (cols : list (list bool)) : list bool :=
  map (fun i => existsb (fun c => nth i c false) cols) (seq 0 n).

(** *** Pearson correlation *)

(** The rows where both values are present. *)
Fixpoint pairwise_complete (xs ys : list float64) : list (Q * Q) :=
  match xs, ys with
  | Fin x :: xs', Fin y :: ys' => (x, y) :: pairwise_complete xs' ys'
  | _ :: xs', _ :: ys' => pairwise_complete xs' ys'
  | _, _ => []
  end.

(** The last step of the Pearson coefficient: the co-moment over the
    square root of the product of the two sums of squared deviations, NaN
    when that root is zero. *)
Definition pearson_ratio (ssx ssy cov : Q) : rfloat :=
  let divisor := sqrt (Q2R (ssx * ssy)) in
  if Req_dec_T divisor 0%R then RNaN else RFin (Q2R cov / divisor)%R.

(** One entry of [DataFrame.corr()] ([method='pearson'],
    [min_periods=1]), computed over the rows where both values are
    present. *)
Definition corr_pair (xs ys : list float64) : rfloat :=
  let p := pairwise_complete xs ys in
  match p with
  | [] => RNaN
  | _ =>
      let mx := Qmean (map fst p) in
      let my := Qmean (map snd p) in
      let ssx := Qsum (map (fun a => (fst a - mx) * (fst a - mx)) p) in
      let ssy := Qsum (map (fun a => (snd a - my) * (snd a - my)) p) in
      let cov := Qsum (map (fun a => (fst a - mx) * (snd a - my)) p) in
      pearson_ratio ssx ssy cov
  end.

(** A correlation matrix: the labels and, per label, its row. *)
Record Matrix : Type := mkMatrix {
  labels : list string;
  entries : list (list rfloat)
}.

(** [DataFrame.corr()] of a frame of numeric columns. *)
Definition corr (cols : list (string * list float64)) : Matrix :=
  mkMatrix (map fst cols)
           (map (fun a => map (fun b => corr_pair (snd a) (snd b)) cols) cols).

(** *** Rounding a real number *)

(** Round half to even on the reals; [up r - 1] is the floor of [r]. *)
Definition rint_real (r : R) : Z :=
  let f := (up r - 1)%Z in
  let d := (r - IZR f)%R in
  if Rlt_dec d (1 / 2) then f
  else if Rlt_dec (1 / 2) d then (f + 1)%Z
  else if Z.even f then f else (f + 1)%Z.

(** [round(x, d)] of a float computed through [sqrt]; NaN and the
    infinities are left as they are. *)
Definition round_real (d : nat) (x : rfloat) : rfloat :=
  match x with
  | RFin r =>
      RFin (IZR (rint_real (r * IZR (10 ^ Z.of_nat d))) / IZR (10 ^ Z.of_nat d))
  | other => other
  end.

End Pd.

(* ================================================================= *)
(** ** [src/eda/credit_analysis.py] *)

Module CreditAnalyzer.
Import Pd.

(** A frame indexed by group key, one row of named statistics per key. *)
Definition GroupFrame := list (key * list (string * float64)).

(** [CreditAnalyzer.calculate_risk_metrics]: the returned dict, in the
    order of its literal. *)
Definition calculate_risk_metrics (data : DataFrame)
  : result (list (string * float64)) :=
  d <- getitem data "default" ;;
  dv <- to_numeric d ;;
  c <- getitem data "credit_score" ;;
  cv <- to_numeric c ;;
  Ok [ ("default_rate", mean dv);
       ("avg_credit_score", mean cv);
       ("high_risk_proportion", mean_bool (lt_scalar cv 600)) ].

(** [CreditAnalyzer.segment_analysis]:
    [groupby(segment_column).agg({... 'mean'}).round(2)]. *)
Definition segment_analysis (data : DataFrame) (segment_column : string)
  : result GroupFrame :=
  k <- getitem data segment_column ;;
  d <- getitem data "default" ;;
  c <- getitem data "credit_score" ;;
  l <- getitem data "loan_amount" ;;
  dv <- to_numeric d ;;
  cv <- to_numeric c ;;
  lv <- to_numeric l ;;
  Ok (map (fun g =>
             (fst g,
              [ ("default", round_decimals 2 (mean (take_mask (snd g) dv)));
                ("credit_score", round_decimals 2 (mean (take_mask (snd g) cv)));
                ("loan_amount", round_decimals 2 (mean (take_mask (snd g) lv))) ]))
          (groupby key_compare (map key_of_cell k))).

(** [CreditAnalyzer.risk_correlation_analysis]:
    [self.data[features].corr()]. *)
Definition risk_correlation_analysis (data : DataFrame) (features : list string)
  : result Matrix :=
  selected <- map_result (fun f => s <- getitem data f ;; Ok (f, s)) features ;;
  cols <- map_result (fun c => v <- to_numeric (snd c) ;; Ok (fst c, v)) selected ;;
  Ok (corr cols).

End CreditAnalyzer.

(* ================================================================= *)
(** ** [src/eda/fraud_analysis.py] *)

Module FraudAnalyzer.
Import Pd.

(** Truth value of a Python float: zero is false, everything else, NaN
    included, is true. *)
Definition float_bool (x : float64) : bool :=
  match x with
  | Fin q => negb (Qeq_bool q 0)
  | NaN => true
  end.

(** Truth value of an optional float argument: [None] is false. *)
Definition truthy (x : option float64) : bool :=
  match x with
  | None => false
  | Some v => float_bool v
  end.

(** One row of the velocity frame: the (customer, time bucket) key with
    the count of [transaction_id] and the sum and mean of [amount]. *)
Definition VelocityFrame := list ((key * Z) * (nat * float64 * float64)).

(** The [groupby([...]).agg({...})] of [calculate_velocity_metrics]. *)
Definition velocity_groupby (transactions : DataFrame) (time_window : positive)
  : result VelocityFrame :=
  cust <- getitem transactions "customer_id" ;;
  dates <- getitem transactions "transaction_date" ;;
  ts <- to_datetime_values dates ;;
  tid <- getitem transactions "transaction_id" ;;
  amt <- getitem transactions "amount" ;;
  av <- to_numeric amt ;;
  Ok (map (fun g =>
             (fst g,
              (count (take_mask (snd g) tid),
               sum (take_mask (snd g) av),
               mean (take_mask (snd g) av))))
          (groupby (pair_compare key_compare Z.compare)
                   (zip_keys (map key_of_cell cust)
                             (grouper_bins time_window ts)))).

(** [self.data[self.data['amount'] > amount_threshold]] *)
Definition filter_amount (data : DataFrame) (amount_threshold : float64)
  : result DataFrame :=
  amt <- getitem data "amount" ;;
  av <- to_numeric amt ;;
  Ok (getitem_mask data (gt_scalar av amount_threshold)).

(** [FraudAnalyzer.calculate_velocity_metrics].  [time_window] is the
    parsed frequency in nanoseconds (default ['1H']). *)
Definition calculate_velocity_metrics (data : DataFrame)
  (time_window : positive) (amount_threshold : option float64)
  : result VelocityFrame :=
  transactions <-
    (if truthy amount_threshold then
       match amount_threshold with
       | Some t => filter_amount data t
       | None => Ok data
       end
     else Ok data) ;;
  velocity_groupby transactions time_window.

(** The z-score column of one feature:
    [np.abs((s - s.mean()) / s.std())]. *)
Definition zscore (s : list float64) : list rfloat :=
  map fabs (div_scalar (sub_scalar s (mean s)) (std s)).

(** The loop filling the [z_scores] dict. *)
Definition z_scores_loop (data : DataFrame) (features : list string)
  : result (list (string * list rfloat)) :=
  for_each (fun feature z_scores =>
              s <- getitem data feature ;;
              v <- to_numeric s ;;
              Ok (assoc_set (feature ++ "_zscore") (zscore v) z_scores))
           features [].

(** [FraudAnalyzer.detect_anomalies].  With no feature the z-score frame
    has an empty index, and indexing a non-empty frame with its (empty)
    mask is an [IndexingError]. *)
Definition detect_anomalies (data : DataFrame) (features : list string)
  (threshold : float64) : result DataFrame :=
  z_scores <- z_scores_loop data features ;;
  match z_scores with
  | [] =>
      if Nat.eqb (nrows data) 0 then Ok (getitem_mask data [])
      else Raise IndexingError
  | _ =>
      Ok (getitem_mask data
            (any_axis1 (nrows data)
               (map (fun c => map (fun z => fgt z threshold) (snd c))
                    z_scores)))
  end.

(** An executable form of the same test.  [|d / sqrt v| > t] is decided
    on the rationals: the variance [v] must be positive, and then either
    [t] is negative or [t * t * v < d * d]. *)
Definition zscore_gt (d v t : Q) : bool :=
  Qltb 0 v && (Qltb t 0 || Qltb (t * t * v) (d * d)).

(** The column [np.abs((s - s.mean()) / s.std()) > threshold], computed
    on the rationals. *)
Definition zscore_flags (s : list float64) (threshold : float64) : list bool :=
  map (fun x => match x, mean s, var s, threshold with
                | Fin a, Fin m, Fin v, Fin t => zscore_gt (a - m) v t
                | _, _, _, _ => false
                end) s.

(** [detect_anomalies] with the comparisons decided on the rationals; it
    is proved equal to [detect_anomalies] below and can be run. *)
Definition detect_anomalies_exact (data : DataFrame) (features : list string)
  (threshold : float64) : result DataFrame :=
  flags <- for_each (fun feature flags =>
                       s <- getitem data feature ;;
                       v <- to_numeric s ;;
                       Ok (assoc_set (feature ++ "_zscore")
                                     (zscore_flags v threshold) flags))
                    features [] ;;
  match flags with
  | [] =>
      if Nat.eqb (nrows data) 0 then Ok (getitem_mask data [])
      else Raise IndexingError
  | _ => Ok (getitem_mask data (any_axis1 (nrows data) (map snd flags)))
  end.

(** [x >= t] on floats; NaN compares False. *)
Definition fge (x t : float64) : bool :=
  match x, t with
  | Fin a, Fin b => Qle_bool b a
  | _, _ => false
  end.

(** One row per merchant category: count of [transaction_id] and mean
    of [is_fraud]. *)
Definition MerchantFrame := list (key * (nat * float64)).

(** The two columns of a row of a merchant frame. *)
Definition transaction_count (r : key * (nat * float64)) : nat := fst (snd r).

Definition fraud_rate (r : key * (nat * float64)) : float64 := snd (snd r).

Definition merchant_risk (data : DataFrame) : result MerchantFrame :=
  cat <- getitem data "merchant_category" ;;
  tid <- getitem data "transaction_id" ;;
  fr <- getitem data "is_fraud" ;;
  fv <- to_numeric fr ;;
  Ok (map (fun g =>
             (fst g,
              (count (take_mask (snd g) tid), mean (take_mask (snd g) fv))))
          (groupby key_compare (map key_of_cell cat))).

Definition qualifies (min_transactions : Z) (risk_threshold : float64)
  (r : key * (nat * float64)) : bool :=
  (min_transactions <=? Z.of_nat (transaction_count r))%Z
  && fge (fraud_rate r) risk_threshold.

(** [FraudAnalyzer.get_high_risk_merchants]. *)
Definition get_high_risk_merchants (argsort : list Q -> list nat)
  (data : DataFrame) (min_transactions : Z) (risk_threshold : float64)
  : result MerchantFrame :=
  mr <- merchant_risk data ;;
  let high_risk := filter (qualifies min_transactions risk_threshold) mr in
  Ok (sort_values_desc argsort fraud_rate high_risk).

(** One row of the geographic frame: the location with the count of
    [transaction_id], the mean and standard deviation of [amount] and
    the mean of [is_fraud]. *)
Definition GeoFrame := list (key * (nat * float64 * rfloat * float64)).

(** [FraudAnalyzer.analyze_geographic_patterns]:
    [groupby('merchant_location').agg({...}).round(3)].  The count is an
    integer column, which [round] leaves as it is. *)
Definition analyze_geographic_patterns (data : DataFrame) : result GeoFrame :=
  loc <- getitem data "merchant_location" ;;
  tid <- getitem data "transaction_id" ;;
  amt <- getitem data "amount" ;;
  fr <- getitem data "is_fraud" ;;
  av <- to_numeric amt ;;
  fv <- to_numeric fr ;;
  Ok (map (fun g =>
             (fst g,
              (count (take_mask (snd g) tid),
               round_decimals 3 (mean (take_mask (snd g) av)),
               round_real 3 (std (take_mask (snd g) av)),
               round_decimals 3 (mean (take_mask (snd g) fv)))))
          (groupby key_compare (map key_of_cell loc))).

End FraudAnalyzer.

(* ================================================================= *)
(** ** [src/utils/data_loader.py] *)

Module DataLoader.
Import Pd.

(** The body of the loop of [clean_numeric] for a column of the frame.
    The frame is updated in place in the source; here the updated frame
    is threaded through. *)
Definition clean_column (col : string) (df : DataFrame) : result DataFrame :=
  s <- getitem df col ;;
  v <- to_numeric s ;;
  let df1 := setitem df col (map of_float (fillna v (median v))) in
  s1 <- getitem df1 col ;;
  v1 <- to_numeric s1 ;;
  let upper_limit := quantile v1 (99 # 100) in
  s2 <- getitem df1 col ;;
  v2 <- to_numeric s2 ;;
  Ok (setitem df1 col (map of_float (clip_upper v2 upper_limit))).

(** [clean_numeric(df, numeric_columns)] *)
Definition clean_numeric (df : DataFrame) (numeric_columns : list string)
  : result DataFrame :=
  for_each (fun col df =>
              if has_column df col then clean_column col df else Ok df)
           numeric_columns df.

(** *** Dates *)

Section Dates.

(** [pd.to_datetime] on a column: the converted column, or the exception
    of a value that cannot be read as a date.  The parser of pandas is
    not modelled; it is a parameter. *)
Variable to_datetime : Series -> result Series.

(** The loop of [preprocess_dates] on the caller's frame, which is
    updated in place: the frame when the loop stops, and the exception
    that stopped it, if any. *)
Fixpoint preprocess_dates_loop (date_columns : list string) (df : DataFrame)
  : DataFrame * option exn :=
  match date_columns with
  | [] => (df, None)
  | col :: rest =>
      match lookup col (columns df) with
      | None => preprocess_dates_loop rest df
      | Some s =>
          match to_datetime s with
          | Ok s' => preprocess_dates_loop rest (setitem df col s')
          | Raise e => (df, Some e)
          end
      end
  end.

(** [preprocess_dates(df, date_columns)]: the frame itself is
    returned. *)
Definition preprocess_dates (df : DataFrame) (date_columns : list string)
  : result DataFrame :=
  match preprocess_dates_loop date_columns df with
  | (df', None) => Ok df'
  | (_, Some e) => Raise e
  end.

End Dates.

End DataLoader.

(* ================================================================= *)
(** ** Vocabulary of the statements *)

Module Spec.
Import Pd.

(** Equality of floats as numbers: NaN only with NaN. *)
Definition feq (x y : float64) : Prop :=
  match x, y with
  | Fin a, Fin b => a == b
  | NaN, NaN => True
  | _, _ => False
  end.

(** A column without a single present value (an empty column included). *)
Definition all_missing (s : Series) : bool :=
  forallb (fun c => match c with NA => true | _ => false end) s.

(** [name] is a column of [df] whose cells are all numbers or missing. *)
Definition numeric_column (df : DataFrame) (name : string) : bool :=
  match lookup name (columns df) with
  | Some s => is_ok (to_numeric s)
  | None => false
  end.

(** The float values of a numeric column. *)
Definition values_of (df : DataFrame) (name : string) : list float64 :=
  match lookup name (columns df) with
  | Some s => match to_numeric s with Ok v => v | Raise _ => [] end
  | None => []
  end.

Definition nums (l : list Q) : Series := map Num l.

(** The credit scenario of the specification. *)
Definition credit_scenario : DataFrame :=
  mkDataFrame 5
    [ ("credit_score", nums [550; 620; 700; 590; 800]);
      ("default", nums [1; 0; 0; 1; 0]) ].

(** Two credit rows whose score is missing. *)
Definition credit_no_score : DataFrame :=
  mkDataFrame 2 [ ("default", nums [1; 0]); ("credit_score", [NA; NA]) ].

Definition hour_ns : positive := 3600000000000.

(** Four transactions of two customers; one amount is negative, one is
    zero. *)
Definition tx_scenario : DataFrame :=
  mkDataFrame 4
    [ ("customer_id", [Str "a"; Str "a"; Str "b"; Str "a"]);
      ("transaction_id", nums [1; 2; 3; 4]);
      ("transaction_date",
        [Time 0; Time 1000; Time 3600000000000; Time 3700000000000]);
      ("amount", nums [5; -3; 0; 7]) ].

(** Key and transaction count of each row of a velocity frame. *)
Definition velocity_counts (v : FraudAnalyzer.VelocityFrame)
  : list ((key * Z) * nat) :=
  map (fun r => (fst r, fst (fst (snd r)))) v.

(** Sample standard deviation ([ddof = 1]) of a list of observations. *)
Definition sample_std (obs : list Q) : R :=
  sqrt (Q2R (Qssq obs / (Qlen obs - 1))).

(** Row [i] exceeds the threshold [t] on the feature with values [v],
    in exact arithmetic: its value is present, the sample standard
    deviation of the feature is defined (two observations at least) and
    not zero, and the absolute z-score of the value is above [t]. *)
Definition exceeds (v : list float64) (t : Q) (i : nat) : Prop :=
  exists x,
    nth_error v i = Some (Fin x)
    /\ (2 <= List.length (dropna v))%nat
    /\ sample_std (dropna v) <> 0%R
    /\ (Q2R t
        < Rabs ((Q2R x - Q2R (Qmean (dropna v))) / sample_std (dropna v)))%R.

(** Five amounts, four of them equal. *)
Definition amounts_scenario : DataFrame :=
  mkDataFrame 5
    [ ("transaction_id", nums [1; 2; 3; 4; 5]);
      ("amount", nums [10; 10; 10; 10; 1000]) ].

(** The first [n] rows of a list of columns, and the columns without
    their first row. *)
Definition rows_of (cols : list (string * Series)) (n : nat) : list row :=
  map (fun i => map (fun c => (fst c, nth i (snd c) NA)) cols) (seq 0 n).

Definition tails (cols : list (string * Series)) : list (string * Series) :=
  map (fun c => (fst c, tl (snd c))) cols.

(** Entry [(i, j)] of a matrix. *)
Definition entry (M : Matrix) (i j : nat) : rfloat :=
  nth j (nth i (entries M) []) RNaN.

Definition swap (a : Q * Q) : Q * Q := (snd a, fst a).

(** Strict order induced by a three-way comparison. *)
Definition cmp_lt {K : Type} (cmp : K -> K -> comparison) (a b : K) : Prop :=
  cmp a b = Lt.

(** Keys as [key_of_cell] makes them: numbers in lowest terms. *)
Definition canonical (k : key) : Prop :=
  match k with
  | KNum q => Qred q = q
  | KStr _ | KTime _ => True
  end.

(** A property of the key of a row, when the row has one. *)
Definition holds_opt {K : Type} (good : K -> Prop) (o : option K) : Prop :=
  match o with
  | Some k => good k
  | None => True
  end.

Definition canonical_opt : option key -> Prop := holds_opt canonical.

(** Four credit rows in two regions; the region of the last one is
    missing. *)
Definition credit_segments : DataFrame :=
  mkDataFrame 4
    [ ("region", [Str "north"; Str "south"; Str "north"; NA]);
      ("default", nums [1; 0; 0; 1]);
      ("credit_score", nums [550; 620; 701; 590]);
      ("loan_amount", nums [1000; 2500; 1001; 4000]) ].

(** What numpy promises of [argsort(kind='quicksort')]: the result is a
    permutation of the positions and lists the values in ascending
    order.  Nothing is promised about the order of equal values. *)
Definition argsort_valid (argsort : list Q -> list nat) : Prop :=
  forall v,
    Permutation (argsort v) (seq 0 (List.length v))
    /\ StronglySorted (fun i j => nth i v 0 <= nth j v 0) (argsort v).

(** Two sorting algorithms that meet the promise: insertion sort that
    puts a position before the positions of equal values (stable), and
    insertion sort that puts it after them (equal values come out in
    reverse). *)
Fixpoint insert_by (before : Q -> Q -> bool) (v : list Q) (i : nat)
  (l : list nat) : list nat :=
  match l with
  | [] => [i]
  | j :: t =>
      if before (nth i v 0) (nth j v 0) then i :: l
      else j :: insert_by before v i t
  end.

Definition argsort_by (before : Q -> Q -> bool) (v : list Q) : list nat :=
  fold_right (insert_by before v) [] (seq 0 (List.length v)).

Definition argsort_stable : list Q -> list nat := argsort_by Qle_bool.

Definition argsort_reversing : list Q -> list nat := argsort_by Qltb.

(** The order "at least as risky as" on the rows of a merchant frame. *)
Definition rate_ge (a b : key * (nat * float64)) : Prop :=
  match FraudAnalyzer.fraud_rate a, FraudAnalyzer.fraud_rate b with
  | Fin x, Fin y => y <= x
  | _, _ => False
  end.

(** Rows with the same fraud rate come in ascending order of their
    key. *)
Definition ties_by_key (out : list (key * (nat * float64))) : Prop :=
  forall i j a b,
    (i < j)%nat -> nth_error out i = Some a -> nth_error out j = Some b ->
    feq (FraudAnalyzer.fraud_rate a) (FraudAnalyzer.fraud_rate b) ->
    key_compare (fst a) (fst b) = Lt.

(** Four transactions of two merchant categories, each with one fraud
    out of two. *)
Definition merchants_tied : DataFrame :=
  mkDataFrame 4
    [ ("merchant_category", [Str "A"; Str "B"; Str "A"; Str "B"]);
      ("transaction_id", nums [1; 2; 3; 4]);
      ("is_fraud", nums [1; 0; 0; 1]) ].

(** What one turn of [clean_numeric] makes of a column: missing values
    are filled with the median, then the column is clipped at the 99th
    percentile of the filled column. *)
Definition cleaned (v : list float64) : list float64 :=
  clip_upper (fillna v (median v))
             (quantile (fillna v (median v)) (99 # 100)).

(** Every listed column that is in the frame is numeric. *)
Definition listed_numeric (df : DataFrame) (names : list string) : bool :=
  forallb (fun c => implb (has_column df c) (numeric_column df c)) names.

(** Five transactions: one amount is missing, one is far above the
    others. *)
Definition amounts_dirty : DataFrame :=
  mkDataFrame 5
    [ ("transaction_id", nums [1; 2; 3; 4; 5]);
      ("amount", [Num 10; NA; Num 30; Num 20; Num 1000]) ].

End Spec.


(* ================================================================= *)
(** ** Further vocabulary *)

Module More.
Import Pd Spec.

(** Every present value of a column lies between [lo] and [hi]. *)
Definition within (lo hi : Q) (v : list float64) : Prop :=
  forall q, In (Fin q) v -> lo <= q <= hi.

(** The value of a statistic in a returned dict. *)
Definition stat (name : string) (r : result (list (string * float64)))
  : option float64 :=
  match r with
  | Ok d => lookup name d
  | Raise _ => None
  end.

(** Some row of the group [g] of the key column [k] has a present value
    in the column [v]. *)
Definition group_has_value (k : Series) (v : list float64) (g : key) : Prop :=
  exists i c q,
    nth_error k i = Some c /\ key_of_cell c = Some g
    /\ nth_error v i = Some (Fin q).

(** A cell that is not missing. *)
Definition present (c : cell) : bool :=
  match c with NA => false | _ => true end.

(** The number of rows that have a group key and a present cell in the
    column [col]. *)
Definition keyed_present {K : Type} (ks : list (option K)) (col : Series) : nat :=
  List.length
    (filter (fun p => match fst p with
                      | Some _ => present (snd p)
                      | None => false
                      end) (combine ks col)).

(** The order of pairs by first, then second component is total on pairs
    of a canonical key and an integer. *)
Definition canonical_pair (p : key * Z) : Prop := canonical (fst p).

(** Four transactions of two merchant categories with different fraud
    rates: one out of two for A, two out of two for B. *)
Definition merchants_ranked : DataFrame :=
  mkDataFrame 4
    [ ("merchant_category", [Str "A"; Str "B"; Str "A"; Str "B"]);
      ("transaction_id", nums [1; 2; 3; 4]);
      ("is_fraud", nums [0; 1; 1; 1]) ].

(** [f] is the earliest timestamp of a datetime column. *)
Definition earliest (ts : list (option Z)) (f : Z) : Prop :=
  In (Some f) ts /\ forall t, In (Some t) ts -> (f <= t)%Z.

(** The number of rows in which three columns all have a value. *)
Definition complete_rows (a b c : Series) : nat :=
  List.length
    (filter (fun r => present (fst (fst r)) && present (snd (fst r))
                      && present (snd r))
            (combine (combine a b) c)).

(** The group keys of [calculate_velocity_metrics]: customer and time
    bucket of each row. *)
Definition velocity_keys (time_window : positive) (cust : Series)
  (ts : list (option Z)) : list (option (key * Z)) :=
  zip_keys (map key_of_cell cust) (grouper_bins time_window ts).

(** The columns of a velocity frame. *)
Definition velocity_count (r : (key * Z) * (nat * float64 * float64)) : nat :=
  fst (fst (snd r)).

Definition sum_amount (r : (key * Z) * (nat * float64 * float64)) : float64 :=
  snd (fst (snd r)).

Definition avg_amount (r : (key * Z) * (nat * float64 * float64)) : float64 :=
  snd (snd r).

Definition is_some {A : Type} (o : option A) : bool :=
  match o with Some _ => true | None => false end.

(** The column is in the frame and holds timestamps. *)
Definition datetime_column (df : DataFrame) (name : string) : bool :=
  match lookup name (columns df) with
  | Some s => is_ok (to_datetime_values s)
  | None => false
  end.

(** The number of rows whose present value is lower in [w] than in
    [v]. *)
Definition lowered (v w : list float64) : nat :=
  List.length
    (filter (fun p => match p with
                      | (Fin a, Fin b) => Qltb b a
                      | _ => false
                      end) (combine v w)).

(** The number of present values above [p]. *)
Definition above (p : Q) (v : list float64) : nat :=
  List.length (filter (Qltb p) (dropna v)).

(** The columns of a geographic frame. *)
Definition geo_count (r : key * (nat * float64 * rfloat * float64)) : nat :=
  fst (fst (fst (snd r))).

Definition geo_amount_mean (r : key * (nat * float64 * rfloat * float64))
  : float64 := snd (fst (fst (snd r))).

Definition geo_amount_std (r : key * (nat * float64 * rfloat * float64))
  : rfloat := snd (fst (snd r)).

Definition geo_fraud_rate (r : key * (nat * float64 * rfloat * float64))
  : float64 := snd (snd r).

(** The present amounts of the transactions at a location. *)
Definition amounts_at (loc : Series) (av : list float64) (k : key) : list Q :=
  dropna (take_mask (group_mask key_compare (map key_of_cell loc) k) av).

(** Five transactions at two locations; one location has a single
    transaction. *)
Definition geo_scenario : DataFrame :=
  mkDataFrame 5
    [ ("merchant_location", [Str "Accra"; Str "Kumasi"; Str "Accra"; NA; Str "Accra"]);
      ("transaction_id", nums [1; 2; 3; 4; 5]);
      ("amount", nums [10; 20; 30; 40; 50]);
      ("is_fraud", nums [0; 1; 0; 0; 1]) ].

(** A stand-in for [pd.to_datetime] in examples: timestamps and missing
    values are kept, whole numbers are nanoseconds since the epoch, and
    everything else is refused. *)
Definition to_datetime_epoch (s : Series) : result Series :=
  map_result (fun c => match c with
                       | Time t => Ok (Time t)
                       | NA => Ok NA
                       | Num q => if Qeq_bool q (inject_Z (Qfloor q))
                                  then Ok (Time (Qfloor q))
                                  else Raise ValueError
                       | Str _ => Raise ValueError
                       end) s.

(** Three rows with two date columns, the second of which holds text. *)
Definition dated : DataFrame :=
  mkDataFrame 3
    [ ("opened", [Num 0; NA; Num 86400000000000]);
      ("closed", [Num 5; Str "soon"; NA]);
      ("amount", nums [1; 2; 3]) ].

End More.

(* ================================================================= *)
(** ** numpy's quicksort *)

(** [numpy.argsort(kind='quicksort')] on float64 keys without NaN
    ([npysort/quicksort.cpp], [aquicksort_]): an introsort on an array
    of positions.  Partitions of more than 17 positions are split around
    the median of three; smaller ones are sorted by insertion; a
    partition reached after too many splits is sorted by
    [aheapsort_]. *)
Module Np.
Import Pd.

Definition SMALL_QUICKSORT : Z := 16.

(** [a[i]] and [a[i] = x] on the array of positions. *)
Definition get (a : list nat) (i : Z) : nat := nth (Z.to_nat i) a 0%nat.

Fixpoint set_nth (a : list nat) (i : nat) (x : nat) : list nat :=
  match a, i with
  | [], _ => []
  | _ :: t, O => x :: t
  | h :: t, S i' => h :: set_nth t i' x
  end.

Definition set (a : list nat) (i : Z) (x : nat) : list nat :=
  set_nth a (Z.to_nat i) x.

(** [INTP_SWAP(a[i], a[j])] *)
Definition swap (a : list nat) (i j : Z) : list nat :=
  set (set a i (get a j)) j (get a i).

(** [npy_get_msb]: the position of the highest set bit. *)
Definition npy_get_msb (n : Z) : Z := Z.log2 n.

Section Keys.
(** The keys [v]; the array [a] holds positions into [v]. *)
Variable v : list Q.

(** [v[a[i]]] *)
Definition key (a : list nat) (i : Z) : Q := nth (get a i) v 0.

(** [if (LT(v[a[i]], v[a[j]])) INTP_SWAP(a[i], a[j])] *)
Definition order (a : list nat) (i j : Z) : list nat :=
  if Qltb (key a i) (key a j) then swap a i j else a.

(** [do { ++pi; } while (LT(v[*pi], vp))]; the pivot stops the scan
    inside the partition. *)
Fixpoint scan_up (fuel : nat) (a : list nat) (vp : Q) (pi : Z) : Z :=
  match fuel with
  | O => pi
  | S f =>
      let pi := (pi + 1)%Z in
      if Qltb (key a pi) vp then scan_up f a vp pi else pi
  end.

(** [do { --pj; } while (LT(vp, v[*pj]))] *)
Fixpoint scan_down (fuel : nat) (a : list nat) (vp : Q) (pj : Z) : Z :=
  match fuel with
  | O => pj
  | S f =>
      let pj := (pj - 1)%Z in
      if Qltb vp (key a pj) then scan_down f a vp pj else pj
  end.

(** The [for (;;)] loop of the partition. *)
Fixpoint exchange (fuel : nat) (a : list nat) (vp : Q) (pi pj : Z)
  : list nat * Z :=
  match fuel with
  | O => (a, pi)
  | S f =>
      let pi := scan_up (List.length a) a vp pi in
      let pj := scan_down (List.length a) a vp pj in
      if (pi >=? pj)%Z then (a, pi)
      else exchange f (swap a pi pj) vp pi pj
  end.

(** One partition of [a[pl..pr]]: the array and the position of the
    pivot. *)
Definition partition (a : list nat) (pl pr : Z) : list nat * Z :=
  let pm := (pl + Z.shiftr (pr - pl) 1)%Z in
  let a := order a pm pl in
  let a := order a pr pm in
  let a := order a pm pl in
  let vp := key a pm in
  let pj := (pr - 1)%Z in
  let a := swap a pm pj in
  let '(a, pi) := exchange (List.length a) a vp pl pj in
  (swap a pi (pr - 1)%Z, pi).

(** [while (pj > pl && LT(vp, v[*pk])) { *pj-- = *pk--; }] *)
Fixpoint shift_down (fuel : nat) (a : list nat) (vp : Q) (pl pj : Z)
  : list nat * Z :=
  match fuel with
  | O => (a, pj)
  | S f =>
      if (pj >? pl)%Z && Qltb vp (key a (pj - 1)%Z)
      then shift_down f (set a pj (get a (pj - 1)%Z)) vp pl (pj - 1)%Z
      else (a, pj)
  end.

(** The insertion sort of [a[pl..pr]]. *)
Fixpoint insertion (fuel : nat) (a : list nat) (pl pr pi : Z) : list nat :=
  match fuel with
  | O => a
  | S f =>
      if (pi <=? pr)%Z then
        let vi := get a pi in
        let '(a, pj) := shift_down (List.length a) a (nth vi v 0) pl pi in
        insertion f (set a pj vi) pl pr (pi + 1)%Z
      else a
  end.

(** The sift loop of [aheapsort_] on the one-based heap that starts at
    [pl]: [a1[k]] is [a[pl + k - 1]]. *)
Fixpoint sift (fuel : nat) (a : list nat) (pl n : Z) (tmp : nat) (i j : Z)
  : list nat * Z :=
  match fuel with
  | O => (a, i)
  | S f =>
      if (j <=? n)%Z then
        let j := if (j <? n)%Z
                    && Qltb (key a (pl + j - 1)%Z) (key a (pl + j)%Z)
                 then (j + 1)%Z else j in
        if Qltb (nth tmp v 0) (key a (pl + j - 1)%Z)
        then sift f (set a (pl + i - 1)%Z (get a (pl + j - 1)%Z)) pl n tmp
                  j (j + j)%Z
        else (a, i)
      else (a, i)
  end.

Fixpoint heapify (fuel : nat) (a : list nat) (pl n l : Z) : list nat :=
  match fuel with
  | O => a
  | S f =>
      if (l >? 0)%Z then
        let tmp := get a (pl + l - 1)%Z in
        let '(a, i) := sift (List.length a) a pl n tmp l (Z.shiftl l 1) in
        heapify f (set a (pl + i - 1)%Z tmp) pl n (l - 1)%Z
      else a
  end.

Fixpoint unheap (fuel : nat) (a : list nat) (pl n : Z) : list nat :=
  match fuel with
  | O => a
  | S f =>
      if (n >? 1)%Z then
        let tmp := get a (pl + n - 1)%Z in
        let a := set a (pl + n - 1)%Z (get a pl) in
        let n := (n - 1)%Z in
        let '(a, i) := sift (List.length a) a pl n tmp 1 2 in
        unheap f (set a (pl + i - 1)%Z tmp) pl n
      else a
  end.

(** [aheapsort_(vv, pl, n)] *)
Definition aheapsort (a : list nat) (pl n : Z) : list nat :=
  let a := heapify (List.length a) a pl n (Z.shiftr n 1) in
  unheap (List.length a) a pl n.

(** The inner [while ((pr - pl) > SMALL_QUICKSORT)] loop: split, push
    the larger part with the new depth, go on with the smaller part. *)
Fixpoint split (fuel : nat) (a : list nat) (pl pr cdepth : Z)
  (stack : list (Z * Z * Z)) : list nat * Z * Z * list (Z * Z * Z) :=
  match fuel with
  | O => (a, pl, pr, stack)
  | S f =>
      if (pr - pl >? SMALL_QUICKSORT)%Z then
        let '(a, pi) := partition a pl pr in
        let cdepth := (cdepth - 1)%Z in
        if (pi - pl <? pr - pi)%Z
        then split f a pl (pi - 1)%Z cdepth (((pi + 1)%Z, pr, cdepth) :: stack)
        else split f a (pi + 1)%Z pr cdepth ((pl, (pi - 1)%Z, cdepth) :: stack)
      else (a, pl, pr, stack)
  end.

(** The outer [while (1)] loop with its stack of partitions. *)
Fixpoint run (fuel : nat) (a : list nat) (pl pr cdepth : Z)
  (stack : list (Z * Z * Z)) : list nat :=
  match fuel with
  | O => a
  | S f =>
      let '(a, stack) :=
        if (cdepth <? 0)%Z then (aheapsort a pl (pr - pl + 1)%Z, stack)
        else
          let '(a, pl, pr, stack) :=
            split (List.length a) a pl pr cdepth stack in
          (insertion (List.length a) a pl pr (pl + 1)%Z, stack) in
      match stack with
      | [] => a
      | (pl, pr, cdepth) :: rest => run f a pl pr cdepth rest
      end
  end.

End Keys.

(** [v.argsort(kind='quicksort')] *)
Definition argsort (v : list Q) : list nat :=
  let n := List.length v in
  run v (S n) (seq 0 n) 0 (Z.of_nat n - 1)
      (npy_get_msb (Z.of_nat n) * 2) [].

End Np.

(* ================================================================= *)
(** ** Binary64 arithmetic *)

(** The statistics of pandas as they are computed: on IEEE 754 binary64
    numbers, each operation rounded to nearest, in the order in which
    numpy and pandas perform them.  A missing value of a numeric column
    is NaN. *)
Module F64.
Import Pd.

(** *** Reading a column *)

Definition Z2SF (z : Z) : spec_float :=
  match z with
  | Z0 => S754_zero false
  | Zpos p => S754_finite false p 0
  | Zneg p => S754_finite true p 0
  end.

(** The binary64 number nearest to a rational: the value that a decimal
    literal, an integer or a stored number has as a float64 (the
    quotient of numerator and denominator, rounded once). *)
Definition of_Q (q : Q) : float :=
  SF2Prim (SFdiv prec emax (Z2SF (Qnum q)) (S754_finite false (Qden q) 0)).

Definition of_nat (n : nat) : float := of_Q (inject_Z (Z.of_nat n)).

Definition cell_float (c : cell) : result float :=
  match c with
  | Num x => Ok (of_Q x)
  | NA => Ok PrimFloat.nan
  | Str _ | Time _ => Raise TypeError
  end.

(** The float64 values of a numeric column. *)
Definition to_numeric (s : Series) : result (list float) :=
  map_result cell_float s.

Definition notna (x : float) : bool := negb (PrimFloat.is_nan x).

(** [Series.count()] of a float64 column. *)
Definition count (v : list float) : nat := List.length (filter notna v).

(** *** Sums *)

(** [np.putmask(values, mask, 0)]: missing values count as zero in a
    sum. *)
Definition fill_zero (v : list float) : list float :=
  map (fun x => if PrimFloat.is_nan x then PrimFloat.zero else x) v.

(** [res += a[i]] over a list. *)
Definition accumulate (res : float) (l : list float) : float :=
  fold_left PrimFloat.add l res.

(** Lane by lane [r[k] += a[i + k]], eight values at a time. *)
Fixpoint add_lanes (r l : list float) : list float :=
  match r, l with
  | x :: r', y :: l' => PrimFloat.add x y :: add_lanes r' l'
  | _, _ => r
  end.

Fixpoint add_blocks (blocks : nat) (r l : list float) : list float :=
  match blocks with
  | O => r
  | S b => add_blocks b (add_lanes r (firstn 8 l)) (skipn 8 l)
  end.

(** The unrolled loop of [pairwise_sum] for 8 to 128 values: eight
    accumulators, added up in pairs, then the values that are left. *)
Definition block_sum (l : list float) : float :=
  let n := List.length l in
  let r := add_blocks (n / 8 - 1) (firstn 8 l) (skipn 8 l) in
  let at_ k := nth k r PrimFloat.zero in
  let res := PrimFloat.add
               (PrimFloat.add (PrimFloat.add (at_ 0%nat) (at_ 1%nat))
                              (PrimFloat.add (at_ 2%nat) (at_ 3%nat)))
               (PrimFloat.add (PrimFloat.add (at_ 4%nat) (at_ 5%nat))
                              (PrimFloat.add (at_ 6%nat) (at_ 7%nat))) in
  accumulate res (skipn (n - n mod 8) l).

(** numpy's [DOUBLE_pairwise_sum]: fewer than 8 values are added from
    left to right, starting from [-0.0]; longer arrays are halved at a
    multiple of 8 down to blocks of at most 128 values. *)
Fixpoint pairwise_sum (fuel : nat) (l : list float) : float :=
  let n := List.length l in
  if (n <? 8)%nat then accumulate PrimFloat.neg_zero l
  else if (n <=? 128)%nat then block_sum l
  else
    match fuel with
    | O => block_sum l
    | S f =>
        let n2 := (n / 2 - (n / 2) mod 8)%nat in
        PrimFloat.add (pairwise_sum f (firstn n2 l))
                      (pairwise_sum f (skipn n2 l))
    end.

(** [values.sum(dtype=np.float64)] after the missing values are set to
    zero; the reduction starts from the identity [0.0]. *)
Definition sum (v : list float) : float :=
  PrimFloat.add PrimFloat.zero (pairwise_sum (List.length v) (fill_zero v)).

(** [Series.mean()] ([nanops.nanmean]): the sum over the count of the
    present values, NaN without any. *)
Definition mean (v : list float) : float :=
  match count v with
  | O => PrimFloat.nan
  | n => PrimFloat.div (sum v) (of_nat n)
  end.

(** [Series.var()] with [ddof=1] ([nanops.nanvar]): the squares of
    [avg - x] are summed, missing values counting as zero, and divided
    by [count - ddof]; with a count of at most [ddof] both the count
    and the divisor are NaN. *)
Definition var (v : list float) : float :=
  let n := count v in
  let cnt := if (n <=? 1)%nat then PrimFloat.nan else of_nat n in
  let d := if (n <=? 1)%nat then PrimFloat.nan else of_nat (n - 1) in
  let avg := PrimFloat.div (sum v) cnt in
  let sqr := map (fun x => if PrimFloat.is_nan x then PrimFloat.zero
                           else PrimFloat.mul (PrimFloat.sub avg x)
                                              (PrimFloat.sub avg x)) v in
  PrimFloat.div
    (PrimFloat.add PrimFloat.zero (pairwise_sum (List.length v) sqr)) d.

(** [Series.std()]: [np.sqrt] of the variance. *)
Definition std (v : list float) : float := PrimFloat.sqrt (var v).

(** *** Rounding to decimals *)

(** [np.rint]: the nearest integer, ties to even.  Below [2^52] adding
    and subtracting [2^52] rounds to an integer; from [2^52] on every
    float64 is an integer. *)
Definition two52 : float := of_Q (inject_Z (2 ^ 52)).

Definition rint (x : float) : float :=
  if PrimFloat.ltb (PrimFloat.abs x) two52 then
    if PrimFloat.ltb x PrimFloat.zero
       || PrimFloat.eqb (PrimFloat.div PrimFloat.one x) PrimFloat.neg_infinity
    then PrimFloat.opp
           (PrimFloat.sub (PrimFloat.add (PrimFloat.opp x) two52) two52)
    else PrimFloat.sub (PrimFloat.add x two52) two52
  else x.

(** [np.round(x, decimals)] for [decimals >= 0]:
    [rint(x * 10**decimals) / 10**decimals]. *)
Definition round_decimals (d : nat) (x : float) : float :=
  let f := of_Q (inject_Z (10 ^ Z.of_nat d)) in
  PrimFloat.div (rint (PrimFloat.mul x f)) f.

(** *** Comparisons *)

(** [z > threshold]; every comparison with NaN is False. *)
Definition gt (z threshold : float) : bool := PrimFloat.ltb threshold z.

(** [np.isfinite] *)
Definition isfinite (x : float) : bool :=
  negb (PrimFloat.is_nan x) && negb (PrimFloat.is_infinity x).

(** *** Group means *)

(** One turn of the loop of [group_mean] on a present value: Kahan's
    compensated summation; a compensation that came out as NaN is reset
    to zero. *)
Definition kahan_step (acc : float * float) (val : float) : float * float :=
  let '(sumx, compensation) := acc in
  let y := PrimFloat.sub val compensation in
  let t := PrimFloat.add sumx y in
  let c := PrimFloat.sub (PrimFloat.sub t sumx) y in
  (t, if PrimFloat.is_nan c then PrimFloat.zero else c).

(** [groupby(...).mean()] on the values of one group ([group_mean] of
    pandas' [groupby.pyx]): the compensated sum of the present values
    over their number, NaN for a group without a present value. *)
Definition group_mean (v : list float) : float :=
  let present := filter notna v in
  match List.length present with
  | O => PrimFloat.nan
  | n =>
      PrimFloat.div
        (fst (fold_left kahan_step present (PrimFloat.zero, PrimFloat.zero)))
        (of_nat n)
  end.

(** *** Pearson correlation *)

(** The running moments of [nancorr] (Welford's method). *)
Record moments : Type := mkMoments {
  nobs : nat;
  meanx : float;
  meany : float;
  ssqdm_x : float;
  ssqdm_y : float;
  covxy : float
}.

Definition no_moments : moments :=
  mkMoments 0 PrimFloat.zero PrimFloat.zero PrimFloat.zero PrimFloat.zero
            PrimFloat.zero.

(** The body of the loop over the rows, for a row where both values are
    finite. *)
Definition welford_step (w : moments) (vx vy : float) : moments :=
  let n := S (nobs w) in
  let dx := PrimFloat.sub vx (meanx w) in
  let dy := PrimFloat.sub vy (meany w) in
  let r := PrimFloat.div PrimFloat.one (of_nat n) in
  let mx := PrimFloat.add (meanx w) (PrimFloat.mul r dx) in
  let my := PrimFloat.add (meany w) (PrimFloat.mul r dy) in
  mkMoments n mx my
    (PrimFloat.add (ssqdm_x w) (PrimFloat.mul (PrimFloat.sub vx mx) dx))
    (PrimFloat.add (ssqdm_y w) (PrimFloat.mul (PrimFloat.sub vy my) dy))
    (PrimFloat.add (covxy w) (PrimFloat.mul (PrimFloat.sub vx mx) dy)).

Fixpoint welford (w : moments) (xs ys : list float) : moments :=
  match xs, ys with
  | vx :: xs', vy :: ys' =>
      welford (if isfinite vx && isfinite vy then welford_step w vx vy else w)
              xs' ys'
  | _, _ => w
  end.

(** The coefficient is kept within [-1, 1]. *)
Definition clip_unit (val : float) : float :=
  if PrimFloat.ltb PrimFloat.one val then PrimFloat.one
  else if PrimFloat.ltb val (PrimFloat.opp PrimFloat.one)
       then PrimFloat.opp PrimFloat.one
       else val.

(** The end of the computation of one entry: [min_periods] is 1, and the
    ratio is taken when [divisor != 0], which a NaN divisor satisfies. *)
Definition pearson (w : moments) : float :=
  if (nobs w <? 1)%nat then PrimFloat.nan
  else
    let divisor := PrimFloat.sqrt (PrimFloat.mul (ssqdm_x w) (ssqdm_y w)) in
    if PrimFloat.eqb divisor PrimFloat.zero then PrimFloat.nan
    else clip_unit (PrimFloat.div (covxy w) divisor).

(** One computed entry of [nancorr]. *)
Definition nancorr_pair (xs ys : list float) : float :=
  pearson (welford no_moments xs ys).

(** [nancorr]: the entry of columns [xi] and [yi] is computed for
    [yi <= xi] and stored at [(xi, yi)] and at [(yi, xi)]. *)
Definition nancorr (mat : list (list float)) : list (list float) :=
  let K := List.length mat in
  map (fun a =>
         map (fun b =>
                nancorr_pair (nth (Nat.max a b) mat [])
                             (nth (Nat.min a b) mat []))
             (seq 0 K))
      (seq 0 K).

(** A correlation matrix: the labels and, per label, its row. *)
Record Matrix : Type := mkMatrix {
  labels : list string;
  entries : list (list float)
}.

(** [DataFrame.corr()] ([method='pearson']) of a frame of numeric
    columns. *)
Definition corr (cols : list (string * list float)) : Matrix :=
  mkMatrix (map fst cols) (nancorr (map snd cols)).

(** *** The three functions on binary64 *)

(** A frame indexed by group key, one row of named statistics per key. *)
Definition GroupFrame := list (key * list (string * float)).

(** [CreditAnalyzer.segment_analysis]:
    [groupby(segment_column).agg({... 'mean'}).round(2)]. *)
Definition segment_analysis (data : DataFrame) (segment_column : string)
  : result GroupFrame :=
  k <- getitem data segment_column ;;
  d <- getitem data "default" ;;
  c <- getitem data "credit_score" ;;
  l <- getitem data "loan_amount" ;;
  dv <- to_numeric d ;;
  cv <- to_numeric c ;;
  lv <- to_numeric l ;;
  Ok (map (fun g =>
             (fst g,
              [ ("default",
                 round_decimals 2 (group_mean (take_mask (snd g) dv)));
                ("credit_score",
                 round_decimals 2 (group_mean (take_mask (snd g) cv)));
                ("loan_amount",
                 round_decimals 2 (group_mean (take_mask (snd g) lv))) ]))
          (groupby key_compare (map key_of_cell k))).

(** [CreditAnalyzer.risk_correlation_analysis]:
    [self.data[features].corr()]. *)
Definition risk_correlation_analysis (data : DataFrame) (features : list string)
  : result Matrix :=
  selected <- map_result (fun f => s <- getitem data f ;; Ok (f, s)) features ;;
  cols <- map_result (fun c => v <- to_numeric (snd c) ;; Ok (fst c, v))
                     selected ;;
  Ok (corr cols).

(** The z-score column of one feature:
    [np.abs((s - s.mean()) / s.std())]. *)
Definition zscore (s : list float) : list float :=
  map (fun x => PrimFloat.abs
                  (PrimFloat.div (PrimFloat.sub x (mean s)) (std s))) s.

(** The loop filling the [z_scores] dict. *)
Definition z_scores_loop (data : DataFrame) (features : list string)
  : result (list (string * list float)) :=
  for_each (fun feature z_scores =>
              s <- getitem data feature ;;
              v <- to_numeric s ;;
              Ok (assoc_set (feature ++ "_zscore") (zscore v) z_scores))
           features [].

(** [FraudAnalyzer.detect_anomalies].  With no feature the z-score frame
    has an empty index, and indexing a non-empty frame with its (empty)
    mask is an [IndexingError]. *)
Definition detect_anomalies (data : DataFrame) (features : list string)
  (threshold : float) : result DataFrame :=
  z_scores <- z_scores_loop data features ;;
  match z_scores with
  | [] =>
      if Nat.eqb (nrows data) 0 then Ok (getitem_mask data [])
      else Raise IndexingError
  | _ =>
      Ok (getitem_mask data
            (any_axis1 (nrows data)
               (map (fun c => map (fun z => gt z threshold) (snd c))
                    z_scores)))
  end.

End F64.

(* ================================================================= *)
(** ** Vocabulary and examples of the binary64 statements *)

Module Spec64.
Import Pd Spec.

(** The float64 values of a numeric column. *)
Definition values_of (df : DataFrame) (name : string) : list float :=
  match lookup name (columns df) with
  | Some s => match F64.to_numeric s with Ok v => v | Raise _ => [] end
  | None => []
  end.

(** The absolute z-score of a value [x] of a column [v], as the code
    computes it. *)
Definition abs_zscore (v : list float) (x : float) : float :=
  PrimFloat.abs (PrimFloat.div (PrimFloat.sub x (F64.mean v)) (F64.std v)).

(** Row [i] exceeds the threshold [t] on the feature with values [v]. *)
Definition exceeds (v : list float) (t : float) (i : nat) : Prop :=
  exists x, nth_error v i = Some x /\ F64.gt (abs_zscore v x) t = true.

(** Row [i] is anomalous: it exceeds the threshold on some listed
    feature. *)
Definition anomalous (data : DataFrame) (features : list string) (t : float)
  (i : nat) : Prop :=
  exists f, In f features /\ exceeds (values_of data f) t i.

(** Entry [(i, j)] of a matrix. *)
Definition entry (M : F64.Matrix) (i j : nat) : float :=
  nth j (nth i (F64.entries M) []) PrimFloat.nan.

(** The sum of squared deviations of a column from its mean, as
    [nancorr] accumulates it over the finite values. *)
Definition ssqdm (v : list float) : float :=
  F64.ssqdm_x (F64.welford F64.no_moments v v).

(** Three transactions of the same amount, 0.1. *)
Definition amounts_constant : DataFrame :=
  mkDataFrame 3
    [ ("transaction_id", nums [1; 2; 3]);
      ("amount", nums [1 # 10; 1 # 10; 1 # 10]) ].

(** Three transactions of tiny, evenly spaced amounts: 1e-170, 2e-170
    and 3e-170. *)
Definition tiny : Q := 1 # (10 ^ 170).

Definition amounts_tiny : DataFrame :=
  mkDataFrame 3
    [ ("transaction_id", nums [1; 2; 3]);
      ("amount", nums [tiny; 2 * tiny; 3 * tiny]) ].

(** Three customers with small, distinct values of one risk factor:
    1e-90, 2e-90 and 3e-90. *)
Definition small : Q := 1 # (10 ^ 90).

Definition factor_small : DataFrame :=
  mkDataFrame 3
    [ ("customer_id", nums [1; 2; 3]);
      ("t", nums [small; 2 * small; 3 * small]) ].

(** Forty loans of one region, 23 of them in default. *)
Definition credit_forty : DataFrame :=
  mkDataFrame 40
    [ ("region", repeat (Str "north") 40);
      ("default", nums (repeat 1 23 ++ repeat 0 17));
      ("credit_score", nums (repeat 640 40));
      ("loan_amount", nums (repeat 1500 40)) ].

(** Twenty-six merchant categories, [a] to [z], with one transaction
    each; thirteen of them are frauds. *)
Definition merchants_mixed : DataFrame :=
  mkDataFrame 26
    [ ("merchant_category",
       map Str ["a"; "b"; "c"; "d"; "e"; "f"; "g"; "h"; "i"; "j"; "k"; "l";
                "m"; "n"; "o"; "p"; "q"; "r"; "s"; "t"; "u"; "v"; "w"; "x";
                "y"; "z"]);
      ("transaction_id",
       nums (map (fun i => inject_Z (Z.of_nat i)) (seq 1 26)));
      ("is_fraud",
       nums [1; 0; 0; 1; 0; 1; 1; 0; 1; 0; 0; 1; 1;
             0; 1; 0; 0; 1; 0; 1; 1; 0; 0; 1; 0; 1]) ].

End Spec64.

(* ================================================================= *)
(** ** Basic facts about the pandas model *)

Module PdFacts.
Import Pd Spec.

Lemma Qltb_lt (x y : Q) : Qltb x y = true <-> x < y.
Proof.
  unfold Qltb. rewrite negb_true_iff, <- not_true_iff_false, Qle_bool_iff.
  split; [apply Qnot_le_lt | apply Qlt_not_le].
Qed.

Lemma Qltb_ge (x y : Q) : Qltb x y = false <-> y <= x.
Proof.
  unfold Qltb. rewrite negb_false_iff. apply Qle_bool_iff.
Qed.

Lemma mean_nan_iff (l : list float64) : mean l = NaN <-> dropna l = [].
Proof.
  unfold mean. destruct (dropna l); split; intro H; try reflexivity; discriminate.
Qed.

Lemma to_numeric_cons (c : cell) (s : Series) (v : list float64) :
  to_numeric (c :: s) = Ok v ->
  exists x v', v = x :: v' /\ cell_float c = Ok x /\ to_numeric s = Ok v'.
Proof.
  unfold to_numeric; simpl. destruct (cell_float c) as [x|e]; simpl; [|discriminate].
  destruct (map_result cell_float s) as [v'|e]; simpl; [|discriminate].
  intro H; inversion H; subst. eauto.
Qed.

Lemma to_numeric_length (s : Series) : forall v,
  to_numeric s = Ok v -> List.length v = List.length s.
Proof.
  induction s as [|c s IH]; intros v H.
  - inversion H; reflexivity.
  - apply to_numeric_cons in H. destruct H as (x & v' & -> & _ & Hs).
    simpl. f_equal. auto.
Qed.

Lemma to_numeric_nth (s : Series) : forall v i,
  to_numeric s = Ok v -> (i < List.length s)%nat ->
  cell_float (nth i s NA) = Ok (nth i v NaN).
Proof.
  induction s as [|c s IH]; intros v i H Hi; simpl in Hi; [lia|].
  apply to_numeric_cons in H. destruct H as (x & v' & -> & Hc & Hs).
  destruct i; simpl; [assumption|]. apply IH; [assumption|lia].
Qed.

(** A numeric column has no present value exactly when its float view has
    none. *)
Lemma all_missing_dropna (s : Series) : forall v,
  to_numeric s = Ok v -> (all_missing s = true <-> dropna v = []).
Proof.
  induction s as [|c s IH]; intros v H.
  - inversion H; simpl; tauto.
  - apply to_numeric_cons in H. destruct H as (x & v' & -> & Hc & Hs).
    specialize (IH _ Hs).
    destruct c; simpl in Hc; inversion Hc; subst; simpl.
    + split; discriminate.
    + assumption.
Qed.

Lemma to_numeric_of_float (v : list float64) :
  to_numeric (map of_float v) = Ok v.
Proof.
  induction v as [|x v IH]; [reflexivity|].
  unfold to_numeric in *; simpl. rewrite IH.
  destruct x; reflexivity.
Qed.

Lemma dropna_bools (m : list bool) :
  dropna (map float_of_bool m) = map (fun b : bool => if b then 1 else 0) m.
Proof.
  induction m as [|b m IH]; simpl; [reflexivity|]. now rewrite IH.
Qed.

Lemma mean_bool_nan_iff (m : list bool) : mean_bool m = NaN <-> m = [].
Proof.
  unfold mean_bool. rewrite mean_nan_iff, dropna_bools.
  destruct m; simpl; split; intro H; try reflexivity; discriminate.
Qed.

Lemma Qsum_zeros (m : list bool) :
  forallb negb m = true -> Qsum (map (fun b : bool => if b then 1 else 0) m) == 0.
Proof.
  induction m as [|b m IH]; simpl; intro H; [reflexivity|].
  apply andb_true_iff in H. destruct H as [Hb Hm].
  destruct b; [discriminate|]. rewrite (IH Hm). reflexivity.
Qed.

Lemma mean_bool_all_false (m : list bool) :
  m <> [] -> forallb negb m = true -> feq (mean_bool m) (Fin 0).
Proof.
  intros Hne Hall. unfold mean_bool, mean. rewrite dropna_bools.
  destruct m as [|b m]; [contradiction|].
  change (feq (Fin (Qmean (map (fun b : bool => if b then 1 else 0) (b :: m)))) (Fin 0)).
  unfold feq, Qmean. rewrite (Qsum_zeros _ Hall).
  unfold Qdiv. apply Qmult_0_l.
Qed.

Lemma lt_scalar_all_nan (v : list float64) (c : Q) :
  dropna v = [] -> forallb negb (lt_scalar v c) = true.
Proof.
  induction v as [|x v IH]; simpl; intro H; [reflexivity|].
  destruct x; [discriminate|]. simpl. auto.
Qed.

End PdFacts.

(* ================================================================= *)
(** ** Credit risk metrics *)

Module CreditFacts.
Import Pd Spec PdFacts CreditAnalyzer.

(** On numeric columns [calculate_risk_metrics] returns its three
    statistics, computed as in the source. *)
Lemma calculate_risk_metrics_ok (data : DataFrame) (d c : Series)
  (dv cv : list float64) :
  lookup "default" (columns data) = Some d ->
  lookup "credit_score" (columns data) = Some c ->
  to_numeric d = Ok dv -> to_numeric c = Ok cv ->
  calculate_risk_metrics data =
    Ok [ ("default_rate", mean dv);
         ("avg_credit_score", mean cv);
         ("high_risk_proportion", mean_bool (lt_scalar cv 600)) ].
Proof.
  intros Hd Hc Hdv Hcv. unfold calculate_risk_metrics, getitem.
  rewrite Hd; simpl. rewrite Hdv; simpl. rewrite Hc; simpl. rewrite Hcv; simpl.
  reflexivity.
Qed.

(** C6.  On the credit scenario (scores 550, 620, 700, 590, 800 and
    defaults 1, 0, 0, 1, 0) [calculate_risk_metrics] returns
    [default_rate = 0.4], [avg_credit_score = 652] and
    [high_risk_proportion = 0.4]; the last one is the mean of the mask
    [credit_score < 600], which is strict and holds of the two rows 550
    and 590. *)
Theorem calculate_risk_metrics_scenario :
  (exists dr ac hr,
      calculate_risk_metrics credit_scenario =
        Ok [ ("default_rate", Fin dr);
             ("avg_credit_score", Fin ac);
             ("high_risk_proportion", Fin hr) ]
      /\ dr == 0.4 /\ ac == 652 /\ hr == 0.4)
  /\ lt_scalar (values_of credit_scenario "credit_score") 600
     = [true; false; false; true; false]
  /\ (forall q, Qltb q 600 = true <-> q < 600).
Proof.
  split; [|split].
  - eexists _, _, _. split; [vm_compute; reflexivity|].
    split; [|split]; vm_compute; reflexivity.
  - vm_compute. reflexivity.
  - intro q. apply Qltb_lt.
Qed.



(** The rows of a well-formed frame without rows are empty columns, so
    all three statistics are NaN on an empty credit frame. *)
Lemma calculate_risk_metrics_empty (data : DataFrame) (d c : Series) :
  well_formed data = true -> nrows data = 0%nat ->
  lookup "default" (columns data) = Some d ->
  lookup "credit_score" (columns data) = Some c ->
  calculate_risk_metrics data =
    Ok [ ("default_rate", NaN);
         ("avg_credit_score", NaN);
         ("high_risk_proportion", NaN) ].
Proof.
  intros Hwf Hn Hd Hc.
  assert (Hnil : forall name s, lookup name (columns data) = Some s -> s = []).
  { unfold well_formed in Hwf. rewrite forallb_forall in Hwf.
    intros name s Hl. rewrite Hn in Hwf.
    assert (Hin : exists n, In (n, s) (columns data)).
    { clear -Hl. induction (columns data) as [|[n v] l IH]; simpl in Hl; [discriminate|].
      destruct (String.eqb n name); [inversion Hl; subst; eexists; left; reflexivity|].
      destruct (IH Hl) as [n' Hn']. exists n'. now right. }
    destruct Hin as [n Hin]. apply Hwf in Hin. simpl in Hin.
    apply Nat.eqb_eq in Hin. now destruct s. }
  pose proof (Hnil _ _ Hd) as Ed. pose proof (Hnil _ _ Hc) as Ec. subst d c.
  unfold calculate_risk_metrics, getitem. rewrite Hd, Hc. reflexivity.
Qed.


End CreditFacts.

(* ================================================================= *)
(** ** Transaction velocity *)

Module VelocityFacts.
Import Pd Spec PdFacts FraudAnalyzer.

(** The mask [amount > t] holds exactly of the rows whose amount is
    present and strictly greater than [t]. *)
Lemma gt_scalar_nth (v : list float64) (t : Q) (i : nat) :
  nth i (gt_scalar v (Fin t)) false = true <->
  exists q, nth_error v i = Some (Fin q) /\ t < q.
Proof.
  revert i. induction v as [|x v IH]; intro i.
  - destruct i; simpl; split; try discriminate; intros (q & H & _); discriminate.
  - destruct i; simpl.
    + destruct x as [q|].
      * rewrite Qltb_lt. split.
        -- intro H. exists q. auto.
        -- intros (q' & H & Hlt). inversion H; subst. assumption.
      * split; [discriminate|]. intros (q & H & _). discriminate.
    + apply IH.
Qed.

(** With a threshold that Python takes for true, the grouping runs on
    the frame filtered by [amount > threshold]. *)
Lemma calculate_velocity_metrics_filters (data : DataFrame)
  (time_window : positive) (t : float64) :
  float_bool t = true ->
  calculate_velocity_metrics data time_window (Some t) =
    (transactions <- filter_amount data t ;;
     velocity_groupby transactions time_window).
Proof.
  intro H. unfold calculate_velocity_metrics. simpl. rewrite H. reflexivity.
Qed.

(** C10.  The guard [if amount_threshold:] is a truth test: a threshold
    of zero, in any representation, is false like [None], so the call
    returns what the call without threshold returns, which is the
    grouping of the whole frame, whatever the amounts of its rows. *)
Theorem zero_threshold_is_no_threshold (data : DataFrame)
  (time_window : positive) (d : positive) :
  truthy (Some (Fin (0 # d))) = truthy None
  /\ calculate_velocity_metrics data time_window (Some (Fin (0 # d)))
     = calculate_velocity_metrics data time_window None
  /\ calculate_velocity_metrics data time_window None
     = velocity_groupby data time_window.
Proof.
  split; [reflexivity|]. split; reflexivity.
Qed.

(** C10 on the four transactions of the scenario: with threshold 0 the
    rows of amount -3 and 0 are counted. *)
Example zero_threshold_scenario :
  exists out,
    calculate_velocity_metrics tx_scenario hour_ns (Some (Fin 0)) = Ok out
    /\ calculate_velocity_metrics tx_scenario hour_ns None = Ok out
    /\ velocity_counts out =
         [ ((KStr "a", 0%Z), 2%nat);
           ((KStr "a", 3600000000000%Z), 1%nat);
           ((KStr "b", 3600000000000%Z), 1%nat) ].
Proof.
  eexists. split; [vm_compute; reflexivity|]. split; vm_compute; reflexivity.
Qed.

(** C1, at the threshold 0.  The threshold is supplied and is not
    [None], yet the code groups all four rows: customer "a" has two
    transactions in the first hour (amounts 5 and -3) and customer "b"
    has one (amount 0).  Grouping the rows with [amount > 0], as the
    claim has it, leaves the amounts 5 and 7 and gives other counts. *)
Theorem velocity_zero_threshold_not_filtered :
  (exists out,
      calculate_velocity_metrics tx_scenario hour_ns (Some (Fin 0)) = Ok out
      /\ velocity_counts out =
           [ ((KStr "a", 0%Z), 2%nat);
             ((KStr "a", 3600000000000%Z), 1%nat);
             ((KStr "b", 3600000000000%Z), 1%nat) ])
  /\ (exists kept out',
         filter_amount tx_scenario (Fin 0) = Ok kept
         /\ lookup "amount" (columns kept) = Some (nums [5; 7])
         /\ velocity_groupby kept hour_ns = Ok out'
         /\ velocity_counts out' =
              [ ((KStr "a", 0%Z), 1%nat);
                ((KStr "a", 3600000000000%Z), 1%nat) ]).
Proof.
  split.
  - eexists. split; vm_compute; reflexivity.
  - eexists _, _. split; [vm_compute; reflexivity|].
    split; [vm_compute; reflexivity|]. split; vm_compute; reflexivity.
Qed.

End VelocityFacts.

(* ================================================================= *)
(** ** Boolean indexing keeps rows, columns and order *)

Module MaskFacts.
Import Pd Spec PdFacts.

Lemma rows_of_S (cols : list (string * Series)) (n : nat) :
  rows_of cols (S n) =
    map (fun c => (fst c, nth 0 (snd c) NA)) cols :: rows_of (tails cols) n.
Proof.
  unfold rows_of. simpl. f_equal. rewrite <- seq_shift, map_map.
  apply map_ext. intro i. unfold tails. rewrite map_map.
  apply map_ext. intros [name s]. simpl. destruct s; [destruct i|]; reflexivity.
Qed.

Lemma masked_tails (b : bool) (m : list bool) (cols : list (string * Series)) :
  Forall (fun c => List.length (snd c) = S (List.length m)) cols ->
  map (fun c => (fst c, take_mask m (snd c))) (tails cols)
  = if b then tails (map (fun c => (fst c, take_mask (b :: m) (snd c))) cols)
    else map (fun c => (fst c, take_mask (b :: m) (snd c))) cols.
Proof.
  intro H. induction H as [|[name s] cols Hs _ IH]; [destruct b; reflexivity|].
  simpl in Hs. destruct s as [|x s]; [discriminate|].
  destruct b; simpl in *; rewrite <- IH; reflexivity.
Qed.

Lemma rows_of_masked (m : list bool) : forall cols,
  Forall (fun c => List.length (snd c) = List.length m) cols ->
  rows_of (map (fun c => (fst c, take_mask m (snd c))) cols) (count_true m)
  = take_mask m (rows_of cols (List.length m)).
Proof.
  induction m as [|b m IH]; intros cols H; [reflexivity|].
  assert (Ht : Forall (fun c => List.length (snd c) = List.length m) (tails cols)).
  { unfold tails. rewrite Forall_map. eapply Forall_impl; [|exact H].
    intros [name s] Hs. simpl in *. destruct s; simpl in *; [discriminate|lia]. }
  change (List.length (b :: m)) with (S (List.length m)).
  rewrite rows_of_S. specialize (IH _ Ht). rewrite (masked_tails b) in IH by exact H.
  destruct b.
  - change (count_true (true :: m)) with (S (count_true m)).
    cbv beta iota in IH. rewrite rows_of_S, IH. cbn [take_mask]. f_equal.
    rewrite map_map. apply map_ext_in. intros [name s] Hin.
    rewrite Forall_forall in H. apply H in Hin. simpl in *.
    destruct s; [discriminate|reflexivity].
  - exact IH.
Qed.

(** The rows of [df[mask]] are the rows of [df] under a True of the
    mask, in the order of [df]. *)
Lemma iterrows_getitem_mask (df : DataFrame) (m : list bool) :
  well_formed df = true -> List.length m = nrows df ->
  iterrows (getitem_mask df m) = take_mask m (iterrows df).
Proof.
  intros Hwf Hm. unfold iterrows, row_at, getitem_mask. simpl.
  rewrite <- Hm. apply (rows_of_masked m).
  unfold well_formed in Hwf. rewrite forallb_forall in Hwf.
  apply Forall_forall. intros c Hc. apply Hwf in Hc.
  apply Nat.eqb_eq in Hc. lia.
Qed.

Lemma getitem_mask_names (df : DataFrame) (m : list bool) :
  map fst (columns (getitem_mask df m)) = map fst (columns df).
Proof.
  unfold getitem_mask. simpl. rewrite map_map. reflexivity.
Qed.

(** Masking twice is masking once. *)
Lemma take_mask_refine {A : Type} (m1 m2 : list bool) : forall l : list A,
  List.length m1 = List.length m2 ->
  (forall i, nth i m2 false = true -> nth i m1 false = true) ->
  take_mask m2 l = take_mask (take_mask m1 m2) (take_mask m1 l).
Proof.
  revert m2. induction m1 as [|b1 m1 IH]; intros m2 l Hlen Hsub.
  - destruct m2; [reflexivity|discriminate].
  - destruct m2 as [|b2 m2]; [discriminate|].
    assert (Hsub' : forall i, nth i m2 false = true -> nth i m1 false = true)
      by (intro i; apply (Hsub (S i))).
    assert (Hlen' : List.length m1 = List.length m2) by (simpl in Hlen; lia).
    destruct l as [|x l].
    + simpl. destruct b1, b2; simpl; try reflexivity;
        destruct (take_mask m1 m2); reflexivity.
    + destruct b2.
      * assert (b1 = true) by (apply (Hsub 0%nat); reflexivity). subst b1.
        simpl. f_equal. now apply IH.
      * destruct b1; simpl; now apply IH.
Qed.

Lemma count_true_refine (m1 m2 : list bool) :
  List.length m1 = List.length m2 ->
  (forall i, nth i m2 false = true -> nth i m1 false = true) ->
  count_true (take_mask m1 m2) = count_true m2.
Proof.
  revert m2. induction m1 as [|b1 m1 IH]; intros m2 Hlen Hsub.
  - destruct m2; [reflexivity|discriminate].
  - destruct m2 as [|b2 m2]; [discriminate|].
    assert (Hsub' : forall i, nth i m2 false = true -> nth i m1 false = true)
      by (intro i; apply (Hsub (S i))).
    assert (Hlen' : List.length m1 = List.length m2) by (simpl in Hlen; lia).
    specialize (IH _ Hlen' Hsub'). unfold count_true in *.
    destruct b2.
    + assert (b1 = true) by (apply (Hsub 0%nat); reflexivity). subst b1.
      simpl. now rewrite IH.
    + destruct b1; simpl; exact IH.
Qed.

Lemma getitem_mask_refine (df : DataFrame) (m1 m2 : list bool) :
  List.length m1 = List.length m2 ->
  (forall i, nth i m2 false = true -> nth i m1 false = true) ->
  getitem_mask df m2 = getitem_mask (getitem_mask df m1) (take_mask m1 m2).
Proof.
  intros Hlen Hsub. unfold getitem_mask. simpl.
  rewrite (count_true_refine m1 m2 Hlen Hsub). f_equal.
  rewrite map_map. apply map_ext. intros [name s]. simpl.
  f_equal. now apply take_mask_refine.
Qed.

End MaskFacts.

(* ================================================================= *)
(** ** Anomaly detection *)

Module AnomalyFacts.
Import Pd Spec PdFacts MaskFacts FraudAnalyzer.

(** *** Sums of squares *)

Lemma Qsquare_nonneg (a : Q) : 0 <= a * a.
Proof. destruct a as [n d]. unfold Qle, Qmult. simpl. nia. Qed.

Lemma Qsum_cons (x : Q) (l : list Q) : Qsum (x :: l) = x + Qsum l.
Proof. reflexivity. Qed.

Lemma Qsum_squares_nonneg (m : Q) (l : list Q) :
  0 <= Qsum (map (fun x => (x - m) * (x - m)) l).
Proof.
  induction l as [|x l IH]; [apply Qle_refl|].
  cbn [map]. rewrite Qsum_cons.
  pose proof (Qsquare_nonneg (x - m)). Lqa.lra.
Qed.

Lemma Qsum_squares_zero (m : Q) (l : list Q) :
  Qsum (map (fun x => (x - m) * (x - m)) l) == 0 ->
  forall x, In x l -> x - m == 0.
Proof.
  induction l as [|y l IH]; intros H x Hin; [contradiction|].
  cbn [map] in H. rewrite Qsum_cons in H.
  pose proof (Qsum_squares_nonneg m l) as Hl.
  pose proof (Qsquare_nonneg (y - m)) as Hy.
  destruct Hin as [->|Hin].
  - assert (Hz : (x - m) * (x - m) == 0) by Lqa.lra.
    apply Qmult_integral in Hz. tauto.
  - apply IH; [Lqa.lra|assumption].
Qed.

Lemma Qlen_pos_pred (l : list Q) : (2 <= List.length l)%nat -> 0 < Qlen l - 1.
Proof.
  intro H. unfold Qlen.
  assert (Hz : (2 <= Z.of_nat (List.length l))%Z) by lia.
  assert (inject_Z 2 <= inject_Z (Z.of_nat (List.length l)))
    by (rewrite <- Zle_Qle; exact Hz).
  change (inject_Z 2) with 2 in H0. Lqa.lra.
Qed.

Lemma variance_nonneg (l : list Q) :
  (2 <= List.length l)%nat -> 0 <= Qssq l / (Qlen l - 1).
Proof.
  intro H. apply Qle_shift_div_l; [now apply Qlen_pos_pred|].
  rewrite Qmult_0_l. apply Qsum_squares_nonneg.
Qed.

(** A sample standard deviation of zero leaves no deviation from the
    mean. *)
Lemma sample_std_zero (l : list Q) :
  (2 <= List.length l)%nat -> sample_std l = 0%R ->
  forall x, In x l -> x - Qmean l == 0.
Proof.
  intros Hn Hs x Hin. unfold sample_std in Hs.
  apply sqrt_eq_0 in Hs.
  - rewrite <- RMicromega.Q2R_0 in Hs. apply eqR_Qeq in Hs.
    apply (Qsum_squares_zero (Qmean l) l); [|assumption].
    pose proof (Qlen_pos_pred l Hn) as Hp.
    fold (Qssq l).
    assert (Hd : Qssq l == Qssq l / (Qlen l - 1) * (Qlen l - 1))
      by (field; Lqa.lra).
    rewrite Hd, Hs. apply Qmult_0_l.
  - rewrite <- RMicromega.Q2R_0. apply Qle_Rle. now apply variance_nonneg.
Qed.

Lemma sample_std_nonneg (l : list Q) : (0 <= sample_std l)%R.
Proof. apply sqrt_pos. Qed.

(** *** The z-score dictionary *)

Lemma string_length_append (a b : string) :
  String.length (a ++ b) = (String.length a + String.length b)%nat.
Proof. induction a as [|c a IH]; simpl; [reflexivity|now rewrite IH]. Qed.

Lemma string_append_cancel_r (a b s : string) : a ++ s = b ++ s -> a = b.
Proof.
  revert b. induction a as [|c a IH]; intros [|d b] H; simpl in H.
  - reflexivity.
  - apply (f_equal String.length) in H. simpl in H.
    rewrite string_length_append in H. lia.
  - apply (f_equal String.length) in H. simpl in H.
    rewrite string_length_append in H. lia.
  - inversion H; subst. f_equal. now apply IH.
Qed.

Lemma assoc_set_in_inv {V : Type} (k0 : string) (v0 : V) (l : list (string * V)) :
  forall p, In p (assoc_set k0 v0 l) -> p = (k0, v0) \/ In p l.
Proof.
  induction l as [|[n w] l IH]; simpl; intros p H.
  - destruct H as [<-|[]]. now left.
  - destruct (String.eqb n k0) eqn:E.
    + apply String.eqb_eq in E. subst n. destruct H as [<-|H]; auto.
    + destruct H as [<-|H]; auto. destruct (IH _ H); auto.
Qed.

Lemma assoc_set_in_new {V : Type} (k0 : string) (v0 : V) (l : list (string * V)) :
  In (k0, v0) (assoc_set k0 v0 l).
Proof.
  induction l as [|[n w] l IH]; simpl; [now left|].
  destruct (String.eqb n k0) eqn:E.
  - apply String.eqb_eq in E. subst n. now left.
  - now right.
Qed.

Lemma assoc_set_in_old {V : Type} (k0 : string) (v0 : V) (l : list (string * V)) :
  forall k v, In (k, v) l -> k <> k0 -> In (k, v) (assoc_set k0 v0 l).
Proof.
  induction l as [|[n w] l IH]; simpl; intros k v H Hne; [contradiction|].
  destruct (String.eqb n k0) eqn:E.
  - apply String.eqb_eq in E. subst n. destruct H as [H|H]; [|now right].
    inversion H; subst. contradiction.
  - destruct H as [H|H]; [now left|right; now apply IH].
Qed.

Lemma assoc_set_not_nil {V : Type} (k0 : string) (v0 : V) (l : list (string * V)) :
  assoc_set k0 v0 l <> [].
Proof.
  destruct l as [|[n w] l]; simpl; [discriminate|].
  destruct (String.eqb n k0); discriminate.
Qed.

Lemma numeric_column_values (data : DataFrame) (f : string) :
  numeric_column data f = true ->
  exists s, lookup f (columns data) = Some s
            /\ to_numeric s = Ok (values_of data f).
Proof.
  unfold numeric_column, values_of.
  destruct (lookup f (columns data)) as [s|]; [|discriminate].
  destruct (to_numeric s) eqn:E; [|discriminate]. intros _. exists s. split; [reflexivity|exact E].
Qed.

(** One turn of the loop on a numeric feature. *)
Lemma z_scores_step (data : DataFrame) (f : string)
  (acc : list (string * list rfloat)) :
  numeric_column data f = true ->
  (s <- getitem data f ;;
   v <- to_numeric s ;;
   Ok (assoc_set (f ++ "_zscore") (zscore v) acc))
  = Ok (assoc_set (f ++ "_zscore") (zscore (values_of data f)) acc).
Proof.
  intro H. destruct (numeric_column_values _ _ H) as (s & Hs & Hv).
  unfold getitem. rewrite Hs. simpl. rewrite Hv. reflexivity.
Qed.

(** *** One cell of a z-score column *)

Lemma fdiv_nan_l (d : rfloat) : fdiv NaN d = RNaN.
Proof. destruct d; reflexivity. Qed.

Lemma zscore_nth (v : list float64) (i : nat) :
  nth i (zscore v) RNaN
  = fabs (fdiv (match nth i v NaN, mean v with
                | Fin q, Fin m => Fin (q - m)
                | _, _ => NaN
                end) (std v)).
Proof.
  unfold zscore, div_scalar, sub_scalar.
  rewrite (map_nth fabs _ RNaN i). f_equal.
  rewrite <- (fdiv_nan_l (std v)) at 1.
  rewrite (map_nth (fun x => fdiv x (std v)) _ NaN i). f_equal.
  exact (map_nth (fun x => match x, mean v with
                           | Fin q, Fin m => Fin (q - m)
                           | _, _ => NaN
                           end) v NaN i).
Qed.

Lemma dropna_in (v : list float64) (x : Q) : In (Fin x) v -> In x (dropna v).
Proof.
  induction v as [|y v IH]; simpl; [tauto|].
  intros [->|H]; [now left|]. destruct y; [right|]; auto.
Qed.

Lemma std_defined (v : list float64) :
  (2 <= List.length (dropna v))%nat -> std v = RFin (sample_std (dropna v)).
Proof.
  intro H. unfold std, var.
  destruct (Nat.leb_spec (List.length (dropna v)) 1); [lia|reflexivity].
Qed.

Lemma std_undefined (v : list float64) :
  (List.length (dropna v) <= 1)%nat -> std v = RNaN.
Proof.
  intro H. unfold std, var.
  destruct (Nat.leb_spec (List.length (dropna v)) 1); [reflexivity|lia].
Qed.

(** In exact arithmetic the comparison of a z-score cell with the
    threshold is the condition [exceeds]: a missing value, fewer than
    two observations or a zero standard deviation give NaN, which
    compares False. *)
Lemma exceeds_iff (v : list float64) (t : Q) (i : nat) :
  fgt (nth i (zscore v) RNaN) (Fin t) = true <-> exceeds v t i.
Proof.
  rewrite zscore_nth. unfold exceeds.
  destruct (nth_error v i) as [[x|]|] eqn:Ei.
  - rewrite (nth_error_nth v i NaN Ei).
    assert (Hin : In x (dropna v))
      by (apply dropna_in; eapply nth_error_In; exact Ei).
    assert (Hm : mean v = Fin (Qmean (dropna v))).
    { unfold mean. destruct (dropna v); [contradiction|reflexivity]. }
    rewrite Hm.
    destruct (le_lt_dec (List.length (dropna v)) 1) as [Hn|Hn].
    + rewrite (std_undefined v Hn). simpl. split; [discriminate|].
      intros (y & _ & Hy & _). lia.
    + rewrite (std_defined v Hn). unfold fdiv.
      destruct (Req_dec_T (sample_std (dropna v)) 0) as [Hs|Hs].
      * pose proof (sample_std_zero _ Hn Hs x Hin) as Hz.
        apply Qeq_alt in Hz. rewrite Hz. simpl. split; [discriminate|].
        intros (y & _ & _ & Hy & _). contradiction.
      * unfold fabs, fgt. rewrite Q2R_minus.
        destruct (Rlt_dec (Q2R t)
                    (Rabs ((Q2R x - Q2R (Qmean (dropna v)))
                           / sample_std (dropna v)))) as [Hlt|Hlt].
        -- split; [|reflexivity]. intros _. exists x. auto.
        -- split; [discriminate|]. intros (y & Hy & _ & _ & Hgt).
           inversion Hy; subst. contradiction.
  - rewrite (nth_error_nth v i NaN Ei). rewrite fdiv_nan_l. simpl.
    split; [discriminate|]. intros (y & Hy & _). discriminate.
  - apply nth_error_None in Ei. rewrite (nth_overflow v NaN Ei).
    rewrite fdiv_nan_l. simpl.
    split; [discriminate|]. intros (y & Hy & _). discriminate.
Qed.

Lemma lookup_in {V : Type} (name : string) (l : list (string * V)) (v : V) :
  lookup name l = Some v -> In (name, v) l.
Proof.
  induction l as [|[n w] l IH]; simpl; [discriminate|].
  destruct (String.eqb n name) eqn:E.
  - apply String.eqb_eq in E. intro H. inversion H; subst. now left.
  - intro H. right. auto.
Qed.

Lemma well_formed_lookup (df : DataFrame) (name : string) (s : Series) :
  well_formed df = true -> lookup name (columns df) = Some s ->
  List.length s = nrows df.
Proof.
  unfold well_formed. rewrite forallb_forall. intros Hwf Hl.
  apply lookup_in in Hl. apply Hwf in Hl. now apply Nat.eqb_eq in Hl.
Qed.

Lemma values_of_length (df : DataFrame) (f : string) :
  well_formed df = true -> numeric_column df f = true ->
  List.length (values_of df f) = nrows df.
Proof.
  intros Hwf Hf. destruct (numeric_column_values _ _ Hf) as (s & Hs & Hv).
  rewrite (to_numeric_length _ _ Hv). now apply well_formed_lookup with f.
Qed.

Lemma any_axis1_nth (n : nat) (cols : list (list bool)) (i : nat) :
  nth i (any_axis1 n cols) false = true <->
  (i < n)%nat /\ exists c, In c cols /\ nth i c false = true.
Proof.
  unfold any_axis1. destruct (Nat.lt_ge_cases i n) as [Hi|Hi].
  - rewrite (nth_indep _ false (existsb (fun c => nth 0 c false) cols))
      by (rewrite length_map, length_seq; exact Hi).
    rewrite (map_nth (fun i => existsb (fun c => nth i c false) cols)).
    rewrite seq_nth by exact Hi. simpl. rewrite existsb_exists. tauto.
  - rewrite nth_overflow by (rewrite length_map, length_seq; exact Hi).
    split; [discriminate|]. intros [H _]. lia.
Qed.


(** *** The returned rows *)

Lemma threshold_mask_nth (z : list (string * list rfloat)) (t : float64)
  (n i : nat) :
  nth i (any_axis1 n (map (fun c => map (fun x => fgt x t) (snd c)) z)) false
    = true
  <-> (i < n)%nat
      /\ exists zs, In zs (map snd z) /\ fgt (nth i zs RNaN) t = true.
Proof.
  rewrite any_axis1_nth. split; intros [Hi (c & Hc & Hnth)]; (split; [exact Hi|]).
  - apply in_map_iff in Hc. destruct Hc as (p & <- & Hp).
    exists (snd p). split; [now apply in_map|].
    rewrite <- Hnth. symmetry. exact (map_nth (fun x => fgt x t) (snd p) RNaN i).
  - apply in_map_iff in Hc. destruct Hc as (p & <- & Hp).
    exists (map (fun x => fgt x t) (snd p)). split.
    + apply in_map_iff. exists p. auto.
    + rewrite <- Hnth. exact (map_nth (fun x => fgt x t) (snd p) RNaN i).
Qed.

(** A feature that is not a column stops the call with a [KeyError]. *)
Lemma detect_anomalies_missing_feature (data : DataFrame) (f : string)
  (features : list string) (t : float64) :
  lookup f (columns data) = None ->
  detect_anomalies data (f :: features) t = Raise (KeyError f).
Proof.
  intro H. unfold detect_anomalies, z_scores_loop, getitem. simpl.
  rewrite H. reflexivity.
Qed.

(** *** Raising the threshold *)

Lemma fgt_antitone (x : rfloat) (t1 t2 : Q) :
  t1 < t2 -> fgt x (Fin t2) = true -> fgt x (Fin t1) = true.
Proof.
  intros Hlt. destruct x; simpl; auto.
  destruct (Rlt_dec (Q2R t2) r) as [H2|]; [|discriminate]. intros _.
  destruct (Rlt_dec (Q2R t1) r) as [|H1]; [reflexivity|].
  apply Qlt_Rlt in Hlt. lra.
Qed.

(** C4.  For thresholds [t1 < t2] the two calls fail alike or both
    return: then the result for [t1] is [data[m1]], the result for [t2]
    is [data[m2]], every row selected by [m2] is selected by [m1], and
    the result for [t2] is the result for [t1] with rows left out, order
    kept.  The embedding is a function of its inputs and does not touch
    the frame, so a second run returns the same. *)
Theorem detect_anomalies_monotone (data : DataFrame) (features : list string)
  (t1 t2 : Q) :
  t1 < t2 ->
  (forall t r r',
      detect_anomalies data features t = r ->
      detect_anomalies data features t = r' -> r = r')
  /\ match detect_anomalies data features (Fin t1),
           detect_anomalies data features (Fin t2) with
     | Ok r1, Ok r2 =>
         exists m1 m2,
           r1 = getitem_mask data m1
           /\ r2 = getitem_mask data m2
           /\ List.length m1 = List.length m2
           /\ (forall i, nth i m2 false = true -> nth i m1 false = true)
           /\ r2 = getitem_mask r1 (take_mask m1 m2)
     | Raise e1, Raise e2 => e1 = e2
     | _, _ => False
     end.
Proof.
  intro Hlt. split; [intros t r r' <- <-; reflexivity|].
  unfold detect_anomalies.
  destruct (z_scores_loop data features) as [z|e]; cbn [bind]; [|reflexivity].
  destruct z as [|p z].
  - destruct (Nat.eqb (nrows data) 0); [|reflexivity].
    exists [], []. repeat split; auto.
    now apply getitem_mask_refine.
  - set (zz := p :: z).
    set (m1 := any_axis1 (nrows data)
                 (map (fun c => map (fun x => fgt x (Fin t1)) (snd c)) zz)).
    set (m2 := any_axis1 (nrows data)
                 (map (fun c => map (fun x => fgt x (Fin t2)) (snd c)) zz)).
    assert (Hlen : List.length m1 = List.length m2)
      by (unfold m1, m2, any_axis1; now rewrite !length_map).
    assert (Hsub : forall i, nth i m2 false = true -> nth i m1 false = true).
    { intro i. unfold m1, m2. rewrite !threshold_mask_nth.
      intros [Hi (zs & Hzs & Hgt)]. split; [exact Hi|].
      exists zs. split; [exact Hzs|]. now apply fgt_antitone with t2. }
    exists m1, m2. repeat split; auto.
    now apply getitem_mask_refine.
Qed.

(** C4 on the scenario, thresholds 1 and 3. *)
Lemma detect_anomalies_monotone_witness :
  1 < 3
  /\ match detect_anomalies amounts_scenario ["amount"] (Fin 1),
           detect_anomalies amounts_scenario ["amount"] (Fin 3) with
     | Ok r1, Ok r2 =>
         exists m1 m2,
           r1 = getitem_mask amounts_scenario m1
           /\ r2 = getitem_mask amounts_scenario m2
           /\ List.length m1 = List.length m2
           /\ (forall i, nth i m2 false = true -> nth i m1 false = true)
           /\ r2 = getitem_mask r1 (take_mask m1 m2)
     | Raise e1, Raise e2 => e1 = e2
     | _, _ => False
     end.
Proof.
  split; [reflexivity|].
  apply (detect_anomalies_monotone amounts_scenario ["amount"] 1 3).
  reflexivity.
Defined.

End AnomalyFacts.


(* ================================================================= *)
(** ** Anomaly detection on five amounts *)

Module AnomalyExample.
Import Pd Spec PdFacts AnomalyFacts FraudAnalyzer.

(** The amounts 10, 10, 10, 10, 1000 have mean 208 and sample variance
    196020. *)
Lemma amounts_moments :
  values_of amounts_scenario "amount"
    = [Fin 10; Fin 10; Fin 10; Fin 10; Fin 1000]
  /\ Q2R (Qmean [10; 10; 10; 10; 1000]) = 208%R
  /\ sample_std [10; 10; 10; 10; 1000] = sqrt 196020.
Proof.
  split; [reflexivity|]. split.
  - replace 208%R with (Q2R 208) by (unfold Q2R; simpl; lra).
    apply Qeq_eqR. vm_compute. reflexivity.
  - unfold sample_std. f_equal.
    replace 196020%R with (Q2R 196020) by (unfold Q2R; simpl; lra).
    apply Qeq_eqR. vm_compute. reflexivity.
Qed.

Lemma sqrt_196020_bounds : (264 < sqrt 196020 < 792)%R.
Proof.
  assert (Hs : (sqrt 196020 * sqrt 196020 = 196020)%R)
    by (apply sqrt_sqrt; lra).
  pose proof (sqrt_pos 196020) as Hp. split; nra.
Qed.

(** The absolute z-score of the amount 1000 is [792 / sqrt 196020], about
    1.79, and that of the amount 10 is [198 / sqrt 196020], about 0.45:
    with five observations no z-score can reach 3. *)
Lemma amounts_exceeds (t : Q) (i : nat) :
  exceeds [Fin 10; Fin 10; Fin 10; Fin 10; Fin 1000] t i <->
  (i < 5)%nat
  /\ (Q2R t < (if Nat.eqb i 4 then 792 else 198) / sqrt 196020)%R.
Proof.
  destruct amounts_moments as (_ & Hm & Hs).
  pose proof sqrt_196020_bounds as [Hlo Hhi].
  unfold exceeds. cbn [dropna]. rewrite Hm, Hs.
  assert (Hx : forall x : Q, In x [10; 10; 10; 10; 1000] ->
            (Rabs ((Q2R x - 208) / sqrt 196020)
             = (if Qeq_bool x 1000 then 792 else 198) / sqrt 196020)%R).
  { intros x Hin.
    assert (Hcase : Q2R x = 10%R \/ Q2R x = 1000%R /\ Qeq_bool x 1000 = true).
    { simpl in Hin.
      destruct Hin as [<-|[<-|[<-|[<-|[<-|[]]]]]];
        unfold Q2R; simpl; [left|left|left|left|right; split]; try lra.
      reflexivity. }
    destruct Hcase as [E|[E Eb]].
    - assert (Eb : Qeq_bool x 1000 = false).
      { apply not_true_iff_false. intro Hb. apply Qeq_bool_iff in Hb.
        apply Qeq_eqR in Hb. rewrite E in Hb. unfold Q2R in Hb. simpl in Hb. lra. }
      rewrite Eb, E. replace ((10 - 208) / sqrt 196020)%R
        with (- (198 / sqrt 196020))%R by (field; lra).
      rewrite Rabs_Ropp. apply Rabs_pos_eq.
      apply Rlt_le. apply Rdiv_lt_0_compat; lra.
    - rewrite Eb, E. replace (1000 - 208)%R with 792%R by lra.
      apply Rabs_pos_eq. apply Rlt_le. apply Rdiv_lt_0_compat; lra. }
  split.
  - intros (x & Hnth & _ & _ & Hgt).
    assert (Hi : (i < List.length [Fin 10; Fin 10; Fin 10; Fin 10; Fin 1000])%nat)
      by (apply nth_error_Some; rewrite Hnth; discriminate).
    cbn [List.length] in Hi.
    split; [exact Hi|].
    do 5 (destruct i as [|i]; [simpl in Hnth; inversion Hnth; subst x;
                               rewrite Hx in Hgt by (simpl; tauto);
                               exact Hgt|]).
    lia.
  - intros [Hi Hgt].
    do 5 (destruct i as [|i];
          [eexists; split; [reflexivity|]; split; [simpl; lia|];
           split; [lra|]; rewrite Hx by (simpl; tauto); exact Hgt|]).
    lia.
Qed.

Lemma amounts_flag (t : Q) (i : nat) :
  fgt (nth i (zscore [Fin 10; Fin 10; Fin 10; Fin 10; Fin 1000]) RNaN) (Fin t)
  = true <->
  (i < 5)%nat
  /\ (Q2R t < (if Nat.eqb i 4 then 792 else 198) / sqrt 196020)%R.
Proof. rewrite exceeds_iff. apply amounts_exceeds. Qed.

(** On the five amounts, the threshold 1 returns the row of the amount
    1000 alone and the threshold 3 returns no row. *)
Example detect_anomalies_amounts :
  detect_anomalies amounts_scenario ["amount"] (Fin 1)
    = Ok (getitem_mask amounts_scenario [false; false; false; false; true])
  /\ detect_anomalies amounts_scenario ["amount"] (Fin 3)
     = Ok (getitem_mask amounts_scenario [false; false; false; false; false]).
Proof.
  pose proof sqrt_196020_bounds as [Hlo Hhi].
  assert (Hrun : forall t,
    detect_anomalies amounts_scenario ["amount"] (Fin t)
    = Ok (getitem_mask amounts_scenario
            (map (fun i =>
                    fgt (nth i (zscore [Fin 10; Fin 10; Fin 10; Fin 10; Fin 1000])
                             RNaN) (Fin t))
                 [0; 1; 2; 3; 4]%nat))).
  { intro t. unfold detect_anomalies, z_scores_loop. cbn [for_each].
    rewrite (z_scores_step amounts_scenario "amount" [] eq_refl).
    cbn [bind assoc_set]. f_equal. f_equal.
    change (values_of amounts_scenario "amount")
      with [Fin 10; Fin 10; Fin 10; Fin 10; Fin 1000].
    set (z := zscore [Fin 10; Fin 10; Fin 10; Fin 10; Fin 1000]).
    change [0; 1; 2; 3; 4]%nat with (seq 0 (nrows amounts_scenario)).
    unfold any_axis1. apply map_ext. intro i. cbn [map snd existsb].
    rewrite orb_false_r. exact (map_nth (fun x => fgt x (Fin t)) z RNaN i). }
  assert (Hyes : forall t i, (i < 5)%nat ->
            (Q2R t < (if Nat.eqb i 4 then 792 else 198) / sqrt 196020)%R ->
            fgt (nth i (zscore [Fin 10; Fin 10; Fin 10; Fin 10; Fin 1000]) RNaN)
                (Fin t) = true)
    by (intros t i Hi Hlt; apply amounts_flag; auto).
  assert (Hno : forall t i,
            ~ (Q2R t < (if Nat.eqb i 4 then 792 else 198) / sqrt 196020)%R ->
            fgt (nth i (zscore [Fin 10; Fin 10; Fin 10; Fin 10; Fin 1000]) RNaN)
                (Fin t) = false).
  { intros t i Hn. apply not_true_iff_false. intro H.
    apply amounts_flag in H. tauto. }
  assert (H1 : Q2R 1 = 1%R) by (unfold Q2R; simpl; lra).
  assert (H3 : Q2R 3 = 3%R) by (unfold Q2R; simpl; lra).
  assert (Hb : (792 / sqrt 196020 * sqrt 196020 = 792)%R) by (field; lra).
  assert (Hs : (198 / sqrt 196020 * sqrt 196020 = 198)%R) by (field; lra).
  assert (Hbig : (1 < 792 / sqrt 196020 <= 3)%R) by (split; nra).
  assert (Hsmall : (198 / sqrt 196020 < 1)%R) by nra.
  split; rewrite Hrun; cbn [map].
  - rewrite !Hno by (rewrite H1; simpl; lra).
    rewrite Hyes by (try lia; rewrite H1; simpl; lra). reflexivity.
  - rewrite !Hno by (rewrite H3; simpl; lra). reflexivity.
Qed.

End AnomalyExample.


(* ================================================================= *)
(** ** Deciding the z-score test on the rationals *)

Module ExactFacts.
Import Pd Spec PdFacts AnomalyFacts FraudAnalyzer.

Lemma Q2R_lt_iff (x y : Q) : x < y <-> (Q2R x < Q2R y)%R.
Proof. split; [apply Qlt_Rlt|apply Rlt_Qlt]. Qed.

(** For a positive variance the rational test is the real one. *)
Lemma zscore_gt_correct (d v t : Q) :
  0 < v ->
  (zscore_gt d v t = true
   <-> (Q2R t < Rabs (Q2R d / sqrt (Q2R v)))%R).
Proof.
  intro Hv. unfold zscore_gt.
  assert (Hv' : (0 < Q2R v)%R)
    by (rewrite <- RMicromega.Q2R_0; now apply Qlt_Rlt).
  pose proof (sqrt_lt_R0 _ Hv') as Hs.
  pose proof (sqrt_sqrt (Q2R v) (Rlt_le _ _ Hv')) as Hss.
  set (s := sqrt (Q2R v)) in *.
  assert (Habs : Rabs (Q2R d / s) = (Rabs (Q2R d) / s)%R).
  { unfold Rdiv. rewrite Rabs_mult, Rabs_inv, (Rabs_pos_eq s) by lra.
    reflexivity. }
  rewrite Habs.
  assert (Hq : (Rabs (Q2R d) / s * s = Rabs (Q2R d))%R) by (field; lra).
  pose proof (Rabs_pos (Q2R d)) as Hd.
  assert (Hd2 : (Rabs (Q2R d) * Rabs (Q2R d) = Q2R d * Q2R d)%R).
  { unfold Rabs. destruct (Rcase_abs (Q2R d)); lra. }
  assert (Hquot : (0 <= Rabs (Q2R d) / s)%R).
  { apply Rmult_le_pos; [exact Hd|]. apply Rlt_le. now apply Rinv_0_lt_compat. }
  rewrite andb_true_iff, orb_true_iff, !Qltb_lt, !Q2R_lt_iff.
  rewrite !Q2R_mult, RMicromega.Q2R_0.
  set (T := Q2R t) in *. set (D := Rabs (Q2R d)) in *. set (q := (D / s)%R) in *.
  rewrite <- Hd2, <- Hss.
  split.
  - intros [_ [Hneg|Hsq]]; [lra|].
    destruct (Rlt_le_dec T 0) as [|Hnn]; [lra|].
    destruct (Rlt_le_dec T q) as [|Hge]; [assumption|]. exfalso.
    assert (D <= T * s)%R by nra. nra.
  - intro Hlt. split; [nra|].
    destruct (Rlt_le_dec T 0) as [|Hnn]; [now left|]. right.
    assert (Hts : (T * s < D)%R) by nra.
    assert (H0 : (0 <= T * s)%R) by nra.
    assert (Hsq : ((T * s) * (T * s) < D * D)%R) by nra.
    replace (T * T * (s * s))%R with ((T * s) * (T * s))%R by ring.
    exact Hsq.
Qed.

Lemma variance_positive (v : list float64) (q : Q) :
  var v = Fin q ->
  (2 <= List.length (dropna v))%nat
  /\ q = Qssq (dropna v) / (Qlen (dropna v) - 1)
  /\ 0 <= q
  /\ std v = RFin (sqrt (Q2R q)).
Proof.
  intro H. unfold std. rewrite H. unfold var in H.
  destruct (Nat.leb_spec (List.length (dropna v)) 1) as [|Hn]; [discriminate|].
  inversion H; subst q. repeat split; [lia|].
  apply variance_nonneg. lia.
Qed.

(** One cell of the z-score column against the threshold, decided on the
    rationals. *)
Lemma zscore_flag_cell (v : list float64) (t x : float64) :
  In x v ->
  fgt (fabs (fdiv (match x, mean v with
                   | Fin q, Fin m => Fin (q - m)
                   | _, _ => NaN
                   end) (std v))) t
  = match x, mean v, var v, t with
    | Fin a, Fin m, Fin w, Fin th => zscore_gt (a - m) w th
    | _, _, _, _ => false
    end.
Proof.
  intro Hin. destruct x as [a|]; [|now rewrite fdiv_nan_l].
  assert (Ha : In a (dropna v)) by now apply dropna_in.
  assert (Hm : mean v = Fin (Qmean (dropna v))).
  { unfold mean. destruct (dropna v); [contradiction|reflexivity]. }
  rewrite Hm.
  destruct (var v) as [w|] eqn:Ew.
  - destruct (variance_positive v w Ew) as (Hn & Hw & Hnn & Hstd).
    rewrite Hstd. unfold fdiv.
    destruct (Req_dec_T (sqrt (Q2R w)) 0) as [Hz|Hnz].
    + assert (Hs0 : sample_std (dropna v) = 0%R)
        by (unfold sample_std; rewrite <- Hw; exact Hz).
      pose proof (sample_std_zero _ Hn Hs0 a Ha) as Hdev.
      apply Qeq_alt in Hdev. rewrite Hdev. cbn [fabs fgt].
      assert (Hw0 : w == 0).
      { apply sqrt_eq_0 in Hz.
        - apply eqR_Qeq. now rewrite RMicromega.Q2R_0.
        - rewrite <- RMicromega.Q2R_0. now apply Qle_Rle. }
      destruct t as [th|]; [|reflexivity].
      unfold zscore_gt. replace (Qltb 0 w) with false; [reflexivity|].
      symmetry. apply Qltb_ge. rewrite Hw0. apply Qle_refl.
    + assert (Hpos : 0 < w).
      { destruct (Qlt_le_dec 0 w) as [|Hle]; [assumption|].
        exfalso. apply Hnz.
        assert (Hw0 : w == 0) by Lqa.lra.
        rewrite (Qeq_eqR _ _ Hw0), RMicromega.Q2R_0. apply sqrt_0. }
      cbn [fabs]. destruct t as [th|]; [|reflexivity]. cbn [fgt].
      pose proof (zscore_gt_correct (a - Qmean (dropna v)) w th Hpos) as Hc.
      destruct (Rlt_dec (Q2R th)
                  (Rabs (Q2R (a - Qmean (dropna v)) / sqrt (Q2R w)))) as [Hlt|Hge].
      * symmetry. now apply Hc.
      * symmetry. apply not_true_iff_false. intro Hb. apply Hge. now apply Hc.
  - unfold std. rewrite Ew. reflexivity.
Qed.

Lemma zscore_flags_correct (v : list float64) (t : float64) :
  map (fun z => fgt z t) (zscore v) = zscore_flags v t.
Proof.
  unfold zscore, div_scalar, sub_scalar, zscore_flags. rewrite !map_map.
  apply map_ext_in. intros x Hx. now apply zscore_flag_cell.
Qed.

Lemma flags_of_assoc_set (t : float64) (k : string) (zs : list rfloat)
  (l : list (string * list rfloat)) :
  map (fun c => (fst c, map (fun z => fgt z t) (snd c))) (assoc_set k zs l)
  = assoc_set k (map (fun z => fgt z t) zs)
      (map (fun c => (fst c, map (fun z => fgt z t) (snd c))) l).
Proof.
  induction l as [|[n w] l IH]; simpl; [reflexivity|].
  destruct (String.eqb n k); simpl; [reflexivity|]. now rewrite IH.
Qed.

Lemma flags_loop (data : DataFrame) (t : float64) (features : list string) :
  forall acc,
    for_each (fun feature flags =>
                s <- getitem data feature ;;
                v <- to_numeric s ;;
                Ok (assoc_set (feature ++ "_zscore") (zscore_flags v t) flags))
             features
             (map (fun c => (fst c, map (fun z => fgt z t) (snd c))) acc)
    = (z <- for_each (fun feature z_scores =>
                        s <- getitem data feature ;;
                        v <- to_numeric s ;;
                        Ok (assoc_set (feature ++ "_zscore") (zscore v) z_scores))
                     features acc ;;
       Ok (map (fun c => (fst c, map (fun z => fgt z t) (snd c))) z)).
Proof.
  induction features as [|f features IH]; intro acc; [reflexivity|].
  cbn [for_each]. destruct (getitem data f) as [s|e]; [|reflexivity].
  cbn [bind]. destruct (to_numeric s) as [v|e]; [|reflexivity].
  cbn [bind]. rewrite <- IH, flags_of_assoc_set, zscore_flags_correct.
  reflexivity.
Qed.

(** The executable form is the function. *)
Lemma detect_anomalies_exact_correct (data : DataFrame)
  (features : list string) (t : float64) :
  detect_anomalies_exact data features t = detect_anomalies data features t.
Proof.
  unfold detect_anomalies_exact, detect_anomalies, z_scores_loop.
  pose proof (flags_loop data t features []) as H. cbn [map] in H.
  rewrite H. clear H.
  destruct (for_each _ features []) as [z|e]; [|reflexivity].
  cbn [bind]. destruct z as [|c z]; [reflexivity|].
  cbn [map]. do 2 f_equal. cbn [map snd]. f_equal.
  rewrite map_map. reflexivity.
Qed.

(** The five amounts at the thresholds 1 and 3, by computation. *)
Example detect_anomalies_exact_amounts :
  detect_anomalies_exact amounts_scenario ["amount"] (Fin 1)
    = Ok (mkDataFrame 1 [ ("transaction_id", nums [5]);
                          ("amount", nums [1000]) ])
  /\ detect_anomalies_exact amounts_scenario ["amount"] (Fin 3)
     = Ok (mkDataFrame 0 [ ("transaction_id", []); ("amount", []) ]).
Proof. split; vm_compute; reflexivity. Qed.

End ExactFacts.

(* ================================================================= *)
(** ** Correlation matrix *)

Module CorrFacts.
Import Pd Spec PdFacts AnomalyFacts CreditAnalyzer.

(** *** The matrix *)

Lemma corr_entry (cols : list (string * list float64)) (i j : nat) :
  entry (corr cols) i j =
    match nth_error cols i, nth_error cols j with
    | Some a, Some b => corr_pair (snd a) (snd b)
    | _, _ => RNaN
    end.
Proof.
  unfold entry, corr. cbn [entries].
  destruct (nth_error cols i) as [a|] eqn:Ei.
  - rewrite (nth_error_nth _ i [] (map_nth_error _ i cols Ei)).
    destruct (nth_error cols j) as [b|] eqn:Ej.
    + now rewrite (nth_error_nth _ j RNaN (map_nth_error _ j cols Ej)).
    + apply nth_overflow. rewrite length_map. now apply nth_error_None.
  - rewrite (nth_overflow (map _ cols) [])
      by (rewrite length_map; now apply nth_error_None).
    now destruct j.
Qed.

Lemma select_numeric (data : DataFrame) (features : list string) :
  forallb (numeric_column data) features = true ->
  exists selected,
    map_result (fun f => s <- getitem data f ;; Ok (f, s)) features = Ok selected
    /\ map_result (fun c : string * Series =>
                     v <- to_numeric (snd c) ;; Ok (fst c, v)) selected
       = Ok (map (fun f => (f, values_of data f)) features).
Proof.
  induction features as [|f features IH]; intro H.
  - exists []. split; reflexivity.
  - simpl in H. apply andb_true_iff in H. destruct H as [Hf Hrest].
    destruct (IH Hrest) as (sel & Hsel & Hnum).
    destruct (numeric_column_values _ _ Hf) as (s & Hs & Hv).
    exists ((f, s) :: sel). split.
    + cbn [map_result]. unfold getitem at 1. rewrite Hs. cbn [bind].
      rewrite Hsel. reflexivity.
    + cbn [map_result fst snd]. rewrite Hv. cbn [bind]. rewrite Hnum. reflexivity.
Qed.

End CorrFacts.

(* ================================================================= *)
(** ** Grouping *)

Module GroupFacts.
Import Pd Spec PdFacts.

(** *** The order of keys *)

Lemma ascii_compare_trans (a b c : ascii) :
  Ascii.compare a b = Lt -> Ascii.compare b c = Lt -> Ascii.compare a c = Lt.
Proof.
  unfold Ascii.compare. rewrite !N.compare_lt_iff. apply N.lt_trans.
Qed.

Lemma ascii_compare_refl (a : ascii) : Ascii.compare a a = Eq.
Proof. apply N.compare_refl. Qed.

Lemma string_compare_refl (s : string) : String.compare s s = Eq.
Proof.
  induction s as [|a s IH]; simpl; [reflexivity|].
  now rewrite ascii_compare_refl.
Qed.

Lemma string_compare_trans (a : string) : forall b c,
  String.compare a b = Lt -> String.compare b c = Lt -> String.compare a c = Lt.
Proof.
  induction a as [|x a IH]; intros [|y b] [|z c]; simpl; try discriminate; auto.
  destruct (Ascii.compare x y) eqn:Exy; try discriminate.
  - apply Ascii.compare_eq_iff in Exy. subst y.
    destruct (Ascii.compare x z); try discriminate; auto. apply IH.
  - destruct (Ascii.compare y z) eqn:Eyz; try discriminate.
    + apply Ascii.compare_eq_iff in Eyz. subst z. now rewrite Exy.
    + now rewrite (ascii_compare_trans x y z Exy Eyz).
Qed.

Lemma key_of_cell_canonical (c : cell) : canonical_opt (key_of_cell c).
Proof. destruct c; simpl; auto. apply Qcanon.Qred_involutive. Qed.

Lemma key_compare_refl (k : key) : key_compare k k = Eq.
Proof.
  destruct k; simpl.
  - now apply Qeq_alt.
  - apply string_compare_refl.
  - apply Z.compare_refl.
Qed.

Lemma key_compare_eq (a b : key) :
  canonical a -> canonical b -> key_compare a b = Eq -> a = b.
Proof.
  destruct a, b; simpl; try discriminate; intros Ha Hb H.
  - apply Qeq_alt in H. apply Qred_complete in H. congruence.
  - f_equal. now apply String.compare_eq_iff.
  - f_equal. now apply Z.compare_eq.
Qed.

Lemma key_compare_antisym (a b : key) :
  key_compare a b = CompOpp (key_compare b a).
Proof.
  destruct a, b; simpl; try reflexivity.
  - symmetry. apply Qcompare_antisym.
  - apply String.compare_antisym.
  - apply Z.compare_antisym.
Qed.

Lemma key_compare_trans (a b c : key) :
  key_compare a b = Lt -> key_compare b c = Lt -> key_compare a c = Lt.
Proof.
  destruct a, b, c; simpl; try discriminate; auto.
  - rewrite <- !Qlt_alt. apply Qlt_trans.
  - apply string_compare_trans.
  - rewrite !Z.compare_lt_iff. apply Z.lt_trans.
Qed.

(** *** Sorted distinct keys and group masks *)

Section Keys.
Context {K : Type}.
Variable cmp : K -> K -> comparison.
Variable good : K -> Prop.
Hypothesis cmp_eq : forall a b, good a -> good b -> cmp a b = Eq -> a = b.
Hypothesis cmp_refl : forall a, cmp a a = Eq.
Hypothesis cmp_antisym : forall a b, cmp a b = CompOpp (cmp b a).
Hypothesis cmp_trans :
  forall a b c, cmp a b = Lt -> cmp b c = Lt -> cmp a c = Lt.

Lemma insert_key_in_inv (k : K) (l : list K) :
  forall x, In x (insert_key cmp k l) -> x = k \/ In x l.
Proof.
  induction l as [|h t IH]; simpl; intros x H.
  - destruct H as [<-|[]]. now left.
  - destruct (cmp k h); simpl in H.
    + now right.
    + destruct H as [<-|H]; auto.
    + destruct H as [<-|H]; auto. destruct (IH _ H); auto.
Qed.

Lemma insert_key_in (k : K) (l : list K) :
  good k -> Forall good l ->
  forall x, In x (insert_key cmp k l) <-> x = k \/ In x l.
Proof.
  intros Hk Hl x. split; [apply insert_key_in_inv|].
  induction Hl as [|h t Hh Ht IH]; simpl.
  - intros [->|[]]. now left.
  - destruct (cmp k h) eqn:E.
    + apply (cmp_eq _ _ Hk Hh) in E. subst h. intros [->|H]; auto. now left.
    + simpl. intros [->|H]; auto.
    + simpl. intros [->|[->|H]]; auto.
Qed.

Lemma insert_key_good (k : K) (l : list K) :
  good k -> Forall good l -> Forall good (insert_key cmp k l).
Proof.
  intros Hk Hl. apply Forall_forall. intros x Hx.
  apply insert_key_in_inv in Hx. destruct Hx as [->|Hx]; [assumption|].
  rewrite Forall_forall in Hl. auto.
Qed.

Lemma insert_key_sorted (k : K) (l : list K) :
  StronglySorted (cmp_lt cmp) l ->
  StronglySorted (cmp_lt cmp) (insert_key cmp k l).
Proof.
  induction 1 as [|h t Ht IH Hh]; simpl.
  - constructor; constructor.
  - destruct (cmp k h) eqn:E.
    + now constructor.
    + constructor; [now constructor|]. constructor; [exact E|].
      eapply Forall_impl; [|exact Hh]. intros x Hx. now apply cmp_trans with h.
    + constructor; [exact IH|]. apply Forall_forall. intros x Hx.
      apply insert_key_in_inv in Hx. destruct Hx as [->|Hx].
      * unfold cmp_lt. rewrite cmp_antisym, E. reflexivity.
      * rewrite Forall_forall in Hh. auto.
Qed.

Lemma unique_sorted_good (ks : list (option K)) :
  Forall (holds_opt good) ks -> Forall good (unique_sorted cmp ks).
Proof.
  induction 1 as [|o ks Ho Hks IH]; simpl; [constructor|].
  destruct o; [|assumption]. now apply insert_key_good.
Qed.

Lemma unique_sorted_in (ks : list (option K)) :
  Forall (holds_opt good) ks ->
  forall k, In k (unique_sorted cmp ks) <-> In (Some k) ks.
Proof.
  induction 1 as [|o ks Ho Hks IH]; simpl; intro k; [tauto|].
  destruct o as [k'|].
  - rewrite insert_key_in by (auto using unique_sorted_good).
    rewrite IH. split; intros [H|H]; auto; left; congruence.
  - rewrite IH. split; [auto|]. intros [H|H]; [discriminate|assumption].
Qed.

Lemma unique_sorted_sorted (ks : list (option K)) :
  StronglySorted (cmp_lt cmp) (unique_sorted cmp ks).
Proof.
  induction ks as [|o ks IH]; simpl; [constructor|].
  destruct o; [|assumption]. now apply insert_key_sorted.
Qed.

Lemma group_mask_nth (ks : list (option K)) (k : K) (i : nat) :
  good k -> Forall (holds_opt good) ks ->
  (nth i (group_mask cmp ks k) false = true <-> nth_error ks i = Some (Some k)).
Proof.
  intros Hk Hks. revert i. induction Hks as [|o ks Ho Hks IH]; intro i.
  - destruct i; simpl; split; discriminate.
  - destruct i; simpl; [|apply IH].
    destruct o as [k'|]; [|split; discriminate].
    unfold cmp_eqb. destruct (cmp k' k) eqn:E.
    + apply (cmp_eq _ _ Ho Hk) in E. subst k'. tauto.
    + split; [discriminate|]. intro H. inversion H; subst.
      rewrite cmp_refl in E. discriminate.
    + split; [discriminate|]. intro H. inversion H; subst.
      rewrite cmp_refl in E. discriminate.
Qed.

Lemma group_mask_length (ks : list (option K)) (k : K) :
  List.length (group_mask cmp ks k) = List.length ks.
Proof. unfold group_mask. apply length_map. Qed.

End Keys.

(** *** Grouping a column *)

Lemma column_keys_canonical (s : Series) :
  Forall canonical_opt (map key_of_cell s).
Proof.
  apply Forall_forall. intros o Ho. apply in_map_iff in Ho.
  destruct Ho as (c & <- & _). apply key_of_cell_canonical.
Qed.

(** The groups of a column: one per distinct present value, in ascending
    order of the values, each with the mask of the rows that carry it. *)
Lemma groupby_column (s : Series) :
  StronglySorted (cmp_lt key_compare)
    (map fst (groupby key_compare (map key_of_cell s)))
  /\ (forall k, In k (map fst (groupby key_compare (map key_of_cell s)))
                <-> exists c, In c s /\ key_of_cell c = Some k)
  /\ (forall k m, In (k, m) (groupby key_compare (map key_of_cell s)) ->
        List.length m = List.length s
        /\ forall i, nth i m false = true
                     <-> exists c, nth_error s i = Some c
                                   /\ key_of_cell c = Some k).
Proof.
  pose proof (column_keys_canonical s) as Hc.
  assert (Hfst : map fst (groupby key_compare (map key_of_cell s))
                 = unique_sorted key_compare (map key_of_cell s)).
  { unfold groupby. rewrite map_map. apply map_id. }
  rewrite Hfst. split; [|split].
  - apply unique_sorted_sorted.
    + exact key_compare_antisym.
    + exact key_compare_trans.
  - intro k. rewrite (unique_sorted_in key_compare canonical key_compare_eq key_compare_refl _ Hc).
    rewrite in_map_iff. split; intros (c & H1 & H2); exists c; auto.
  - intros k m Hin. unfold groupby in Hin. apply in_map_iff in Hin.
    destruct Hin as (k' & Heq & Hk'). inversion Heq; subst k' m. clear Heq.
    split; [now rewrite group_mask_length, length_map|].
    assert (Hk : canonical k).
    { pose proof (unique_sorted_good key_compare canonical _ Hc) as Hg.
      rewrite Forall_forall in Hg. now apply Hg. }
    intro i.
    rewrite (group_mask_nth key_compare canonical key_compare_eq
               key_compare_refl _ k i Hk Hc).
    rewrite nth_error_map. split.
    + destruct (nth_error s i) as [c|]; simpl; [|discriminate].
      intro H. inversion H. eauto.
    + intros (c & -> & Hkc). simpl. now rewrite Hkc.
Qed.

(** Strictly ascending keys are pairwise distinct. *)
Lemma sorted_keys_nodup (l : list key) :
  StronglySorted (cmp_lt key_compare) l -> NoDup l.
Proof.
  induction 1 as [|h t Ht IH Hh]; constructor; [|assumption].
  intro Hin. rewrite Forall_forall in Hh. specialize (Hh _ Hin).
  unfold cmp_lt in Hh. rewrite key_compare_refl in Hh. discriminate.
Qed.

End GroupFacts.

(* ================================================================= *)
(** ** Segment analysis *)

Module SegmentFacts.
Import Pd Spec PdFacts AnomalyFacts GroupFacts CreditAnalyzer.

(** The two segment rows of the example: means 0.5, 625.5 and 1000.5 in
    the north (the mean score rounds half to even, to 625.5 exactly),
    and the single southern row. *)
Example segment_analysis_regions :
  segment_analysis credit_segments "region"
  = Ok [ (KStr "north",
          [ ("default", Fin (50 # 100));
            ("credit_score", Fin (62550 # 100));
            ("loan_amount", Fin (100050 # 100)) ]);
         (KStr "south",
          [ ("default", Fin (0 # 100));
            ("credit_score", Fin (62000 # 100));
            ("loan_amount", Fin (250000 # 100)) ]) ].
Proof. vm_compute. reflexivity. Qed.

End SegmentFacts.

(* ================================================================= *)
(** ** Sorting by a float column *)

Module SortFacts.
Import Pd Spec PdFacts GroupFacts.

(** *** Two sorts that keep numpy's promise *)

Section InsertionSorts.
Variable before : Q -> Q -> bool.
Hypothesis before_true : forall x y, before x y = true -> x <= y.
Hypothesis before_false : forall x y, before x y = false -> y <= x.

Lemma insert_by_perm (v : list Q) (i : nat) (l : list nat) :
  Permutation (insert_by before v i l) (i :: l).
Proof.
  induction l as [|j t IH]; simpl; [reflexivity|].
  destruct (before (nth i v 0) (nth j v 0)); [reflexivity|].
  rewrite IH. apply perm_swap.
Qed.

Lemma insert_by_sorted (v : list Q) (i : nat) (l : list nat) :
  StronglySorted (fun a b => nth a v 0 <= nth b v 0) l ->
  StronglySorted (fun a b => nth a v 0 <= nth b v 0) (insert_by before v i l).
Proof.
  induction 1 as [|j t Ht IH Hj]; simpl.
  - constructor; constructor.
  - destruct (before (nth i v 0) (nth j v 0)) eqn:E.
    + apply before_true in E. constructor; [now constructor|].
      constructor; [exact E|].
      eapply Forall_impl; [|exact Hj]. intros a Ha. cbv beta in *.
      now apply Qle_trans with (nth j v 0).
    + apply before_false in E. constructor; [exact IH|].
      apply Forall_forall. intros a Ha.
      apply (Permutation_in _ (insert_by_perm v i t)) in Ha.
      destruct Ha as [<-|Ha]; [exact E|].
      rewrite Forall_forall in Hj. now apply Hj.
Qed.

Lemma argsort_by_valid : argsort_valid (argsort_by before).
Proof.
  intro v. unfold argsort_by. generalize (seq 0 (List.length v)) as s.
  induction s as [|i s [IHp IHs]]; simpl.
  - split; constructor.
  - split.
    + rewrite insert_by_perm. now constructor.
    + now apply insert_by_sorted.
Qed.

End InsertionSorts.

Lemma argsort_stable_valid : argsort_valid argsort_stable.
Proof.
  apply argsort_by_valid.
  - intros x y. apply Qle_bool_iff.
  - intros x y H. apply Qlt_le_weak. apply Qnot_le_lt.
    intro Hle. apply Qle_bool_iff in Hle. congruence.
Qed.

Lemma argsort_reversing_valid : argsort_valid argsort_reversing.
Proof.
  apply argsort_by_valid.
  - intros x y H. apply Qlt_le_weak. now apply Qltb_lt.
  - intros x y. apply Qltb_ge.
Qed.

(** *** Taking rows by position *)

Lemma take_indices_shift {A : Type} (l2 : list A) : forall l1,
  take_indices (seq (List.length l1) (List.length l2)) (l1 ++ l2)%list = l2.
Proof.
  induction l2 as [|x l2 IH]; intro l1; [reflexivity|].
  cbn [List.length seq]. unfold take_indices. cbn [flat_map].
  rewrite nth_error_app2, Nat.sub_diag by lia. cbn [nth_error app].
  f_equal. specialize (IH (l1 ++ [x])%list).
  rewrite length_app, Nat.add_1_r, <- app_assoc in IH. exact IH.
Qed.

Lemma take_indices_all {A : Type} (l : list A) :
  take_indices (seq 0 (List.length l)) l = l.
Proof. exact (take_indices_shift l []). Qed.

Lemma take_indices_perm {A : Type} (l : list A) (idx idx' : list nat) :
  Permutation idx idx' ->
  Permutation (take_indices idx l) (take_indices idx' l).
Proof.
  unfold take_indices. induction 1 as [| i a b _ IH | i j a | a b c _ IH1 _ IH2].
  - constructor.
  - cbn [flat_map]. now apply Permutation_app_head.
  - cbn [flat_map]. rewrite !app_assoc. apply Permutation_app_tail.
    apply Permutation_app_comm.
  - now transitivity (flat_map (fun i => match nth_error l i with
                                          | Some x => [x]
                                          | None => []
                                          end) b).
Qed.

Lemma take_indices_map {A : Type} (d : A) (l : list A) (idx : list nat) :
  Forall (fun i => (i < List.length l)%nat) idx ->
  take_indices idx l = map (fun i => nth i l d) idx.
Proof.
  unfold take_indices. induction 1 as [|i idx Hi _ IH]; [reflexivity|].
  cbn [flat_map map]. rewrite IH.
  destruct (nth_error l i) as [x|] eqn:E.
  - now rewrite (nth_error_nth l i d E).
  - apply nth_error_None in E. lia.
Qed.

Lemma take_indices_nil {A : Type} (idx : list nat) :
  take_indices idx (@nil A) = [].
Proof.
  unfold take_indices. induction idx as [|i idx IH]; [reflexivity|].
  cbn [flat_map]. rewrite IH. now destruct i.
Qed.

(** *** Sortedness under [map], [rev] and a change of relation *)

Lemma StronglySorted_map {A B : Type} (R : B -> B -> Prop) (f : A -> B)
  (l : list A) :
  StronglySorted (fun a b => R (f a) (f b)) l -> StronglySorted R (map f l).
Proof.
  induction 1 as [|a l Hl IH Ha]; simpl; constructor; [assumption|].
  now apply Forall_map.
Qed.

Lemma StronglySorted_snoc {A : Type} (R : A -> A -> Prop) (l : list A) (x : A) :
  StronglySorted R l -> Forall (fun a => R a x) l ->
  StronglySorted R (l ++ [x])%list.
Proof.
  induction 1 as [|a l Hl IH Ha]; simpl; intro Hx.
  - constructor; constructor.
  - inversion Hx; subst. constructor; [auto|].
    apply Forall_app. split; [assumption|]. now constructor.
Qed.

Lemma StronglySorted_rev {A : Type} (R : A -> A -> Prop) (l : list A) :
  StronglySorted R l -> StronglySorted (fun a b => R b a) (rev l).
Proof.
  induction 1 as [|a l Hl IH Ha]; simpl; [constructor|].
  apply StronglySorted_snoc; [assumption|]. now apply Forall_rev.
Qed.

Lemma StronglySorted_impl_in {A : Type} (R R' : A -> A -> Prop) (l : list A) :
  (forall a b, In a l -> In b l -> R a b -> R' a b) ->
  StronglySorted R l -> StronglySorted R' l.
Proof.
  intros Himp H. induction H as [|a l Hl IH Ha]; [constructor|].
  constructor.
  - apply IH. intros x y Hx Hy. apply Himp; now right.
  - rewrite Forall_forall in *. intros x Hx.
    apply Himp; [now left|now right|auto].
Qed.

(** *** [sort_values] *)

Lemma take_mask_none {A : Type} (m : list bool) : forall l : list A,
  Forall (fun b => b = false) m -> take_mask m l = [].
Proof.
  induction m as [|b m IH]; intros l H; [reflexivity|].
  inversion H; subst. destruct l; [reflexivity|]. simpl. auto.
Qed.

Lemma take_mask_every {A : Type} (m : list bool) : forall l : list A,
  Forall (fun b => b = true) m -> List.length m = List.length l ->
  take_mask m l = l.
Proof.
  induction m as [|b m IH]; intros l H Hlen.
  - destruct l; [reflexivity|discriminate].
  - inversion H; subst. destruct l; [discriminate|].
    simpl. f_equal. apply IH; [assumption|]. simpl in Hlen. lia.
Qed.

Lemma dropna_fin (items : list float64) :
  Forall (fun x => is_nan x = false) items ->
  items = map Fin (dropna items).
Proof.
  induction 1 as [|x items Hx _ IH]; [reflexivity|].
  destruct x; [|discriminate]. simpl. now rewrite <- IH.
Qed.

(** Without NaN among the values, and with a sort that keeps numpy's
    promise, the sorted rows are a rearrangement of the rows and their
    values never increase. *)
Lemma sort_values_desc_spec {A : Type} (argsort : list Q -> list nat)
  (by_ : A -> float64) (l : list A) :
  argsort_valid argsort ->
  Forall (fun a => is_nan (by_ a) = false) l ->
  Permutation (sort_values_desc argsort by_ l) l
  /\ StronglySorted (fun a b => match by_ a, by_ b with
                                | Fin x, Fin y => y <= x
                                | _, _ => False
                                end)
       (sort_values_desc argsort by_ l).
Proof.
  intros Hsort Hfin.
  destruct l as [|d l0].
  { unfold sort_values_desc. rewrite take_indices_nil. split; constructor. }
  remember (d :: l0) as l eqn:El. clear El l0.
  set (items := map by_ l). set (n := List.length l).
  assert (Hitems : Forall (fun x => is_nan x = false) items)
    by (unfold items; now apply Forall_map).
  set (vals := dropna items).
  assert (Hvals : items = map Fin vals) by now apply dropna_fin.
  assert (Hn : List.length vals = n).
  { unfold n. rewrite <- (length_map Fin vals), <- Hvals.
    unfold items. apply length_map. }
  destruct (Hsort (rev vals)) as [Hperm Hsorted].
  rewrite length_rev, Hn in Hperm.
  set (p := argsort (rev vals)) in *.
  assert (Hidx : nargsort_desc argsort items
                 = rev (take_indices p (rev (seq 0 n)))).
  { unfold nargsort_desc. fold vals. fold p.
    assert (Hl : List.length items = n) by (unfold items; apply length_map).
    rewrite Hl, (take_mask_none (map is_nan items)), app_nil_r.
    - rewrite take_mask_every; [reflexivity| |now rewrite length_map, length_seq].
      apply Forall_map. eapply Forall_impl; [|exact Hitems].
      intros x Hx. cbv beta. now rewrite Hx.
    - now apply Forall_map. }
  assert (Hq : Permutation (take_indices p (rev (seq 0 n))) (seq 0 n)).
  { rewrite (take_indices_perm _ _ _ Hperm).
    rewrite <- (length_seq n 0) at 1. rewrite <- length_rev.
    rewrite take_indices_all. symmetry. apply Permutation_rev. }
  unfold sort_values_desc. fold items. rewrite Hidx. split.
  - rewrite <- (take_indices_all l) at 2. fold n.
    apply take_indices_perm. rewrite <- Permutation_rev. exact Hq.
  - assert (Hlt : Forall (fun i => (i < n)%nat) p).
    { apply Forall_forall. intros i Hi.
      apply (Permutation_in _ Hperm) in Hi. apply in_seq in Hi. lia. }
    assert (Hpq : take_indices p (rev (seq 0 n))
                  = map (fun i => (n - S i)%nat) p).
    { rewrite (take_indices_map 0%nat)
        by (now rewrite length_rev, length_seq).
      apply map_ext_in. intros i Hi. rewrite Forall_forall in Hlt.
      specialize (Hlt _ Hi). rewrite rev_nth by (now rewrite length_seq).
      rewrite length_seq, seq_nth by lia. reflexivity. }
    rewrite Hpq, <- map_rev.
    rewrite (take_indices_map d).
    2:{ apply Forall_map, Forall_rev. eapply Forall_impl; [|exact Hlt].
        intros i Hi. cbv beta in *. fold n. lia. }
    rewrite map_map. apply StronglySorted_map.
    apply (StronglySorted_rev (fun i j => nth i (rev vals) 0 <= nth j (rev vals) 0))
      in Hsorted.
    apply (StronglySorted_impl_in _ _ _) with (2 := Hsorted).
    intros i j Hi Hj Hle.
    apply in_rev in Hi, Hj. rewrite Forall_forall in Hlt.
    pose proof (Hlt _ Hi) as Hi'. pose proof (Hlt _ Hj) as Hj'.
    assert (Hby : forall k, (k < n)%nat ->
                            by_ (nth (n - S k) l d) = Fin (nth k (rev vals) 0)).
    { intros k Hk. rewrite rev_nth by lia. rewrite Hn.
      rewrite <- (map_nth by_ l d). fold items. rewrite Hvals.
      rewrite (nth_indep _ (by_ d) (Fin 0)) by (rewrite length_map; lia).
      apply (map_nth Fin). }
    rewrite (Hby i Hi'), (Hby j Hj'). exact Hle.
Qed.

End SortFacts.

(* ================================================================= *)
(** ** High-risk merchants *)

Module MerchantFacts.
Import Pd Spec PdFacts AnomalyFacts GroupFacts SortFacts FraudAnalyzer.

Lemma fge_iff (x : float64) (t : Q) :
  fge x (Fin t) = true <-> exists a, x = Fin a /\ t <= a.
Proof.
  destruct x as [a|]; simpl.
  - rewrite Qle_bool_iff. split; [eauto|]. intros (b & H & Hb). now inversion H.
  - split; [discriminate|]. intros (b & H & _). discriminate.
Qed.

(** Both bounds of the filter are inclusive. *)
Lemma qualifies_iff (min_transactions : Z) (t : Q) (r : key * (nat * float64)) :
  qualifies min_transactions (Fin t) r = true <->
  (min_transactions <= Z.of_nat (transaction_count r))%Z
  /\ exists x, fraud_rate r = Fin x /\ t <= x.
Proof.
  unfold qualifies, fraud_rate. now rewrite andb_true_iff, Z.leb_le, fge_iff.
Qed.

(** Filtering the rows of a keyed frame keeps the keys distinct. *)
Lemma filter_keeps_keys_distinct {V : Type} (keep : key * V -> bool)
  (rows : list (key * V)) :
  NoDup (map fst rows) -> NoDup (map fst (filter keep rows)).
Proof.
  intro Hnd. induction rows as [|r rows IH]; [constructor|].
  cbn [map] in Hnd. apply NoDup_cons_iff in Hnd. destruct Hnd as [Hfresh Hnd].
  cbn [filter]. destruct (keep r); [|now apply IH].
  cbn [map]. apply NoDup_cons_iff. split; [|now apply IH].
  intro Hin. apply Hfresh. apply in_map_iff in Hin.
  destruct Hin as (r' & Hkey & Hr'). apply filter_In in Hr'.
  rewrite <- Hkey. apply in_map. tauto.
Qed.

(** The grouped frame: one row per merchant category, categories
    ascending, with the count of [transaction_id] and the mean of
    [is_fraud] over the rows of the category. *)
Lemma merchant_risk_spec (data : DataFrame) (cat tid : Series) :
  lookup "merchant_category" (columns data) = Some cat ->
  lookup "transaction_id" (columns data) = Some tid ->
  numeric_column data "is_fraud" = true ->
  exists mr,
    merchant_risk data = Ok mr
    /\ StronglySorted (cmp_lt key_compare) (map fst mr)
    /\ (forall g, In g (map fst mr)
                  <-> exists c, In c cat /\ key_of_cell c = Some g)
    /\ (forall g n r, In (g, (n, r)) mr ->
          exists m,
            List.length m = List.length cat
            /\ (forall i, nth i m false = true
                          <-> exists c, nth_error cat i = Some c
                                        /\ key_of_cell c = Some g)
            /\ n = count (take_mask m tid)
            /\ r = mean (take_mask m (values_of data "is_fraud"))).
Proof.
  intros Hcat Htid Hfr.
  destruct (numeric_column_values _ _ Hfr) as (fr & Hfr1 & Hfr2).
  destruct (groupby_column cat) as (Hsorted & Hkeys & Hmasks).
  eexists. split.
  - unfold merchant_risk, getitem. rewrite Hcat, Htid, Hfr1. cbn [bind].
    rewrite Hfr2. cbn [bind]. reflexivity.
  - rewrite map_map. cbn [fst].
    change (map (fun x : key * list bool => fst x)
              (groupby key_compare (map key_of_cell cat)))
      with (map fst (groupby key_compare (map key_of_cell cat))).
    split; [exact Hsorted|]. split; [exact Hkeys|].
    intros g n r Hin. apply in_map_iff in Hin.
    destruct Hin as ([g' m] & Heq & Hin). cbn [fst snd] in Heq.
    inversion Heq; subst g' n r. clear Heq.
    destruct (Hmasks g m Hin) as [Hlen Hnth]. exists m. auto.
Qed.


(** On the two tied categories of four transactions numpy's quicksort
    sorts by insertion, and "A" comes before "B". *)
Example high_risk_merchants_two_ties :
  get_high_risk_merchants Np.argsort merchants_tied 2 (Fin 0.1)
  = Ok [ (KStr "A", (2%nat, Fin (1 # 2)));
         (KStr "B", (2%nat, Fin (1 # 2))) ].
Proof. vm_compute. reflexivity. Qed.

(** With the stable sort the same call lists "A" before "B". *)
Example high_risk_merchants_stable_order :
  get_high_risk_merchants argsort_stable merchants_tied 2 (Fin 0.1)
  = Ok [ (KStr "A", (2%nat, Fin (1 # 2)));
         (KStr "B", (2%nat, Fin (1 # 2))) ].
Proof. vm_compute. reflexivity. Qed.



End MerchantFacts.

(* ================================================================= *)
(** ** Numeric cleaning *)

Module CleanFacts.
Import Pd Spec PdFacts AnomalyFacts DataLoader.

(** *** Reading and writing columns *)

Lemma lookup_assoc_set_eq {V : Type} (k : string) (v : V) (l : list (string * V)) :
  lookup k (assoc_set k v l) = Some v.
Proof.
  induction l as [|[n w] l IH]; simpl.
  - now rewrite String.eqb_refl.
  - destruct (String.eqb n k) eqn:E; simpl; rewrite E; [reflexivity|exact IH].
Qed.

Lemma lookup_assoc_set_neq {V : Type} (k k' : string) (v : V)
  (l : list (string * V)) :
  k' <> k -> lookup k' (assoc_set k v l) = lookup k' l.
Proof.
  intro Hne. induction l as [|[n w] l IH]; simpl.
  - apply String.eqb_neq in Hne. rewrite String.eqb_sym. now rewrite Hne.
  - destruct (String.eqb n k) eqn:E; simpl.
    + apply String.eqb_eq in E. subst n.
      assert (E' : String.eqb k k' = false)
        by (apply String.eqb_neq; congruence).
      now rewrite E'.
    + destruct (String.eqb n k'); [reflexivity|exact IH].
Qed.

Lemma assoc_set_names {V : Type} (k : string) (v w : V) (l : list (string * V)) :
  lookup k l = Some w -> map fst (assoc_set k v l) = map fst l.
Proof.
  induction l as [|[n u] l IH]; simpl; [discriminate|].
  destruct (String.eqb n k) eqn:E; simpl; [reflexivity|].
  intro H. f_equal. auto.
Qed.

Lemma assoc_set_twice {V : Type} (k : string) (v w : V) (l : list (string * V)) :
  assoc_set k w (assoc_set k v l) = assoc_set k w l.
Proof.
  induction l as [|[n u] l IH]; simpl.
  - now rewrite String.eqb_refl.
  - destruct (String.eqb n k) eqn:E; simpl; rewrite E; [reflexivity|].
    now rewrite IH.
Qed.

Lemma of_float_cell (c : cell) (x : float64) :
  cell_float c = Ok x -> of_float x = c.
Proof. destruct c; simpl; intro H; inversion H; reflexivity. Qed.

Lemma of_float_values (s : Series) : forall v,
  to_numeric s = Ok v -> map of_float v = s.
Proof.
  induction s as [|c s IH]; intros v H.
  - inversion H. reflexivity.
  - apply to_numeric_cons in H. destruct H as (x & v' & -> & Hc & Hs).
    simpl. f_equal; [now apply of_float_cell|auto].
Qed.

Lemma values_of_setitem (df : DataFrame) (col : string) (v : list float64) :
  values_of (setitem df col (map of_float v)) col = v.
Proof.
  unfold values_of, setitem. cbn [columns].
  now rewrite lookup_assoc_set_eq, to_numeric_of_float.
Qed.

Lemma has_column_true (df : DataFrame) (c : string) :
  has_column df c = true <-> exists s, lookup c (columns df) = Some s.
Proof.
  unfold has_column. destruct (lookup c (columns df)) as [s|].
  - split; [eauto|reflexivity].
  - split; [discriminate|]. intros (s & H). discriminate.
Qed.

(** *** One turn of the loop *)

Lemma fillna_length (v : list float64) (m : float64) :
  List.length (fillna v m) = List.length v.
Proof. destruct m; simpl; [apply length_map|reflexivity]. Qed.

Lemma clip_upper_length (v : list float64) (u : float64) :
  List.length (clip_upper v u) = List.length v.
Proof. destruct u; simpl; [apply length_map|reflexivity]. Qed.

Lemma cleaned_length (v : list float64) : List.length (cleaned v) = List.length v.
Proof. unfold cleaned. now rewrite clip_upper_length, fillna_length. Qed.

(** On a numeric column of the frame, the turn writes the cleaned column
    back in place. *)
Lemma clean_column_ok (df : DataFrame) (col : string) :
  numeric_column df col = true ->
  clean_column col df
  = Ok (setitem df col (map of_float (cleaned (values_of df col)))).
Proof.
  intro H. destruct (numeric_column_values _ _ H) as (s & Hs & Hv).
  unfold clean_column, getitem. rewrite Hs. cbn [bind]. rewrite Hv. cbn [bind].
  set (v := values_of df col).
  unfold setitem at 1 2 3 4. cbn [columns]. rewrite lookup_assoc_set_eq.
  cbn [bind]. rewrite to_numeric_of_float. cbn [bind].
  unfold setitem. cbn [nrows columns]. rewrite assoc_set_twice. reflexivity.
Qed.

(** The cleaned column, cell by cell: a missing cell takes the median (if
    there is one), a present cell is kept; then a cell above the 99th
    percentile of the filled column takes that percentile and a cell at
    or below it is unchanged. *)
Lemma fillna_nth (v : list float64) (i : nat) (x : float64) :
  nth_error v i = Some x ->
  nth_error (fillna v (median v)) i
  = Some (match x, median v with
          | NaN, Fin m => Fin m
          | _, _ => x
          end).
Proof.
  intro H. unfold fillna. destruct (median v) as [m|].
  - rewrite nth_error_map, H. destruct x; reflexivity.
  - rewrite H. destruct x; reflexivity.
Qed.

Lemma clip_upper_nth (v : list float64) (u : float64) (i : nat) (y : float64) :
  nth_error v i = Some y ->
  nth_error (clip_upper v u) i
  = Some (match y, u with
          | Fin q, Fin p => if Qltb p q then Fin p else Fin q
          | _, _ => y
          end).
Proof.
  intro H. unfold clip_upper. destruct u as [p|].
  - rewrite nth_error_map, H. destruct y; reflexivity.
  - rewrite H. destruct y; reflexivity.
Qed.

(** *** The loop *)

Lemma count_occ_head (a c : string) (rest : list string) :
  count_occ string_dec (a :: rest) c
  = if String.eqb a c then S (count_occ string_dec rest c)
    else count_occ string_dec rest c.
Proof.
  simpl. destruct (string_dec a c) as [->|Hne].
  - now rewrite String.eqb_refl.
  - apply String.eqb_neq in Hne. now rewrite Hne.
Qed.

Lemma clean_numeric_loop (names : list string) : forall df,
  listed_numeric df names = true ->
  exists df',
    clean_numeric df names = Ok df'
    /\ nrows df' = nrows df
    /\ map fst (columns df') = map fst (columns df)
    /\ forall c,
         lookup c (columns df')
         = match lookup c (columns df) with
           | None => None
           | Some s =>
               match count_occ string_dec names c with
               | O => Some s
               | S k => Some (map of_float
                                (Nat.iter (S k) cleaned (values_of df c)))
               end
           end.
Proof.
  induction names as [|a rest IH]; intros df Hnum.
  - exists df. repeat split. intro c. now destruct (lookup c (columns df)).
  - unfold listed_numeric in Hnum. cbn [forallb] in Hnum.
    apply andb_true_iff in Hnum. destruct Hnum as [Ha Hrest].
    unfold clean_numeric. cbn [for_each].
    destruct (has_column df a) eqn:Hhas.
    + simpl in Ha. rewrite (clean_column_ok df a Ha). cbn [bind].
      set (df1 := setitem df a (map of_float (cleaned (values_of df a)))).
      destruct (proj1 (has_column_true df a) Hhas) as (sa & Hsa).
      assert (Hsame : forall c, c <> a ->
                lookup c (columns df1) = lookup c (columns df)).
      { intros c Hc. unfold df1, setitem. cbn [columns].
        now apply lookup_assoc_set_neq. }
      assert (Hnum1 : listed_numeric df1 rest = true).
      { unfold listed_numeric in *. rewrite forallb_forall in *.
        intros c Hc. destruct (string_dec c a) as [->|Hne].
        - unfold has_column, numeric_column, df1, setitem. cbn [columns].
          rewrite lookup_assoc_set_eq, to_numeric_of_float. reflexivity.
        - specialize (Hrest c Hc). unfold has_column, numeric_column in *.
          now rewrite (Hsame c Hne). }
      destruct (IH df1 Hnum1) as (df' & Hrun & Hrows & Hnames & Hcols).
      exists df'. split; [exact Hrun|]. split; [exact Hrows|].
      split.
      { rewrite Hnames. unfold df1, setitem. cbn [columns].
        now apply assoc_set_names with sa. }
      intro c. rewrite Hcols, count_occ_head.
      destruct (String.eqb a c) eqn:Eac.
      * apply String.eqb_eq in Eac. subst c. rewrite Hsa.
        unfold df1 at 1. unfold setitem. cbn [columns].
        rewrite lookup_assoc_set_eq.
        unfold df1. rewrite values_of_setitem.
        destruct (count_occ string_dec rest a) as [|k]; [reflexivity|].
        now rewrite <- Nat.iter_succ_r.
      * apply String.eqb_neq in Eac.
        assert (Hca : c <> a) by congruence.
        rewrite (Hsame c Hca).
        destruct (lookup c (columns df)) as [s|] eqn:Hs; [|reflexivity].
        replace (values_of df1 c) with (values_of df c); [reflexivity|].
        unfold values_of. now rewrite (Hsame c Hca).
    + destruct (IH df Hrest) as (df' & Hrun & Hrows & Hnames & Hcols).
      exists df'. split; [exact Hrun|]. split; [exact Hrows|].
      split; [exact Hnames|].
      intro c. rewrite Hcols, count_occ_head.
      destruct (String.eqb a c) eqn:Eac; [|reflexivity].
      apply String.eqb_eq in Eac. subst c.
      unfold has_column in Hhas.
      destruct (lookup a (columns df)); [discriminate|reflexivity].
Qed.



(** The cleaned amounts of the example: the missing amount becomes the
    median 25 and the amount 1000 becomes the percentile 961.2. *)
Example clean_numeric_amounts :
  clean_numeric amounts_dirty ["amount"; "fee"]
  = Ok (mkDataFrame 5
          [ ("transaction_id", nums [1; 2; 3; 4; 5]);
            ("amount", [Num 10; Num (50 # 2); Num 30; Num 20; Num 961.20]) ]).
Proof. vm_compute. reflexivity. Qed.

End CleanFacts.

(* ================================================================= *)
(** ** More on the credit metrics *)

Module CreditMore.
Import Pd Spec More PdFacts AnomalyFacts CreditAnalyzer.

(** *** Sums and means between bounds *)

Lemma Qlen_cons (x : Q) (l : list Q) : Qlen (x :: l) == 1 + Qlen l.
Proof.
  unfold Qlen. cbn [List.length]. rewrite Nat2Z.inj_succ, <- Z.add_1_l.
  rewrite inject_Z_plus. reflexivity.
Qed.

Lemma Qlen_nonneg (l : list Q) : 0 <= Qlen l.
Proof.
  unfold Qlen. change 0 with (inject_Z 0). rewrite <- Zle_Qle. lia.
Qed.

Lemma Qsum_between (lo hi : Q) (l : list Q) :
  (forall q, In q l -> lo <= q <= hi) ->
  lo * Qlen l <= Qsum l <= hi * Qlen l.
Proof.
  induction l as [|x l IH]; intro H.
  - unfold Qlen. cbn [List.length Z.of_nat Qsum fold_right].
    change (inject_Z 0) with 0. rewrite !Qmult_0_r. split; apply Qle_refl.
  - rewrite Qsum_cons, Qlen_cons.
    destruct (H x (or_introl eq_refl)) as [H1 H2].
    destruct IH as [I1 I2]; [intros q Hq; apply H; now right|].
    split; Lqa.lra.
Qed.

Lemma Qmean_between (lo hi : Q) (l : list Q) :
  l <> [] -> (forall q, In q l -> lo <= q <= hi) -> lo <= Qmean l <= hi.
Proof.
  intros Hne H. destruct (Qsum_between lo hi l H) as [H1 H2].
  assert (Hpos : 0 < Qlen l).
  { destruct l as [|x l]; [contradiction|]. rewrite Qlen_cons.
    pose proof (Qlen_nonneg l). Lqa.lra. }
  unfold Qmean. split.
  - apply Qle_shift_div_l; assumption.
  - apply Qle_shift_div_r; assumption.
Qed.

Lemma in_dropna (v : list float64) (q : Q) : In q (dropna v) -> In (Fin q) v.
Proof.
  induction v as [|x v IH]; simpl; [tauto|].
  destruct x; simpl; intros H; [destruct H as [->|H]|]; auto.
Qed.

(** The mean of a column lies between any two bounds of its present
    values. *)
Lemma mean_between (lo hi : Q) (v : list float64) (m : Q) :
  within lo hi v -> mean v = Fin m -> lo <= m <= hi.
Proof.
  intros Hw Hm. unfold mean in Hm.
  destruct (dropna v) as [|x l] eqn:E; [discriminate|].
  inversion Hm; subst m. apply Qmean_between; [discriminate|].
  intros q Hq. apply Hw. apply in_dropna. now rewrite E.
Qed.

(** *** The mean of a mask *)

Lemma Qsum_bools (m : list bool) :
  Qsum (map (fun b : bool => if b then 1 else 0) m)
  == inject_Z (Z.of_nat (count_true m)).
Proof.
  induction m as [|b m IH]; [reflexivity|].
  cbn [map]. rewrite Qsum_cons, IH. unfold count_true. destruct b; cbn [filter].
  - cbn [List.length]. rewrite Nat2Z.inj_succ, <- Z.add_1_l, inject_Z_plus.
    reflexivity.
  - Lqa.lra.
Qed.

Lemma mean_bool_fraction (m : list bool) :
  m <> [] ->
  exists x, mean_bool m = Fin x
            /\ x == inject_Z (Z.of_nat (count_true m))
                    / inject_Z (Z.of_nat (List.length m)).
Proof.
  intro Hne. unfold mean_bool, mean. rewrite dropna_bools.
  destruct m as [|b m]; [contradiction|].
  set (l := b :: m). change (map _ l) with
    ((if b then 1 else 0) :: map (fun b : bool => if b then 1 else 0) m) at 1.
  cbv iota. change ((if b then 1 else 0) :: map (fun b : bool => if b then 1 else 0) m)
    with (map (fun b : bool => if b then 1 else 0) l).
  eexists. split; [reflexivity|].
  unfold Qmean, Qlen. rewrite Qsum_bools, length_map. reflexivity.
Qed.

Lemma count_true_le (m : list bool) : (count_true m <= List.length m)%nat.
Proof. unfold count_true. apply filter_length_le. Qed.

(** X1.  On a credit frame with at least one row, [high_risk_proportion]
    is the number of rows whose score is present and below 600 over the
    number of all rows, rows with a missing score included; it lies
    between 0 and 1. *)
Theorem high_risk_proportion_fraction (data : DataFrame) (d c : Series)
  (dv cv : list float64) :
  lookup "default" (columns data) = Some d ->
  lookup "credit_score" (columns data) = Some c ->
  to_numeric d = Ok dv -> to_numeric c = Ok cv ->
  c <> [] ->
  exists hr,
    stat "high_risk_proportion" (calculate_risk_metrics data) = Some (Fin hr)
    /\ hr == inject_Z (Z.of_nat (count_true (lt_scalar cv 600)))
             / inject_Z (Z.of_nat (List.length c))
    /\ (forall i, nth i (lt_scalar cv 600) false = true
                  <-> exists q, nth_error c i = Some (Num q) /\ q < 600)
    /\ 0 <= hr <= 1.
Proof.
  intros Hd Hc Hdv Hcv Hne.
  rewrite (CreditFacts.calculate_risk_metrics_ok data d c dv cv Hd Hc Hdv Hcv).
  assert (Hlen : List.length (lt_scalar cv 600) = List.length c).
  { unfold lt_scalar. rewrite length_map. now apply to_numeric_length. }
  assert (Hm : lt_scalar cv 600 <> []).
  { intro E. rewrite E in Hlen. destruct c; [contradiction|discriminate]. }
  destruct (mean_bool_fraction _ Hm) as (x & Hx & Hfrac).
  exists x. cbn [stat lookup String.eqb Ascii.eqb Bool.eqb]. rewrite Hx.
  split; [reflexivity|]. rewrite Hlen in Hfrac. split; [exact Hfrac|]. split.
  - intro i. unfold lt_scalar.
    clear Hx Hfrac Hm Hlen Hne Hc. revert i cv Hcv.
    induction c as [|k c IH]; intros i cv Hcv.
    + inversion Hcv. destruct i; simpl; split; try discriminate;
        intros (q & H & _); discriminate.
    + apply to_numeric_cons in Hcv. destruct Hcv as (y & v' & -> & Hk & Hv').
      destruct i; cbn [map nth nth_error].
      * destruct k; simpl in Hk; inversion Hk; subst.
        -- rewrite Qltb_lt. split; [eauto|].
           intros (q & Hq & Hlt). now inversion Hq.
        -- split; [discriminate|]. intros (q & Hq & _). discriminate.
      * now apply IH.
  - pose proof (count_true_le (lt_scalar cv 600)) as Hle. rewrite Hlen in Hle.
    assert (Hpos : 0 < inject_Z (Z.of_nat (List.length c))).
    { change 0 with (inject_Z 0). rewrite <- Zlt_Qlt.
      destruct c; [contradiction|]. cbn [List.length]. lia. }
    rewrite Hfrac. split.
    + apply Qle_shift_div_l; [assumption|]. rewrite Qmult_0_l.
      change 0 with (inject_Z 0). rewrite <- Zle_Qle. lia.
    + apply Qle_shift_div_r; [assumption|]. rewrite Qmult_1_l.
      rewrite <- Zle_Qle. lia.
Qed.

Lemma high_risk_proportion_fraction_witness :
  exists hr,
    stat "high_risk_proportion" (calculate_risk_metrics credit_no_score)
      = Some (Fin hr)
    /\ 0 <= hr <= 1.
Proof.
  destruct (high_risk_proportion_fraction credit_no_score (nums [1; 0]) [NA; NA]
              [Fin 1; Fin 0] [NaN; NaN] eq_refl eq_refl eq_refl eq_refl)
    as (hr & H1 & _ & _ & H2); [discriminate|].
  exists hr. auto.
Defined.

(** X2.  [default_rate] is the mean of the present values of [default]:
    when these lie between 0 and 1, as on a 0/1 column, so does
    [default_rate]. *)
Theorem default_rate_between (data : DataFrame) (d c : Series)
  (dv cv : list float64) :
  lookup "default" (columns data) = Some d ->
  lookup "credit_score" (columns data) = Some c ->
  to_numeric d = Ok dv -> to_numeric c = Ok cv ->
  within 0 1 dv ->
  forall x, stat "default_rate" (calculate_risk_metrics data) = Some (Fin x) ->
            0 <= x <= 1.
Proof.
  intros Hd Hc Hdv Hcv H1.
  rewrite (CreditFacts.calculate_risk_metrics_ok data d c dv cv Hd Hc Hdv Hcv).
  cbn [stat lookup String.eqb Ascii.eqb Bool.eqb]. intros x Hx.
  inversion Hx as [Hm]. now apply (mean_between 0 1 dv).
Qed.

Lemma default_rate_between_witness :
  stat "default_rate" (calculate_risk_metrics credit_scenario)
  = Some (Fin (2 # 5))
  /\ 0 <= 2 # 5 <= 1.
Proof.
  split; [reflexivity|].
  apply (default_rate_between credit_scenario
           (nums [1; 0; 0; 1; 0]) (nums [550; 620; 700; 590; 800])
           [Fin 1; Fin 0; Fin 0; Fin 1; Fin 0]
           [Fin 550; Fin 620; Fin 700; Fin 590; Fin 800]);
    try reflexivity.
  intros q Hq. simpl in Hq.
  repeat (destruct Hq as [Hq|Hq]; [inversion Hq; subst; split; discriminate|]).
  contradiction.
Defined.

End CreditMore.

(* ================================================================= *)
(** ** More on the correlation matrix *)

Module CorrMore.
Import Pd Spec More PdFacts AnomalyFacts CorrFacts CreditMore CreditAnalyzer.

(** *** The Cauchy-Schwarz inequality for sums of rationals *)

Lemma Qsum_quadratic {A : Type} (u w : A -> Q) (lam : Q) (l : list A) :
  Qsum (map (fun a => (u a + lam * w a) * (u a + lam * w a)) l)
  == Qsum (map (fun a => u a * u a) l)
     + 2 * lam * Qsum (map (fun a => u a * w a) l)
     + lam * lam * Qsum (map (fun a => w a * w a) l).
Proof.
  induction l as [|a l IH]; cbn [map].
  - unfold Qsum. simpl. ring.
  - rewrite !Qsum_cons, IH. ring.
Qed.

Lemma Qsum_squares_nonneg' {A : Type} (u : A -> Q) (l : list A) :
  0 <= Qsum (map (fun a => u a * u a) l).
Proof.
  induction l as [|a l IH]; [apply Qle_refl|].
  cbn [map]. rewrite Qsum_cons. pose proof (Qsquare_nonneg (u a)). Lqa.lra.
Qed.

Lemma cauchy_schwarz {A : Type} (u w : A -> Q) (l : list A) :
  Qsum (map (fun a => u a * w a) l) * Qsum (map (fun a => u a * w a) l)
  <= Qsum (map (fun a => u a * u a) l) * Qsum (map (fun a => w a * w a) l).
Proof.
  set (S := Qsum (map (fun a => u a * u a) l)).
  set (T := Qsum (map (fun a => w a * w a) l)).
  set (C := Qsum (map (fun a => u a * w a) l)).
  assert (Hquad : forall lam, 0 <= S + 2 * lam * C + lam * lam * T).
  { intro lam. unfold S, C, T. rewrite <- Qsum_quadratic.
    apply (Qsum_squares_nonneg' (fun a => u a + lam * w a)). }
  assert (HT : 0 <= T) by apply Qsum_squares_nonneg'.
  assert (HS : 0 <= S) by apply Qsum_squares_nonneg'.
  destruct (Qlt_le_dec 0 T) as [Hpos|Hzero].
  - specialize (Hquad (- C / T)).
    assert (E : S + 2 * (- C / T) * C + (- C / T) * (- C / T) * T
                == (S * T - C * C) / T) by (field; Lqa.lra).
    rewrite E in Hquad.
    assert (H0 : 0 <= (S * T - C * C) / T * T).
    { apply Qmult_le_0_compat; [exact Hquad|Lqa.lra]. }
    assert (E2 : (S * T - C * C) / T * T == S * T - C * C) by (field; Lqa.lra).
    rewrite E2 in H0. Lqa.lra.
  - assert (ET : T == 0) by Lqa.lra.
    assert (EC : C == 0).
    { destruct (Qeq_dec C 0) as [|Hne]; [assumption|]. exfalso.
      specialize (Hquad (- (S + 1) / (2 * C))).
      assert (E : S + 2 * (- (S + 1) / (2 * C)) * C
                  + (- (S + 1) / (2 * C)) * (- (S + 1) / (2 * C)) * T
                  == -1 + (- (S + 1) / (2 * C)) * (- (S + 1) / (2 * C)) * T)
        by (field; exact Hne).
      rewrite E, ET, Qmult_0_r in Hquad. Lqa.lra. }
    rewrite EC, ET. Lqa.lra.
Qed.

(** *** One coefficient *)

(** A coefficient is NaN or a real number between -1 and 1, never an
    infinity. *)
Lemma pearson_ratio_range (ssx ssy cov : Q) :
  cov * cov <= ssx * ssy ->
  pearson_ratio ssx ssy cov = RNaN
  \/ exists r, pearson_ratio ssx ssy cov = RFin r /\ (-1 <= r <= 1)%R.
Proof.
  intro Hcs. unfold pearson_ratio.
  destruct (Req_dec_T (sqrt (Q2R (ssx * ssy))) 0) as [|Hnz]; [now left|].
  right. eexists. split; [reflexivity|].
  assert (Hprod : (0 <= Q2R (ssx * ssy))%R).
  { rewrite <- RMicromega.Q2R_0. apply Qle_Rle.
    pose proof (Qsquare_nonneg cov). Lqa.lra. }
  pose proof (sqrt_pos (Q2R (ssx * ssy))) as Hd.
  pose proof (sqrt_sqrt _ Hprod) as Hdd.
  apply Qle_Rle in Hcs. rewrite Q2R_mult in Hcs.
  set (D := sqrt (Q2R (ssx * ssy))) in *. set (c := Q2R cov) in *.
  assert (HD : (0 < D)%R) by lra.
  assert (Hq : (c / D * D = c)%R) by (field; lra).
  set (r := (c / D)%R) in *.
  assert (Hr : (r * r * (D * D) = c * c)%R) by (rewrite <- Hq; ring).
  assert (HDD : (0 < D * D)%R) by nra.
  assert (Hr1 : (r * r <= 1)%R).
  { destruct (Rle_lt_dec (r * r) 1) as [|Hgt]; [assumption|].
    assert (1 * (D * D) < r * r * (D * D))%R
      by (apply Rmult_lt_compat_r; assumption).
    lra. }
  split; nra.
Qed.

Lemma corr_pair_range (xs ys : list float64) :
  corr_pair xs ys = RNaN
  \/ exists r, corr_pair xs ys = RFin r /\ (-1 <= r <= 1)%R.
Proof.
  unfold corr_pair. destruct (pairwise_complete xs ys) as [|a p]; [now left|].
  set (l := a :: p). cbv beta iota zeta.
  apply pearson_ratio_range.
  apply (cauchy_schwarz (fun a => fst a - Qmean (map fst l))
                        (fun a => snd a - Qmean (map snd l)) l).
Qed.

(** *** The matrix *)

Lemma risk_correlation_analysis_ok (data : DataFrame) (features : list string) :
  forallb (numeric_column data) features = true ->
  risk_correlation_analysis data features
  = Ok (corr (map (fun f => (f, values_of data f)) features)).
Proof.
  intro Hnum. destruct (select_numeric data features Hnum) as (sel & Hsel & Hcols).
  unfold risk_correlation_analysis. rewrite Hsel. cbn [bind].
  now rewrite Hcols.
Qed.

(** X3.  On numeric feature columns every entry of the matrix is NaN or
    a real number between -1 and 1; the division never yields an
    infinity. *)
Theorem risk_correlation_range (data : DataFrame) (features : list string) :
  forallb (numeric_column data) features = true ->
  exists M,
    risk_correlation_analysis data features = Ok M
    /\ forall i j,
         entry M i j = RNaN
         \/ exists r, entry M i j = RFin r /\ (-1 <= r <= 1)%R.
Proof.
  intro Hnum. eexists. split; [now apply risk_correlation_analysis_ok|].
  intros i j. rewrite corr_entry.
  destruct (nth_error _ i) as [a|]; [|now left].
  destruct (nth_error _ j) as [b|]; [|now left].
  apply corr_pair_range.
Qed.

Lemma risk_correlation_range_witness :
  exists M,
    risk_correlation_analysis credit_scenario ["credit_score"; "default"] = Ok M
    /\ forall i j,
         entry M i j = RNaN
         \/ exists r, entry M i j = RFin r /\ (-1 <= r <= 1)%R.
Proof.
  apply (risk_correlation_range credit_scenario ["credit_score"; "default"]).
  reflexivity.
Defined.

End CorrMore.

(* ================================================================= *)
(** ** More on the segment analysis *)

Module SegmentMore.
Import Pd Spec More PdFacts AnomalyFacts GroupFacts CreditMore CreditAnalyzer.

Lemma dropna_take_mask_nil (m : list bool) : forall v : list float64,
  dropna (take_mask m v) = [] <->
  (forall i q, nth i m false = true -> nth_error v i = Some (Fin q) -> False).
Proof.
  induction m as [|b m IH]; intro v.
  - split; [|reflexivity]. intros _ i q H. destruct i; discriminate.
  - destruct v as [|x v].
    + split; [|reflexivity]. intros _ i q _ H. destruct i; discriminate.
    + destruct b; cbn [take_mask].
      * destruct x as [a|]; cbn [dropna].
        -- split; [discriminate|]. intro H. exfalso.
           apply (H 0%nat a); reflexivity.
        -- rewrite IH. split; intros H i q Hm Hv.
           ++ destruct i; [discriminate|]. now apply (H i q).
           ++ now apply (H (S i) q).
      * rewrite IH. split; intros H i q Hm Hv.
        -- destruct i; [discriminate|]. now apply (H i q).
        -- now apply (H (S i) q).
Qed.

Lemma round_decimals_nan (d : nat) (x : float64) :
  round_decimals d x = NaN <-> x = NaN.
Proof. destruct x; simpl; split; intro H; try discriminate; reflexivity. Qed.

(** The rounded mean of a group is NaN exactly when the group has no
    present value. *)
Lemma group_mean_nan (k : Series) (v : list float64) (g : key) (m : list bool) :
  (forall i, nth i m false = true
             <-> exists c, nth_error k i = Some c /\ key_of_cell c = Some g) ->
  (round_decimals 2 (mean (take_mask m v)) = NaN <-> ~ group_has_value k v g).
Proof.
  intro Hm. rewrite round_decimals_nan, mean_nan_iff, dropna_take_mask_nil.
  unfold group_has_value. split.
  - intros H (i & c & q & Hk & Hg & Hv). apply (H i q); [|exact Hv].
    apply Hm. eauto.
  - intros H i q Hi Hv. apply H. apply Hm in Hi. destruct Hi as (c & Hk & Hg).
    exists i, c, q. auto.
Qed.

Lemma unique_sorted_all_missing (s : Series) :
  all_missing s = true -> unique_sorted key_compare (map key_of_cell s) = [].
Proof.
  induction s as [|c s IH]; [reflexivity|]. simpl.
  destruct c; try discriminate. exact IH.
Qed.

Lemma segment_analysis_ok (data : DataFrame) (segment_column : string)
  (k : Series) :
  lookup segment_column (columns data) = Some k ->
  numeric_column data "default" = true ->
  numeric_column data "credit_score" = true ->
  numeric_column data "loan_amount" = true ->
  segment_analysis data segment_column
  = Ok (map (fun g =>
               (fst g,
                [ ("default",
                   round_decimals 2
                     (mean (take_mask (snd g) (values_of data "default"))));
                  ("credit_score",
                   round_decimals 2
                     (mean (take_mask (snd g) (values_of data "credit_score"))));
                  ("loan_amount",
                   round_decimals 2
                     (mean (take_mask (snd g) (values_of data "loan_amount")))) ]))
            (groupby key_compare (map key_of_cell k))).
Proof.
  intros Hk Hd Hc Hl.
  destruct (numeric_column_values _ _ Hd) as (d & Hd1 & Hd2).
  destruct (numeric_column_values _ _ Hc) as (c & Hc1 & Hc2).
  destruct (numeric_column_values _ _ Hl) as (l & Hl1 & Hl2).
  unfold segment_analysis, getitem. rewrite Hk, Hd1, Hc1, Hl1. cbn [bind].
  rewrite Hd2, Hc2, Hl2. reflexivity.
Qed.



End SegmentMore.

(* ================================================================= *)
(** ** Groups partition the rows *)

Module GroupMore.
Import Pd Spec More PdFacts AnomalyFacts GroupFacts.

Lemma list_sum_cons (x : nat) (l : list nat) :
  list_sum (x :: l) = (x + list_sum l)%nat.
Proof. reflexivity. Qed.

Section Partition.
Context {K : Type}.
Variable cmp : K -> K -> comparison.
Variable good : K -> Prop.
Hypothesis cmp_eq : forall a b, good a -> good b -> cmp a b = Eq -> a = b.
Hypothesis cmp_refl : forall a, cmp a a = Eq.
Hypothesis cmp_antisym : forall a b, cmp a b = CompOpp (cmp b a).
Hypothesis cmp_trans :
  forall a b c, cmp a b = Lt -> cmp b c = Lt -> cmp a c = Lt.

Lemma sorted_not_in (k : K) (l : list K) :
  Forall (cmp_lt cmp k) l -> ~ In k l.
Proof.
  intros H Hin. rewrite Forall_forall in H. specialize (H k Hin).
  unfold cmp_lt in H. rewrite cmp_refl in H. discriminate.
Qed.

Lemma sorted_nodup (l : list K) : StronglySorted (cmp_lt cmp) l -> NoDup l.
Proof.
  induction 1 as [|h t Ht IH Hh]; constructor; [|assumption].
  now apply sorted_not_in.
Qed.

(** Inserting a key into the sorted keys: the key is there already and
    nothing changes, or it is new and is added. *)
Lemma insert_key_cases (k : K) (l : list K) :
  good k -> Forall good l -> StronglySorted (cmp_lt cmp) l ->
  (In k l /\ insert_key cmp k l = l)
  \/ (~ In k l /\ Permutation (insert_key cmp k l) (k :: l)).
Proof.
  intros Hk Hl Hs. induction Hs as [|h t Ht IH Hh]; simpl.
  - right. split; [tauto|reflexivity].
  - inversion Hl as [|? ? Hgh Hgt]; subst.
    destruct (cmp k h) eqn:E.
    + apply (cmp_eq _ _ Hk Hgh) in E. subst h. left. split; [now left|reflexivity].
    + right. split; [|reflexivity].
      intros [->|Hin].
      * rewrite cmp_refl in E. discriminate.
      * rewrite Forall_forall in Hh. specialize (Hh k Hin).
        unfold cmp_lt in Hh.
        pose proof (cmp_trans _ _ _ E Hh) as Hkk. rewrite cmp_refl in Hkk.
        discriminate.
    + destruct (IH Hgt) as [[Hin Heq]|[Hnin Hperm]].
      * left. split; [now right|now rewrite Heq].
      * right. split.
        -- intros [->|Hin]; [|contradiction].
           rewrite cmp_refl in E. discriminate.
        -- rewrite Hperm. apply perm_swap.
Qed.

Lemma list_sum_perm (l l' : list nat) :
  Permutation l l' -> list_sum l = list_sum l'.
Proof. induction 1; simpl; lia. Qed.

Lemma cmp_eqb_true (a b : K) :
  good a -> good b -> (cmp_eqb cmp a b = true <-> a = b).
Proof.
  intros Ha Hb. unfold cmp_eqb. split.
  - destruct (cmp a b) eqn:E; try discriminate. intros _. now apply cmp_eq.
  - intros ->. now rewrite cmp_refl.
Qed.

Lemma indicator_zero (k : K) (l : list K) :
  good k -> Forall good l -> ~ In k l ->
  list_sum (map (fun k' => if cmp_eqb cmp k k' then 1 else 0)%nat l) = 0%nat.
Proof.
  intros Hk Hl Hnin. induction Hl as [|h t Hgh Hgt IH]; [reflexivity|].
  cbn [map]. rewrite !list_sum_cons. rewrite IH by (intro; apply Hnin; now right).
  destruct (cmp_eqb cmp k h) eqn:E; [|reflexivity].
  apply (cmp_eqb_true k h Hk Hgh) in E. subst h. exfalso. apply Hnin. now left.
Qed.

Lemma indicator_sum (k : K) (l : list K) :
  good k -> Forall good l -> NoDup l -> In k l ->
  list_sum (map (fun k' => if cmp_eqb cmp k k' then 1 else 0)%nat l) = 1%nat.
Proof.
  intros Hk Hl Hnd Hin. induction Hnd as [|h t Hnotin Hnd IH]; [contradiction|].
  inversion Hl as [|? ? Hgh Hgt]; subst. cbn [map]. rewrite !list_sum_cons.
  destruct (cmp_eqb cmp k h) eqn:E.
  - apply (cmp_eqb_true k h Hk Hgh) in E. subst h.
    now rewrite (indicator_zero k t Hk Hgt Hnotin).
  - destruct Hin as [->|Hin].
    + assert (cmp_eqb cmp k k = true) by (now apply cmp_eqb_true). congruence.
    + now rewrite (IH Hgt Hin).
Qed.

Lemma group_mask_absent (ks : list (option K)) (k : K) :
  good k -> Forall (holds_opt good) ks -> ~ In (Some k) ks ->
  forall col : Series, count (take_mask (group_mask cmp ks k) col) = 0%nat.
Proof.
  intros Hk Hks. induction Hks as [|o ks Ho Hks IH]; intros Hnin col;
    [reflexivity|].
  destruct col as [|c col]; [reflexivity|].
  cbn [group_mask map]. destruct o as [k'|].
  - unfold cmp_eqb. destruct (cmp k' k) eqn:E.
    + exfalso. apply Hnin. left. f_equal. now apply cmp_eq.
    + cbn [take_mask]. apply IH. intro H. apply Hnin. now right.
    + cbn [take_mask]. apply IH. intro H. apply Hnin. now right.
  - cbn [take_mask]. apply IH. intro H. apply Hnin. now right.
Qed.

Lemma count_cons (c : cell) (s : Series) :
  count (c :: s) = ((if present c then 1 else 0) + count s)%nat.
Proof. unfold count. cbn [filter]. destruct c; reflexivity. Qed.

(** Summed over the groups, the counts of a column are the number of rows
    that have a key and a present cell: every such row is counted once. *)
Lemma groupby_counts_total (ks : list (option K)) :
  Forall (holds_opt good) ks ->
  forall col : Series,
    List.length col = List.length ks ->
    list_sum (map (fun g => count (take_mask (snd g) col)) (groupby cmp ks))
    = keyed_present ks col.
Proof.
  unfold groupby. intro Hks.
  induction Hks as [|o ks Ho Hks IH]; intros col Hlen.
  - destruct col; reflexivity.
  - destruct col as [|c col]; [discriminate|].
    assert (Hlen' : List.length col = List.length ks) by (simpl in Hlen; lia).
    specialize (IH col Hlen'). rewrite map_map in *. cbn [snd] in *.
    unfold keyed_present. cbn [combine filter fst snd].
    fold (keyed_present ks col).
    destruct o as [k|]; cbn [unique_sorted fold_right].
    + fold (unique_sorted cmp ks).
      assert (Hterm : forall k',
        count (take_mask (group_mask cmp (Some k :: ks) k') (c :: col))
        = ((if cmp_eqb cmp k k' then (if present c then 1 else 0) else 0)
           + count (take_mask (group_mask cmp ks k') col))%nat).
      { intro k'. cbn [group_mask map take_mask].
        destruct (cmp_eqb cmp k k'); [apply count_cons|reflexivity]. }
      rewrite (map_ext _ _ Hterm).
      pose proof (unique_sorted_good cmp good ks Hks) as HgU.
      pose proof (unique_sorted_sorted cmp cmp_antisym cmp_trans ks) as HsU.
      set (U := unique_sorted cmp ks) in *.
      assert (Hsplit : forall l,
        list_sum (map (fun k' =>
                         ((if cmp_eqb cmp k k' then (if present c then 1 else 0)
                           else 0)
                          + count (take_mask (group_mask cmp ks k') col))%nat) l)
        = ((if present c then 1 else 0)
           * list_sum (map (fun k' => if cmp_eqb cmp k k' then 1 else 0)%nat l)
           + list_sum (map (fun k' => count (take_mask (group_mask cmp ks k') col)) l))%nat).
      { induction l as [|x l IHl]; [cbn; lia|].
        cbn [map]. rewrite !list_sum_cons. rewrite IHl.
        destruct (cmp_eqb cmp k x), (present c); lia. }
      rewrite Hsplit.
      assert (HgI : Forall good (insert_key cmp k U))
        by (now apply insert_key_good).
      assert (HsI : StronglySorted (cmp_lt cmp) (insert_key cmp k U))
        by (now apply insert_key_sorted).
      assert (HinI : In k (insert_key cmp k U)).
      { apply (insert_key_in cmp good cmp_eq cmp_refl k U Ho HgU). now left. }
      rewrite (indicator_sum k _ Ho HgI (sorted_nodup _ HsI) HinI).
      destruct (insert_key_cases k U Ho HgU HsU) as [[Hin Heq]|[Hnin Hperm]].
      * rewrite Heq, IH. unfold keyed_present.
        destruct (present c); cbn [List.length]; lia.
      * rewrite (list_sum_perm _ _ (Permutation_map _ Hperm)).
        cbn [map]. rewrite !list_sum_cons. rewrite IH.
        rewrite group_mask_absent;
          [unfold keyed_present; destruct (present c); cbn [List.length]; lia
          |assumption..|].
        intro H. apply Hnin.
        now apply (unique_sorted_in cmp good cmp_eq cmp_refl ks Hks).
    + fold (unique_sorted cmp ks). unfold keyed_present in IH.
      rewrite <- IH. apply f_equal. apply map_ext. intro k'. reflexivity.
Qed.

(** No group is empty: every key of the groups is the key of some row. *)
Lemma groupby_keys_backed (ks : list (option K)) (k : K) :
  Forall (holds_opt good) ks ->
  In k (map fst (groupby cmp ks)) -> exists i, nth_error ks i = Some (Some k).
Proof.
  intros Hks Hin. unfold groupby in Hin. rewrite map_map in Hin. cbn [fst] in Hin.
  rewrite map_id in Hin.
  apply (unique_sorted_in cmp good cmp_eq cmp_refl ks Hks) in Hin.
  now apply In_nth_error.
Qed.

End Partition.

(** *** Pairs of a key and a time bucket *)

Lemma pair_compare_eq (a b : key * Z) :
  canonical_pair a -> canonical_pair b ->
  pair_compare key_compare Z.compare a b = Eq -> a = b.
Proof.
  destruct a as [a1 a2], b as [b1 b2]. unfold canonical_pair, pair_compare.
  cbn [fst snd]. intros Ha Hb H.
  destruct (key_compare a1 b1) eqn:E; try discriminate.
  apply (key_compare_eq _ _ Ha Hb) in E. apply Z.compare_eq in H. congruence.
Qed.

Lemma pair_compare_refl (a : key * Z) :
  pair_compare key_compare Z.compare a a = Eq.
Proof.
  unfold pair_compare. rewrite key_compare_refl. apply Z.compare_refl.
Qed.

Lemma pair_compare_antisym (a b : key * Z) :
  pair_compare key_compare Z.compare a b
  = CompOpp (pair_compare key_compare Z.compare b a).
Proof.
  unfold pair_compare. rewrite (key_compare_antisym (fst a) (fst b)).
  destruct (key_compare (fst b) (fst a)); cbn [CompOpp]; try reflexivity.
  apply Z.compare_antisym.
Qed.

Lemma key_compare_eq_lt (a b c : key) :
  key_compare a b = Eq -> key_compare b c = Lt -> key_compare a c = Lt.
Proof.
  destruct a, b, c; simpl; try discriminate; auto.
  - rewrite <- Qeq_alt, <- !Qlt_alt. intros E H. now rewrite E.
  - intros E. apply String.compare_eq_iff in E. now subst.
  - intros E. apply Z.compare_eq in E. now subst.
Qed.

Lemma key_compare_lt_eq (a b c : key) :
  key_compare a b = Lt -> key_compare b c = Eq -> key_compare a c = Lt.
Proof.
  destruct a, b, c; simpl; try discriminate; auto.
  - rewrite <- Qeq_alt, <- !Qlt_alt. intros H E. now rewrite <- E.
  - intros H E. apply String.compare_eq_iff in E. now subst.
  - intros H E. apply Z.compare_eq in E. now subst.
Qed.

Lemma key_compare_eq_eq (a b c : key) :
  key_compare a b = Eq -> key_compare b c = Eq -> key_compare a c = Eq.
Proof.
  destruct a, b, c; simpl; try discriminate; auto.
  - rewrite <- !Qeq_alt. intros E1 E2. now rewrite E1.
  - intros E. apply String.compare_eq_iff in E. now subst.
  - intros E. apply Z.compare_eq in E. now subst.
Qed.

Lemma pair_compare_trans (a b c : key * Z) :
  pair_compare key_compare Z.compare a b = Lt ->
  pair_compare key_compare Z.compare b c = Lt ->
  pair_compare key_compare Z.compare a c = Lt.
Proof.
  unfold pair_compare.
  destruct (key_compare (fst a) (fst b)) eqn:E1; try discriminate;
    destruct (key_compare (fst b) (fst c)) eqn:E2; try discriminate; intros H1 H2.
  - rewrite (key_compare_eq_eq _ _ _ E1 E2).
    rewrite Z.compare_lt_iff in *. lia.
  - now rewrite (key_compare_eq_lt _ _ _ E1 E2).
  - now rewrite (key_compare_lt_eq _ _ _ E1 E2).
  - now rewrite (key_compare_trans _ _ _ E1 E2).
Qed.

End GroupMore.

(* ================================================================= *)
(** ** More on the high-risk merchants *)

Module MerchantMore.
Import Pd Spec More PdFacts AnomalyFacts GroupFacts SortFacts CreditMore
       GroupMore MerchantFacts FraudAnalyzer.

Lemma merchant_risk_ok (data : DataFrame) (cat tid : Series) :
  lookup "merchant_category" (columns data) = Some cat ->
  lookup "transaction_id" (columns data) = Some tid ->
  numeric_column data "is_fraud" = true ->
  merchant_risk data
  = Ok (map (fun g =>
               (fst g,
                (count (take_mask (snd g) tid),
                 mean (take_mask (snd g) (values_of data "is_fraud")))))
            (groupby key_compare (map key_of_cell cat))).
Proof.
  intros Hcat Htid Hfr.
  destruct (numeric_column_values _ _ Hfr) as (fr & Hfr1 & Hfr2).
  unfold merchant_risk, getitem. rewrite Hcat, Htid, Hfr1. cbn [bind].
  now rewrite Hfr2.
Qed.

Lemma in_take_mask {A : Type} (m : list bool) : forall (l : list A) (x : A),
  In x (take_mask m l) -> In x l.
Proof.
  induction m as [|b m IH]; intros l x H; [contradiction|].
  destruct l as [|y l]; [contradiction|]. cbn [take_mask] in H.
  destruct b; [destruct H as [->|H]; [now left|]|]; right; now apply IH.
Qed.

Lemma sort_values_desc_nil {A : Type} (argsort : list Q -> list nat)
  (by_ : A -> float64) :
  sort_values_desc argsort by_ [] = [].
Proof. unfold sort_values_desc. apply take_indices_nil. Qed.

Lemma filter_none {A : Type} (p : A -> bool) (l : list A) :
  (forall r, In r l -> p r = false) -> filter p l = [].
Proof.
  induction l as [|r l IH]; intro H; [reflexivity|].
  cbn [filter]. rewrite (H r (or_introl eq_refl)).
  apply IH. intros r' Hr'. apply H. now right.
Qed.

(** X6.  Summed over the merchant categories, the transaction counts
    are the number of rows that have a category and a transaction id:
    every such transaction is counted in exactly one category. *)
Theorem merchant_counts_total (data : DataFrame) (cat tid : Series) :
  well_formed data = true ->
  lookup "merchant_category" (columns data) = Some cat ->
  lookup "transaction_id" (columns data) = Some tid ->
  numeric_column data "is_fraud" = true ->
  exists mr,
    merchant_risk data = Ok mr
    /\ list_sum (map transaction_count mr)
       = keyed_present (map key_of_cell cat) tid.
Proof.
  intros Hwf Hcat Htid Hfr. eexists.
  split; [exact (merchant_risk_ok data cat tid Hcat Htid Hfr)|].
  rewrite map_map. unfold transaction_count. cbn [fst snd].
  apply (groupby_counts_total key_compare canonical key_compare_eq
           key_compare_refl key_compare_antisym key_compare_trans).
  - apply column_keys_canonical.
  - rewrite length_map.
    rewrite (well_formed_lookup data _ _ Hwf Hcat).
    now rewrite (well_formed_lookup data _ _ Hwf Htid).
Qed.

Lemma merchant_counts_total_witness :
  exists mr,
    merchant_risk merchants_tied = Ok mr
    /\ list_sum (map transaction_count mr) = 4%nat.
Proof.
  destruct (merchant_counts_total merchants_tied
              [Str "A"; Str "B"; Str "A"; Str "B"] (nums [1; 2; 3; 4])
              eq_refl eq_refl eq_refl eq_refl) as (mr & Hmr & Hsum).
  exists mr. split; [exact Hmr|]. rewrite Hsum. reflexivity.
Defined.

(** X7.  The fraud rate of a category is the mean of its present
    [is_fraud] values: on a 0/1 column every rate lies between 0 and 1,
    so a [risk_threshold] above 1 returns the empty result, whatever the
    sort. *)
Theorem fraud_rates_between (argsort : list Q -> list nat) (data : DataFrame)
  (cat tid : Series) (min_transactions : Z) (risk_threshold : Q) :
  lookup "merchant_category" (columns data) = Some cat ->
  lookup "transaction_id" (columns data) = Some tid ->
  numeric_column data "is_fraud" = true ->
  within 0 1 (values_of data "is_fraud") ->
  exists mr,
    merchant_risk data = Ok mr
    /\ (forall r x, In r mr -> fraud_rate r = Fin x -> 0 <= x <= 1)
    /\ (1 < risk_threshold ->
        get_high_risk_merchants argsort data min_transactions (Fin risk_threshold)
        = Ok []).
Proof.
  intros Hcat Htid Hfr Hw. eexists.
  split; [exact (merchant_risk_ok data cat tid Hcat Htid Hfr)|].
  assert (Hrates : forall r x,
    In r (map (fun g =>
                 (fst g,
                  (count (take_mask (snd g) tid),
                   mean (take_mask (snd g) (values_of data "is_fraud")))))
              (groupby key_compare (map key_of_cell cat))) ->
    fraud_rate r = Fin x -> 0 <= x <= 1).
  { intros r x Hin Hx. apply in_map_iff in Hin.
    destruct Hin as ([g m] & <- & _). unfold fraud_rate in Hx. cbn [fst snd] in Hx.
    apply (mean_between 0 1 _ x) in Hx; [exact Hx|].
    intros q Hq. apply Hw. now apply in_take_mask in Hq. }
  split; [exact Hrates|].
  intro Hgt. unfold get_high_risk_merchants.
  rewrite (merchant_risk_ok data cat tid Hcat Htid Hfr). cbn [bind].
  match goal with
  | |- Ok (sort_values_desc _ _ (filter ?p ?l)) = _ =>
      assert (Hnil : filter p l = [])
  end.
  { apply filter_none. intros r Hr.
    destruct (qualifies min_transactions (Fin risk_threshold) r) eqn:Eq;
      [|reflexivity].
    apply qualifies_iff in Eq. destruct Eq as [_ (x & Hx & Hle)].
    assert (Hb : 0 <= x <= 1) by (apply (Hrates r x); [exact Hr|exact Hx]).
    destruct Hb. Lqa.lra. }
  now rewrite Hnil, sort_values_desc_nil.
Qed.

Lemma fraud_rates_between_witness :
  exists mr,
    merchant_risk merchants_tied = Ok mr
    /\ (forall r x, In r mr -> fraud_rate r = Fin x -> 0 <= x <= 1)
    /\ get_high_risk_merchants argsort_stable merchants_tied 0 (Fin 2) = Ok [].
Proof.
  destruct (fraud_rates_between argsort_stable merchants_tied
              [Str "A"; Str "B"; Str "A"; Str "B"] (nums [1; 2; 3; 4]) 0 2
              eq_refl eq_refl eq_refl) as (mr & Hmr & Hr & He).
  - intros q Hq. simpl in Hq.
    repeat (destruct Hq as [Hq|Hq]; [inversion Hq; subst; split; discriminate|]).
    contradiction.
  - exists mr. split; [exact Hmr|]. split; [exact Hr|]. apply He. reflexivity.
Defined.

(** *** Thresholds and order *)

Lemma high_risk_member (argsort : list Q -> list nat) (data : DataFrame)
  (mr : MerchantFrame) (min_transactions : Z) (t : Q) :
  argsort_valid argsort ->
  merchant_risk data = Ok mr ->
  exists out,
    get_high_risk_merchants argsort data min_transactions (Fin t) = Ok out
    /\ Permutation out (filter (qualifies min_transactions (Fin t)) mr)
    /\ StronglySorted rate_ge out.
Proof.
  intros Hsort Hmr. unfold get_high_risk_merchants. rewrite Hmr. cbn [bind].
  eexists. split; [reflexivity|].
  apply sort_values_desc_spec; [exact Hsort|].
  apply Forall_forall. intros r Hr. apply filter_In in Hr.
  destruct Hr as [_ Hq]. apply qualifies_iff in Hq.
  destruct Hq as [_ (x & -> & _)]. reflexivity.
Qed.

(** X8.  Raising [min_transactions] or [risk_threshold] can only remove
    categories: what the stricter call returns, the looser call returns
    too. *)
Theorem high_risk_antitone (argsort : list Q -> list nat) (data : DataFrame)
  (min1 min2 : Z) (t1 t2 : Q) :
  argsort_valid argsort ->
  (min1 <= min2)%Z -> t1 <= t2 ->
  match get_high_risk_merchants argsort data min1 (Fin t1),
        get_high_risk_merchants argsort data min2 (Fin t2) with
  | Ok out1, Ok out2 => forall r, In r out2 -> In r out1
  | Raise e1, Raise e2 => e1 = e2
  | _, _ => False
  end.
Proof.
  intros Hsort Hmin Ht.
  destruct (merchant_risk data) as [mr|e] eqn:Hmr.
  - destruct (high_risk_member argsort data mr min1 t1 Hsort Hmr)
      as (out1 & -> & Hp1 & _).
    destruct (high_risk_member argsort data mr min2 t2 Hsort Hmr)
      as (out2 & -> & Hp2 & _).
    intros r Hr. apply (Permutation_in _ Hp2) in Hr.
    apply (Permutation_in _ (Permutation_sym Hp1)).
    apply filter_In in Hr. destruct Hr as [Hin Hq]. apply filter_In.
    split; [exact Hin|]. apply qualifies_iff in Hq. apply qualifies_iff.
    destruct Hq as [Hc (x & Hx & Hle)]. split; [lia|].
    exists x. split; [exact Hx|]. Lqa.lra.
  - unfold get_high_risk_merchants. rewrite Hmr. reflexivity.
Qed.

Lemma high_risk_antitone_witness :
  match get_high_risk_merchants argsort_stable merchants_tied 1 (Fin 0.1),
        get_high_risk_merchants argsort_stable merchants_tied 2 (Fin 0.5) with
  | Ok out1, Ok out2 => forall r, In r out2 -> In r out1
  | Raise e1, Raise e2 => e1 = e2
  | _, _ => False
  end.
Proof.
  apply (high_risk_antitone argsort_stable merchants_tied 1 2 0.1 0.5).
  - exact argsort_stable_valid.
  - discriminate.
  - discriminate.
Defined.

Lemma sorted_perm_unique {A : Type} (R : A -> A -> Prop) (l1 : list A) :
  forall l2,
    (forall a b, In a l1 -> In b l1 -> R a b -> R b a -> a = b) ->
    Permutation l1 l2 ->
    StronglySorted R l1 -> StronglySorted R l2 -> l1 = l2.
Proof.
  induction l1 as [|a l1 IH]; intros l2 Hanti Hperm Hs1 Hs2.
  - apply Permutation_nil in Hperm. now subst.
  - destruct l2 as [|b l2].
    + apply Permutation_sym, Permutation_nil in Hperm. discriminate.
    + inversion Hs1 as [|? ? Hs1' Ha]; subst.
      inversion Hs2 as [|? ? Hs2' Hb]; subst.
      assert (Hab : a = b).
      { assert (Hbin : In b (a :: l1))
          by (apply (Permutation_in _ (Permutation_sym Hperm)); now left).
        assert (Hain : In a (b :: l2))
          by (apply (Permutation_in _ Hperm); now left).
        destruct Hbin as [E|Hbin]; [exact E|].
        destruct Hain as [E|Hain]; [now symmetry|].
        rewrite Forall_forall in Ha, Hb.
        apply Hanti; [now left|now right|now apply Ha|now apply Hb]. }
      subst b. f_equal. apply IH; [|now apply Permutation_cons_inv with a|
                                   assumption..].
      intros x y Hx Hy. apply Hanti; now right.
Qed.



End MerchantMore.

(* ================================================================= *)
(** ** More on the velocity metrics *)

Module VelocityMore.
Import Pd Spec More PdFacts AnomalyFacts GroupFacts MaskFacts CreditMore
       GroupMore MerchantMore VelocityFacts FraudAnalyzer.

(** *** Columns of a filtered frame *)

Lemma map_result_cons_inv {A B : Type} (f : A -> result B) (x : A)
  (l : list A) (v : list B) :
  map_result f (x :: l) = Ok v ->
  exists y v', v = y :: v' /\ f x = Ok y /\ map_result f l = Ok v'.
Proof.
  simpl. destruct (f x) as [y|e]; simpl; [|discriminate].
  destruct (map_result f l) as [v'|e]; simpl; [|discriminate].
  intro H. inversion H; subst. eauto.
Qed.

Lemma map_result_length {A B : Type} (f : A -> result B) (l : list A) :
  forall v, map_result f l = Ok v -> List.length v = List.length l.
Proof.
  induction l as [|x l IH]; intros v H.
  - inversion H. reflexivity.
  - apply map_result_cons_inv in H. destruct H as (y & v' & -> & _ & H).
    simpl. f_equal. now apply IH.
Qed.

Lemma map_result_take_mask {A B : Type} (f : A -> result B) (m : list bool) :
  forall l v,
    map_result f l = Ok v ->
    map_result f (take_mask m l) = Ok (take_mask m v).
Proof.
  induction m as [|b m IH]; intros l v H; [reflexivity|].
  destruct l as [|x l].
  - inversion H. reflexivity.
  - apply map_result_cons_inv in H. destruct H as (y & v' & -> & Hy & H).
    cbn [take_mask]. destruct b; [|now apply IH].
    cbn [map_result]. rewrite Hy, (IH _ _ H). reflexivity.
Qed.

Lemma lookup_getitem_mask (df : DataFrame) (m : list bool) (name : string) :
  lookup name (columns (getitem_mask df m))
  = option_map (take_mask m) (lookup name (columns df)).
Proof.
  unfold getitem_mask. cbn [columns].
  induction (columns df) as [|[n s] l IH]; [reflexivity|].
  cbn [map lookup fst snd]. destruct (String.eqb n name); [reflexivity|exact IH].
Qed.

Lemma take_mask_all_false {A : Type} (n : nat) : forall l : list A,
  take_mask (repeat false n) l = [].
Proof.
  induction n as [|n IH]; intro l; [reflexivity|].
  destruct l; [reflexivity|]. cbn [repeat take_mask]. apply IH.
Qed.

Lemma count_true_repeat_false (n : nat) : count_true (repeat false n) = 0%nat.
Proof. unfold count_true. induction n as [|n IH]; [reflexivity|exact IH]. Qed.

Lemma gt_scalar_nan (v : list float64) :
  gt_scalar v NaN = repeat false (List.length v).
Proof.
  induction v as [|x v IH]; [reflexivity|].
  cbn [gt_scalar map List.length repeat]. f_equal; [now destruct x|exact IH].
Qed.

Lemma take_mask_gt (t : Q) (v : list float64) :
  forall x, In x (take_mask (gt_scalar v (Fin t)) v) ->
            exists q, x = Fin q /\ t < q.
Proof.
  induction v as [|y v IH]; intros x H; [contradiction|].
  cbn [gt_scalar map take_mask] in H.
  destruct y as [q|].
  - destruct (Qltb t q) eqn:E.
    + destruct H as [<-|H]; [|now apply IH].
      exists q. split; [reflexivity|]. now apply Qltb_lt.
    + now apply IH.
  - now apply IH.
Qed.

Lemma take_mask_nth_in {A : Type} (m : list bool) : forall (l : list A) i x,
  nth i m false = true -> nth_error l i = Some x -> In x (take_mask m l).
Proof.
  induction m as [|b m IH]; intros l i x Hm Hl.
  - destruct i; discriminate.
  - destruct l as [|y l]; [destruct i; discriminate|].
    destruct i as [|i]; cbn in Hm, Hl.
    + subst b. inversion Hl; subst. now left.
    + cbn [take_mask]. destruct b; [right|]; now apply (IH l i).
Qed.

(** *** Means above a bound *)

Lemma Qsum_above (t : Q) (l : list Q) :
  l <> [] -> (forall q, In q l -> t < q) -> t * Qlen l < Qsum l.
Proof.
  induction l as [|x l IH]; intros Hne Hall; [congruence|].
  rewrite Qlen_cons, Qsum_cons.
  assert (Hx : t < x) by (apply Hall; now left).
  destruct l as [|y l].
  - change (Qlen []) with 0. change (Qsum []) with 0. Lqa.lra.
  - assert (IH' : t * Qlen (y :: l) < Qsum (y :: l)).
    { apply IH; [discriminate|]. intros q Hq. apply Hall. now right. }
    Lqa.lra.
Qed.

Lemma mean_above (t : Q) (v : list float64) :
  v <> [] -> (forall x, In x v -> exists q, x = Fin q /\ t < q) ->
  exists m, mean v = Fin m /\ t < m.
Proof.
  intros Hne Hall.
  assert (Hd : dropna v <> []).
  { destruct v as [|x v]; [congruence|].
    destruct (Hall x (or_introl eq_refl)) as (q & -> & _). discriminate. }
  assert (Hq : forall q, In q (dropna v) -> t < q).
  { intros q Hq. apply in_dropna in Hq.
    destruct (Hall _ Hq) as (q' & E & Hlt). inversion E; subst. exact Hlt. }
  unfold mean. destruct (dropna v) as [|x l] eqn:E; [congruence|].
  eexists. split; [reflexivity|].
  pose proof (Qsum_above t (x :: l) Hd Hq) as Hs.
  assert (Hpos : 0 < Qlen (x :: l)).
  { rewrite Qlen_cons. pose proof (Qlen_nonneg l). Lqa.lra. }
  unfold Qmean. apply Qlt_shift_div_l; [exact Hpos|exact Hs].
Qed.

(** *** Time buckets *)

Lemma min_time_none (ts : list (option Z)) :
  min_time ts = None -> forall t, ~ In (Some t) ts.
Proof.
  induction ts as [|[u|] ts IH]; intros H t Hin.
  - contradiction.
  - cbn [min_time] in H. destruct (min_time ts); discriminate.
  - destruct Hin as [E|Hin]; [discriminate|]. now apply (IH H t).
Qed.

Lemma min_time_earliest (ts : list (option Z)) (f : Z) :
  min_time ts = Some f <-> earliest ts f.
Proof.
  assert (Hfwd : forall ts f, min_time ts = Some f -> earliest ts f).
  { clear. induction ts as [|[u|] ts IH]; intros f H.
    - discriminate.
    - cbn [min_time] in H. destruct (min_time ts) as [g|] eqn:E.
      + inversion H; subst f. destruct (IH g eq_refl) as [Hin Hle].
        split.
        * destruct (Z.min_spec u g) as [[_ ->]|[_ ->]]; [now left|now right].
        * intros t [Ht|Ht]; [inversion Ht; subst; lia|].
          specialize (Hle t Ht). lia.
      + inversion H; subst f. split; [now left|].
        intros t [Ht|Ht]; [inversion Ht; lia|].
        now apply (min_time_none ts E) in Ht.
    - cbn [min_time] in H. destruct (IH f H) as [Hin Hle].
      split; [now right|].
      intros t [Ht|Ht]; [discriminate|]. now apply Hle. }
  split; [apply Hfwd|].
  intros [Hin Hle]. destruct (min_time ts) as [g|] eqn:E.
  - destruct (Hfwd ts g E) as [Hin' Hle'].
    specialize (Hle g Hin'). specialize (Hle' f Hin). f_equal. lia.
  - now apply (min_time_none ts E) in Hin.
Qed.

Lemma grouper_bins_nth (w : positive) (ts : list (option Z)) (i : nat) (b : Z) :
  nth_error (grouper_bins w ts) i = Some (Some b)
  <-> exists t f,
        nth_error ts i = Some (Some t) /\ min_time ts = Some f
        /\ b = (t - (t - normalize f) mod Z.pos w)%Z.
Proof.
  unfold grouper_bins. destruct (min_time ts) as [f|] eqn:E.
  - rewrite nth_error_map. destruct (nth_error ts i) as [[t|]|]; cbn; split.
    + intro H. inversion H. eauto.
    + intros (t' & f' & Ht & Hf & ->). inversion Ht; inversion Hf; subst.
      reflexivity.
    + discriminate.
    + intros (t' & _ & Ht & _). discriminate.
    + discriminate.
    + intros (t' & _ & Ht & _). discriminate.
  - rewrite nth_error_map. split.
    + destruct (nth_error ts i); discriminate.
    + intros (_ & f & _ & Hf & _). discriminate.
Qed.

Lemma grouper_bins_length (w : positive) (ts : list (option Z)) :
  List.length (grouper_bins w ts) = List.length ts.
Proof.
  unfold grouper_bins. destruct (min_time ts); apply length_map.
Qed.

Lemma grouper_bins_some (w : positive) (ts : list (option Z)) :
  map is_some (grouper_bins w ts) = map is_some ts.
Proof.
  unfold grouper_bins. destruct (min_time ts) as [f|] eqn:E.
  - rewrite map_map. apply map_ext. now intros [t|].
  - rewrite map_map. apply map_ext_in. intros [t|] Hin; [|reflexivity].
    now apply (min_time_none ts E) in Hin.
Qed.

(** The bucket of a timestamp is the one multiple of the window, counted
    from [s], that holds it. *)
Lemma bucket_unique (w s t b : Z) :
  (0 < w)%Z ->
  b = (t - (t - s) mod w)%Z
  <-> (b <= t < b + w)%Z /\ ((b - s) mod w = 0)%Z.
Proof.
  intro Hw. split.
  - intros ->. pose proof (Z.mod_pos_bound (t - s) w Hw) as Hb.
    split; [lia|].
    replace (t - (t - s) mod w - s)%Z with (w * ((t - s) / w))%Z.
    + rewrite Z.mul_comm. apply Z.mod_mul. lia.
    + pose proof (Z.div_mod (t - s) w ltac:(lia)). lia.
  - intros [Hb Hm].
    apply Z.mod_divide in Hm; [|lia]. destruct Hm as [k Hk].
    assert (E : ((t - s) mod w = t - b)%Z).
    { symmetry. apply (Z.mod_unique (t - s) w k (t - b)); [left; lia|]. lia. }
    lia.
Qed.

Lemma zip_keys_nth {A B : Type} (a : list (option A)) :
  forall (b : list (option B)) i x y,
    nth_error (zip_keys a b) i = Some (Some (x, y))
    <-> nth_error a i = Some (Some x) /\ nth_error b i = Some (Some y).
Proof.
  unfold zip_keys.
  induction a as [|u a IH]; intros b i x y.
  - cbn. destruct i; split; try discriminate; intros [H _]; discriminate.
  - destruct b as [|v b].
    + cbn. destruct i; split; try discriminate; intros [_ H]; discriminate.
    + destruct i as [|i]; cbn [combine map nth_error].
      * destruct u as [x'|], v as [y'|]; split;
          try discriminate;
          try (intros [H1 H2]; discriminate).
        -- intro H. inversion H. auto.
        -- intros [H1 H2]. inversion H1; inversion H2. reflexivity.
      * apply IH.
Qed.

Lemma velocity_keys_good (w : positive) (cust : Series) (ts : list (option Z)) :
  Forall (holds_opt canonical_pair) (velocity_keys w cust ts).
Proof.
  unfold velocity_keys, zip_keys. apply Forall_forall. intros o Ho.
  apply in_map_iff in Ho. destruct Ho as ([u v] & <- & Hin).
  apply in_combine_l in Hin. apply in_map_iff in Hin.
  destruct Hin as (c & <- & _).
  pose proof (key_of_cell_canonical c) as Hc.
  destruct (key_of_cell c) as [k|]; [|exact I].
  destruct v; [exact Hc|exact I].
Qed.

Lemma velocity_key_rows (w : positive) (cust : Series) (ts : list (option Z))
  (c : key) (b : Z) :
  In (c, b)
     (map fst (groupby (pair_compare key_compare Z.compare)
                       (velocity_keys w cust ts)))
  <-> exists i cell t f,
        nth_error cust i = Some cell /\ key_of_cell cell = Some c
        /\ nth_error ts i = Some (Some t) /\ min_time ts = Some f
        /\ b = (t - (t - normalize f) mod Z.pos w)%Z.
Proof.
  assert (Hfst : forall ks : list (option (key * Z)),
            map fst (groupby (pair_compare key_compare Z.compare) ks)
            = unique_sorted (pair_compare key_compare Z.compare) ks).
  { intro ks. unfold groupby. rewrite map_map. apply map_id. }
  rewrite Hfst.
  rewrite (unique_sorted_in (pair_compare key_compare Z.compare) canonical_pair
             pair_compare_eq pair_compare_refl _ (velocity_keys_good w cust ts)).
  split.
  - intro Hin. apply In_nth_error in Hin. destruct Hin as [i Hi].
    unfold velocity_keys in Hi. apply zip_keys_nth in Hi.
    destruct Hi as [Hc Hb]. rewrite nth_error_map in Hc.
    destruct (nth_error cust i) as [cell|] eqn:Ec; [|discriminate].
    cbn in Hc. inversion Hc as [Hk].
    apply grouper_bins_nth in Hb. destruct Hb as (t & f & Ht & Hf & ->).
    exists i, cell, t, f. auto.
  - intros (i & cell & t & f & Hc & Hk & Ht & Hf & Hb).
    apply (nth_error_In _ i). unfold velocity_keys. apply zip_keys_nth.
    split.
    + rewrite nth_error_map, Hc. cbn. now rewrite Hk.
    + apply grouper_bins_nth. eauto.
Qed.

Lemma velocity_keys_sorted (w : positive) (cust : Series) (ts : list (option Z)) :
  StronglySorted (cmp_lt (pair_compare key_compare Z.compare))
    (map fst (groupby (pair_compare key_compare Z.compare)
                      (velocity_keys w cust ts))).
Proof.
  unfold groupby. rewrite map_map, map_id.
  apply unique_sorted_sorted.
  - exact pair_compare_antisym.
  - exact pair_compare_trans.
Qed.

Lemma velocity_groupby_ok (data : DataFrame) (w : positive)
  (cust dates tid amt : Series) (ts : list (option Z)) (av : list float64) :
  lookup "customer_id" (columns data) = Some cust ->
  lookup "transaction_date" (columns data) = Some dates ->
  lookup "transaction_id" (columns data) = Some tid ->
  lookup "amount" (columns data) = Some amt ->
  to_datetime_values dates = Ok ts ->
  to_numeric amt = Ok av ->
  velocity_groupby data w
  = Ok (map (fun g =>
               (fst g,
                (count (take_mask (snd g) tid),
                 sum (take_mask (snd g) av),
                 mean (take_mask (snd g) av))))
            (groupby (pair_compare key_compare Z.compare)
                     (velocity_keys w cust ts))).
Proof.
  intros Hc Hd Ht Ha Hts Hav. unfold velocity_groupby, getitem.
  rewrite Hc, Hd, Ht, Ha. cbn [bind]. rewrite Hts, Hav. reflexivity.
Qed.

Lemma velocity_out_keys {A : Type} (F : (key * Z) * list bool -> A)
  (gs : list ((key * Z) * list bool)) :
  map fst (map (fun g => (fst g, F g)) gs) = map fst gs.
Proof. rewrite map_map. reflexivity. Qed.

(** X10.  The rows of the velocity frame are keyed by customer and time
    bucket, in strictly ascending order of customer, then bucket.  A key
    is in the frame exactly when some transaction of that customer falls
    into the bucket; buckets are [time_window] wide, closed on the left,
    and counted from midnight of the day of the earliest transaction. *)
Theorem velocity_buckets (data : DataFrame) (time_window : positive)
  (cust dates tid amt : Series) (ts : list (option Z)) (av : list float64) :
  lookup "customer_id" (columns data) = Some cust ->
  lookup "transaction_date" (columns data) = Some dates ->
  lookup "transaction_id" (columns data) = Some tid ->
  lookup "amount" (columns data) = Some amt ->
  to_datetime_values dates = Ok ts ->
  to_numeric amt = Ok av ->
  exists out,
    calculate_velocity_metrics data time_window None = Ok out
    /\ StronglySorted (cmp_lt (pair_compare key_compare Z.compare))
         (map fst out)
    /\ forall c b,
         In (c, b) (map fst out)
         <-> exists i cell t f,
               nth_error cust i = Some cell /\ key_of_cell cell = Some c
               /\ nth_error ts i = Some (Some t)
               /\ earliest ts f
               /\ (b <= t < b + Z.pos time_window)%Z
               /\ ((b - normalize f) mod Z.pos time_window = 0)%Z.
Proof.
  intros Hc Hd Ht Ha Hts Hav. eexists. split.
  { unfold calculate_velocity_metrics. cbn [truthy bind].
    exact (velocity_groupby_ok data time_window _ _ _ _ _ _ Hc Hd Ht Ha Hts Hav). }
  rewrite velocity_out_keys. split; [apply velocity_keys_sorted|].
  intros c b. rewrite velocity_key_rows.
  split; intros (i & cell & t & f & H1 & H2 & H3 & H4 & H5).
  - exists i, cell, t, f. apply min_time_earliest in H4.
    apply bucket_unique in H5; [|reflexivity]. tauto.
  - destruct H5 as [H5 H6]. exists i, cell, t, f.
    apply min_time_earliest in H4.
    repeat split; try assumption. apply bucket_unique; [reflexivity|]. tauto.
Qed.

Lemma velocity_buckets_witness :
  exists out,
    calculate_velocity_metrics tx_scenario hour_ns None = Ok out
    /\ StronglySorted (cmp_lt (pair_compare key_compare Z.compare))
         (map fst out)
    /\ In (KStr "b", 3600000000000%Z) (map fst out).
Proof.
  destruct (velocity_buckets tx_scenario hour_ns
              [Str "a"; Str "a"; Str "b"; Str "a"]
              [Time 0; Time 1000; Time 3600000000000; Time 3700000000000]
              (nums [1; 2; 3; 4]) (nums [5; -3; 0; 7])
              [Some 0; Some 1000; Some 3600000000000; Some 3700000000000]%Z
              [Fin 5; Fin (-3); Fin 0; Fin 7]
              eq_refl eq_refl eq_refl eq_refl eq_refl eq_refl)
    as (out & Hout & Hs & Hk).
  exists out. split; [exact Hout|]. split; [exact Hs|].
  apply Hk. exists 2%nat, (Str "b"), 3600000000000%Z, 0%Z.
  repeat split; try reflexivity; try discriminate.
  - simpl. auto.
  - intros t Ht. simpl in Ht.
    repeat (destruct Ht as [Ht|Ht]; [inversion Ht; discriminate|]).
    contradiction.
Defined.

(** X11.  When the window divides the day (an hour, a minute, ...), the
    bucket of a transaction is its timestamp rounded down to a multiple
    of the window, whatever the other transactions are. *)
Theorem velocity_buckets_of_day_divisor (data : DataFrame)
  (time_window : positive)
  (cust dates tid amt : Series) (ts : list (option Z)) (av : list float64) :
  lookup "customer_id" (columns data) = Some cust ->
  lookup "transaction_date" (columns data) = Some dates ->
  lookup "transaction_id" (columns data) = Some tid ->
  lookup "amount" (columns data) = Some amt ->
  to_datetime_values dates = Ok ts ->
  to_numeric amt = Ok av ->
  (Z.pos time_window | day_ns)%Z ->
  exists out,
    calculate_velocity_metrics data time_window None = Ok out
    /\ forall c b,
         In (c, b) (map fst out)
         <-> exists i cell t,
               nth_error cust i = Some cell /\ key_of_cell cell = Some c
               /\ nth_error ts i = Some (Some t)
               /\ b = (Z.pos time_window * (t / Z.pos time_window))%Z.
Proof.
  intros Hc Hd Ht Ha Hts Hav Hdiv. eexists. split.
  { unfold calculate_velocity_metrics. cbn [truthy bind].
    exact (velocity_groupby_ok data time_window _ _ _ _ _ _ Hc Hd Ht Ha Hts Hav). }
  rewrite velocity_out_keys.
  assert (Hfloor : forall t f,
            (t - (t - normalize f) mod Z.pos time_window
             = Z.pos time_window * (t / Z.pos time_window))%Z).
  { intros t f. destruct Hdiv as [k Hk]. unfold normalize. rewrite Hk.
    replace (t - f / (k * Z.pos time_window) * (k * Z.pos time_window))%Z
      with (t + (- (f / (k * Z.pos time_window) * k)) * Z.pos time_window)%Z
      by ring.
    rewrite Z.mod_add by lia.
    pose proof (Z.div_mod t (Z.pos time_window) ltac:(lia)). lia. }
  intros c b. rewrite velocity_key_rows.
  split.
  - intros (i & cell & t & f & H1 & H2 & H3 & H4 & ->).
    exists i, cell, t. rewrite Hfloor. auto.
  - intros (i & cell & t & H1 & H2 & H3 & ->).
    destruct (min_time ts) as [f|] eqn:E.
    + exists i, cell, t, f. rewrite Hfloor. auto.
    + apply nth_error_In in H3. now apply (min_time_none ts E) in H3.
Qed.

Lemma velocity_buckets_of_day_divisor_witness :
  exists out,
    calculate_velocity_metrics tx_scenario hour_ns None = Ok out
    /\ In (KStr "a", 3600000000000%Z) (map fst out).
Proof.
  destruct (velocity_buckets_of_day_divisor tx_scenario hour_ns
              [Str "a"; Str "a"; Str "b"; Str "a"]
              [Time 0; Time 1000; Time 3600000000000; Time 3700000000000]
              (nums [1; 2; 3; 4]) (nums [5; -3; 0; 7])
              [Some 0; Some 1000; Some 3600000000000; Some 3700000000000]%Z
              [Fin 5; Fin (-3); Fin 0; Fin 7]
              eq_refl eq_refl eq_refl eq_refl eq_refl eq_refl)
    as (out & Hout & Hk).
  - exists 24%Z. reflexivity.
  - exists out. split; [exact Hout|].
    apply Hk. exists 3%nat, (Str "a"), 3700000000000%Z.
    repeat split; reflexivity.
Defined.

(** *** Counting *)

Lemma datetime_present (dates : Series) :
  forall ts, to_datetime_values dates = Ok ts ->
             map is_some ts = map present dates.
Proof.
  unfold to_datetime_values.
  induction dates as [|d dates IH]; intros ts H.
  - inversion H. reflexivity.
  - apply map_result_cons_inv in H. destruct H as (y & v' & -> & Hy & H).
    cbn [map]. f_equal; [|now apply IH].
    destruct d; inversion Hy; reflexivity.
Qed.

Lemma keyed_present_zip (cust : Series) :
  forall (dates tid : Series) (bins : list (option Z)),
    map is_some bins = map present dates ->
    keyed_present (zip_keys (map key_of_cell cust) bins) tid
    = complete_rows cust dates tid.
Proof.
  unfold keyed_present, complete_rows, zip_keys.
  induction cust as [|c cust IH]; intros dates tid bins H; [reflexivity|].
  destruct dates as [|d dates]; destruct bins as [|b bins]; try discriminate.
  - reflexivity.
  - destruct tid as [|x tid]; [reflexivity|].
    cbn [map] in H. inversion H as [[Hb Hrest]].
    pose proof (IH dates tid bins Hrest) as IH'.
    cbn [map combine filter fst snd].
    destruct c, b, d; try discriminate Hb;
      cbn [key_of_cell present andb]; destruct (present x);
      cbn [List.length]; try f_equal; exact IH'.
Qed.

(** X12.  Summed over the rows of the velocity frame, the transaction
    counts are the number of transactions that have a customer, a date
    and a transaction id: each of them is counted in exactly one row. *)
Theorem velocity_counts_total (data : DataFrame) (time_window : positive)
  (cust dates tid amt : Series) (ts : list (option Z)) (av : list float64) :
  well_formed data = true ->
  lookup "customer_id" (columns data) = Some cust ->
  lookup "transaction_date" (columns data) = Some dates ->
  lookup "transaction_id" (columns data) = Some tid ->
  lookup "amount" (columns data) = Some amt ->
  to_datetime_values dates = Ok ts ->
  to_numeric amt = Ok av ->
  exists out,
    calculate_velocity_metrics data time_window None = Ok out
    /\ list_sum (map velocity_count out) = complete_rows cust dates tid.
Proof.
  intros Hwf Hc Hd Ht Ha Hts Hav. eexists. split.
  { unfold calculate_velocity_metrics. cbn [truthy bind].
    exact (velocity_groupby_ok data time_window _ _ _ _ _ _ Hc Hd Ht Ha Hts Hav). }
  rewrite map_map. unfold velocity_count. cbn [fst snd].
  rewrite (groupby_counts_total (pair_compare key_compare Z.compare)
             canonical_pair pair_compare_eq pair_compare_refl
             pair_compare_antisym pair_compare_trans
             _ (velocity_keys_good time_window cust ts) tid).
  - unfold velocity_keys. apply keyed_present_zip.
    rewrite grouper_bins_some. now apply datetime_present.
  - unfold velocity_keys, zip_keys.
    rewrite length_map, length_combine, length_map, grouper_bins_length.
    unfold to_datetime_values in Hts.
    rewrite (map_result_length _ _ _ Hts).
    rewrite (well_formed_lookup data _ _ Hwf Hc).
    rewrite (well_formed_lookup data _ _ Hwf Hd).
    rewrite (well_formed_lookup data _ _ Hwf Ht). lia.
Qed.

Lemma velocity_counts_total_witness :
  exists out,
    calculate_velocity_metrics tx_scenario hour_ns None = Ok out
    /\ list_sum (map velocity_count out) = 4%nat.
Proof.
  destruct (velocity_counts_total tx_scenario hour_ns
              [Str "a"; Str "a"; Str "b"; Str "a"]
              [Time 0; Time 1000; Time 3600000000000; Time 3700000000000]
              (nums [1; 2; 3; 4]) (nums [5; -3; 0; 7])
              [Some 0; Some 1000; Some 3600000000000; Some 3700000000000]%Z
              [Fin 5; Fin (-3); Fin 0; Fin 7]
              eq_refl eq_refl eq_refl eq_refl eq_refl eq_refl eq_refl)
    as (out & Hout & Hsum).
  exists out. split; [exact Hout|]. rewrite Hsum. reflexivity.
Defined.

(** *** The amount filter *)

Lemma take_mask_length_eq {A B : Type} (m : list bool) :
  forall (l1 : list A) (l2 : list B),
    List.length l1 = List.length l2 ->
    List.length (take_mask m l1) = List.length (take_mask m l2).
Proof.
  induction m as [|b m IH]; intros l1 l2 H; [reflexivity|].
  destruct l1, l2; try discriminate; [reflexivity|].
  cbn [take_mask]. injection H as H.
  destruct b; cbn [List.length]; [f_equal|]; now apply IH.
Qed.

Lemma filtered_groupby (data : DataFrame) (w : positive)
  (cust dates tid amt : Series) (ts : list (option Z)) (av : list float64)
  (m : list bool) :
  lookup "customer_id" (columns data) = Some cust ->
  lookup "transaction_date" (columns data) = Some dates ->
  lookup "transaction_id" (columns data) = Some tid ->
  lookup "amount" (columns data) = Some amt ->
  to_datetime_values dates = Ok ts ->
  to_numeric amt = Ok av ->
  velocity_groupby (getitem_mask data m) w
  = Ok (map (fun g =>
               (fst g,
                (count (take_mask (snd g) (take_mask m tid)),
                 sum (take_mask (snd g) (take_mask m av)),
                 mean (take_mask (snd g) (take_mask m av)))))
            (groupby (pair_compare key_compare Z.compare)
                     (velocity_keys w (take_mask m cust) (take_mask m ts)))).
Proof.
  intros Hc Hd Ht Ha Hts Hav.
  apply (velocity_groupby_ok (getitem_mask data m) w
           (take_mask m cust) (take_mask m dates) (take_mask m tid)
           (take_mask m amt)).
  - now rewrite lookup_getitem_mask, Hc.
  - now rewrite lookup_getitem_mask, Hd.
  - now rewrite lookup_getitem_mask, Ht.
  - now rewrite lookup_getitem_mask, Ha.
  - now apply map_result_take_mask.
  - now apply map_result_take_mask.
Qed.



(** X14.  A threshold of NaN is true for Python, and no amount is above
    NaN: the filter runs and keeps no row, so the grouping is that of a
    frame without rows, whatever the transactions are. *)
Theorem velocity_nan_threshold (data : DataFrame) (time_window : positive)
  (amt : Series) (av : list float64) :
  lookup "amount" (columns data) = Some amt ->
  to_numeric amt = Ok av ->
  exists kept,
    filter_amount data NaN = Ok kept
    /\ nrows kept = 0%nat
    /\ iterrows kept = []
    /\ map fst (columns kept) = map fst (columns data)
    /\ (forall name s, lookup name (columns kept) = Some s -> s = [])
    /\ calculate_velocity_metrics data time_window (Some NaN)
       = velocity_groupby kept time_window.
Proof.
  intros Ha Hav.
  exists (getitem_mask data (repeat false (List.length av))).
  assert (Hkept : filter_amount data NaN
                  = Ok (getitem_mask data (repeat false (List.length av)))).
  { unfold filter_amount, getitem. rewrite Ha. cbn [bind]. rewrite Hav.
    cbn [bind]. now rewrite gt_scalar_nan. }
  assert (Hn0 : nrows (getitem_mask data (repeat false (List.length av)))
                = 0%nat).
  { apply count_true_repeat_false. }
  split; [exact Hkept|]. split; [exact Hn0|]. split; [|split; [|split]].
  - unfold iterrows. now rewrite Hn0.
  - apply getitem_mask_names.
  - intros name s Hs. rewrite lookup_getitem_mask in Hs.
    destruct (lookup name (columns data)) as [s0|]; [|discriminate].
    cbn [option_map] in Hs. inversion Hs. apply take_mask_all_false.
  - rewrite (calculate_velocity_metrics_filters data time_window NaN eq_refl).
    now rewrite Hkept.
Qed.

Lemma velocity_nan_threshold_witness :
  exists kept,
    filter_amount tx_scenario NaN = Ok kept
    /\ nrows kept = 0%nat
    /\ calculate_velocity_metrics tx_scenario hour_ns (Some NaN)
       = velocity_groupby kept hour_ns.
Proof.
  destruct (velocity_nan_threshold tx_scenario hour_ns
              (nums [5; -3; 0; 7]) [Fin 5; Fin (-3); Fin 0; Fin 7]
              eq_refl eq_refl) as (kept & H1 & H2 & _ & _ & _ & H3).
  exists kept. auto.
Defined.

(** *** Errors *)

Lemma to_datetime_error (s : Series) :
  is_ok (to_datetime_values s) = false ->
  to_datetime_values s = Raise TypeError.
Proof.
  induction s as [|c s IH]; [discriminate|].
  unfold to_datetime_values in *. cbn [map_result].
  destruct c; cbn [cell_time bind]; try reflexivity.
  - destruct (map_result cell_time s); [discriminate|].
    intros _. now rewrite IH.
  - destruct (map_result cell_time s); [discriminate|].
    intros _. now rewrite IH.
Qed.

(** X15.  Without a threshold [calculate_velocity_metrics] returns
    exactly when the frame has the four columns, the dates are
    timestamps and the amounts are numbers.  The group keys are looked
    up first: a missing [customer_id] is the [KeyError] raised whatever
    else is wrong, and dates that are not timestamps are a [TypeError]
    before the aggregated columns are looked at.  With a threshold that
    Python takes for true the filter runs first, and a missing [amount]
    is the [KeyError] raised. *)
Theorem calculate_velocity_metrics_errors (data : DataFrame)
  (time_window : positive) :
  (is_ok (calculate_velocity_metrics data time_window None) = true
   <-> has_column data "customer_id" = true
       /\ datetime_column data "transaction_date" = true
       /\ has_column data "transaction_id" = true
       /\ numeric_column data "amount" = true)
  /\ (has_column data "customer_id" = false ->
      calculate_velocity_metrics data time_window None
      = Raise (KeyError "customer_id"))
  /\ (has_column data "customer_id" = true ->
      has_column data "transaction_date" = true ->
      datetime_column data "transaction_date" = false ->
      calculate_velocity_metrics data time_window None = Raise TypeError)
  /\ (forall t, float_bool t = true ->
       has_column data "amount" = false ->
       calculate_velocity_metrics data time_window (Some t)
       = Raise (KeyError "amount")).
Proof.
  split; [|split; [|split]].
  - unfold calculate_velocity_metrics. cbn [truthy bind].
    unfold velocity_groupby, getitem, has_column, datetime_column,
      numeric_column.
    destruct (lookup "customer_id" (columns data)); cbn [bind is_ok];
      [|split; [discriminate|intros [H _]; discriminate]].
    destruct (lookup "transaction_date" (columns data)) as [d|]; cbn [bind is_ok];
      [|split; [discriminate|intros (_ & H & _); discriminate]].
    destruct (to_datetime_values d); cbn [bind is_ok];
      [|split; [discriminate|intros (_ & H & _); discriminate]].
    destruct (lookup "transaction_id" (columns data)); cbn [bind is_ok];
      [|split; [discriminate|intros (_ & _ & H & _); discriminate]].
    destruct (lookup "amount" (columns data)) as [am|]; cbn [bind is_ok];
      [|split; [discriminate|intros (_ & _ & _ & H); discriminate]].
    destruct (to_numeric am); cbn [bind is_ok]; [tauto|].
    split; [discriminate|intros (_ & _ & _ & H); discriminate].
  - unfold calculate_velocity_metrics. cbn [truthy bind].
    unfold velocity_groupby, getitem, has_column.
    destruct (lookup "customer_id" (columns data)); [discriminate|reflexivity].
  - unfold calculate_velocity_metrics. cbn [truthy bind].
    unfold velocity_groupby, getitem, has_column, datetime_column.
    destruct (lookup "customer_id" (columns data)); [|discriminate].
    destruct (lookup "transaction_date" (columns data)) as [d|]; [|discriminate].
    intros _ _ H. cbn [bind]. now rewrite (to_datetime_error d H).
  - intros t Ht. rewrite (calculate_velocity_metrics_filters data time_window t Ht).
    unfold filter_amount, getitem, has_column.
    destruct (lookup "amount" (columns data)); [discriminate|reflexivity].
Qed.

End VelocityMore.

(* ================================================================= *)
(** ** The present values of a column *)

Module AnomalyMore.
Import Pd Spec More PdFacts.

Lemma dropna_length_le (v : list float64) :
  (List.length (dropna v) <= List.length v)%nat.
Proof.
  induction v as [|x v IH]; [apply Nat.le_refl|].
  destruct x; cbn [dropna List.length]; lia.
Qed.

End AnomalyMore.

(* ================================================================= *)
(** ** More on the cleaning of numeric columns *)

Module CleanMore.
Import Pd Spec More PdFacts AnomalyFacts CleanFacts CreditMore AnomalyMore
       DataLoader.

(** *** Order statistics are values of the column *)

Lemma Qinsert_perm (x : Q) (l : list Q) : Permutation (Qinsert x l) (x :: l).
Proof.
  induction l as [|h l IH]; cbn [Qinsert]; [reflexivity|].
  destruct (Qle_bool x h); [reflexivity|].
  rewrite IH. apply perm_swap.
Qed.

Lemma Qsort_perm (l : list Q) : Permutation (Qsort l) l.
Proof.
  induction l as [|x l IH]; [reflexivity|].
  unfold Qsort in *. cbn [fold_right]. rewrite Qinsert_perm. now constructor.
Qed.

Lemma Qsort_length (l : list Q) : List.length (Qsort l) = List.length l.
Proof. apply Permutation_length, Qsort_perm. Qed.

Lemma sorted_within (lo hi : Q) (v : list float64) :
  within lo hi v -> forall q, In q (Qsort (dropna v)) -> lo <= q <= hi.
Proof.
  intros Hw q Hq. apply Hw, in_dropna.
  exact (Permutation_in _ (Qsort_perm _) Hq).
Qed.

Lemma median_nan_iff (v : list float64) : median v = NaN <-> dropna v = [].
Proof.
  unfold median. rewrite Qsort_length.
  destruct (dropna v) as [|x l]; [tauto|].
  cbn [List.length]. split; [|discriminate].
  destruct (Nat.even (S (List.length l))); discriminate.
Qed.

Lemma quantile_nan_iff (v : list float64) (p : Q) :
  quantile v p = NaN <-> dropna v = [].
Proof.
  unfold quantile. pose proof (Qsort_length (dropna v)) as Hlen.
  destruct (dropna v) as [|x l].
  - destruct (Qsort []); [tauto|discriminate].
  - destruct (Qsort (x :: l)); [discriminate|].
    split; discriminate.
Qed.

Lemma median_within (lo hi : Q) (v : list float64) (m : Q) :
  within lo hi v -> median v = Fin m -> lo <= m <= hi.
Proof.
  intros Hw Hm. pose proof (sorted_within lo hi v Hw) as Hs.
  unfold median in Hm. set (s := Qsort (dropna v)) in *.
  destruct (List.length s) as [|k] eqn:Ek; [discriminate|].
  assert (Hhalf : (S k / 2 < List.length s)%nat).
  { rewrite Ek. apply Nat.div_lt; lia. }
  set (j := (S k / 2)%nat) in *.
  pose proof (Hs _ (nth_In s 0 Hhalf)) as H2.
  destruct (Nat.even (S k)).
  - assert (Hprev : (j - 1 < List.length s)%nat) by lia.
    pose proof (Hs _ (nth_In s 0 Hprev)) as H1.
    injection Hm as <-. destruct H1, H2.
    split.
    + apply Qle_shift_div_l; [reflexivity|]. Lqa.lra.
    + apply Qle_shift_div_r; [reflexivity|]. Lqa.lra.
  - injection Hm as <-. exact H2.
Qed.

Lemma quantile_within (lo hi : Q) (v : list float64) (p u : Q) :
  0 <= p <= 1 ->
  within lo hi v -> quantile v p = Fin u -> lo <= u <= hi.
Proof.
  intros Hp Hw Hu. pose proof (sorted_within lo hi v Hw) as Hs.
  unfold quantile in Hu. set (s := Qsort (dropna v)) in *.
  destruct s as [|x0 s0] eqn:Es; [discriminate|]. rewrite <- Es in *.
  assert (Hlen : (1 <= List.length s)%nat) by (rewrite Es; cbn; lia).
  set (top := inject_Z (Z.of_nat (List.length s - 1))) in *.
  set (pos := p * top) in *.
  assert (Htop : 0 <= top).
  { unfold top. change 0 with (inject_Z 0). rewrite <- Zle_Qle. lia. }
  assert (Hpos0 : 0 <= pos) by (apply Qmult_le_0_compat; tauto).
  assert (Hpos1 : pos <= top).
  { unfold pos. rewrite <- (Qmult_1_l top) at 2.
    apply Qmult_le_compat_r; tauto. }
  assert (Hf0 : (0 <= Qfloor pos)%Z).
  { change 0%Z with (Qfloor 0). now apply Qfloor_resp_le. }
  assert (Hf1 : (Qfloor pos <= Z.of_nat (List.length s - 1))%Z).
  { rewrite <- (Qfloor_Z (Z.of_nat (List.length s - 1))).
    now apply Qfloor_resp_le. }
  set (i := Z.to_nat (Qfloor pos)) in *.
  assert (Hi : (i < List.length s)%nat) by (unfold i; lia).
  pose proof (Hs _ (nth_In s 0 Hi)) as Ha.
  set (a := nth i s 0) in *.
  assert (Hb : lo <= nth (S i) s a <= hi).
  { destruct (Nat.lt_ge_cases (S i) (List.length s)) as [Hlt|Hge].
    - rewrite (nth_indep s a 0 Hlt). exact (Hs _ (nth_In s 0 Hlt)).
    - rewrite (nth_overflow s a Hge). exact Ha. }
  set (b := nth (S i) s a) in *.
  set (frac := pos - inject_Z (Qfloor pos)) in *.
  assert (Hfrac0 : 0 <= frac).
  { unfold frac. pose proof (Qfloor_le pos). Lqa.lra. }
  assert (Hfrac1 : frac <= 1).
  { unfold frac. pose proof (Qlt_floor pos) as H.
    rewrite inject_Z_plus in H. change (inject_Z 1) with 1 in H. Lqa.lra. }
  injection Hu as <-. destruct Ha as [Ha1 Ha2], Hb as [Hb1 Hb2].
  assert (H1 : 0 <= (1 - frac) * (a - lo))
    by (apply Qmult_le_0_compat; Lqa.lra).
  assert (H2 : 0 <= frac * (b - lo)) by (apply Qmult_le_0_compat; Lqa.lra).
  assert (H3 : 0 <= (1 - frac) * (hi - a))
    by (apply Qmult_le_0_compat; Lqa.lra).
  assert (H4 : 0 <= frac * (hi - b)) by (apply Qmult_le_0_compat; Lqa.lra).
  split.
  - assert (E : a + (b - a) * frac - lo
                == (1 - frac) * (a - lo) + frac * (b - lo)) by ring.
    Lqa.lra.
  - assert (E : hi - (a + (b - a) * frac)
                == (1 - frac) * (hi - a) + frac * (hi - b)) by ring.
    Lqa.lra.
Qed.

(** *** One cleaning *)

Lemma fillna_within (lo hi : Q) (v : list float64) :
  within lo hi v -> within lo hi (fillna v (median v)).
Proof.
  intros Hw q Hq. unfold fillna in Hq.
  destruct (median v) as [m|] eqn:Em; [|now apply Hw].
  apply in_map_iff in Hq. destruct Hq as ([x|] & E & Hx).
  - inversion E; subst. now apply Hw.
  - inversion E; subst. exact (median_within lo hi v q Hw Em).
Qed.

Lemma clip_upper_within (lo hi : Q) (w : list float64) (u : float64) :
  within lo hi w -> (forall p, u = Fin p -> lo <= p <= hi) ->
  within lo hi (clip_upper w u).
Proof.
  intros Hw Hu q Hq. unfold clip_upper in Hq.
  destruct u as [p|]; [|now apply Hw].
  apply in_map_iff in Hq. destruct Hq as ([x|] & E & Hx); [|discriminate].
  destruct (Qltb p x).
  - inversion E; subst. now apply Hu.
  - inversion E; subst. now apply Hw.
Qed.

Lemma percentile_99 : 0 <= 99 # 100 <= 1.
Proof. split; discriminate. Qed.

Lemma cleaned_within (lo hi : Q) (v : list float64) :
  within lo hi v -> within lo hi (cleaned v).
Proof.
  intro Hw. unfold cleaned.
  pose proof (fillna_within lo hi v Hw) as Hf.
  apply clip_upper_within; [exact Hf|].
  intros p Hp. exact (quantile_within lo hi _ _ p percentile_99 Hf Hp).
Qed.

Lemma cleaned_present (v : list float64) (i : nat) (q : Q) :
  nth_error v i = Some (Fin q) ->
  exists q', nth_error (cleaned v) i = Some (Fin q') /\ q' <= q.
Proof.
  intro H. pose proof (fillna_nth v i _ H) as Hf. cbn in Hf.
  unfold cleaned.
  rewrite (clip_upper_nth _ (quantile (fillna v (median v)) (99 # 100)) i _ Hf).
  destruct (quantile (fillna v (median v)) (99 # 100)) as [p|].
  - destruct (Qltb p q) eqn:E.
    + exists p. split; [reflexivity|]. apply Qltb_lt in E. Lqa.lra.
    + exists q. split; [reflexivity|apply Qle_refl].
  - exists q. split; [reflexivity|apply Qle_refl].
Qed.

Lemma fillna_full (v : list float64) :
  dropna v <> [] -> forall x, In x (fillna v (median v)) -> x <> NaN.
Proof.
  intros Hne x Hx. destruct (median v) as [m|] eqn:Em.
  - unfold fillna in Hx. apply in_map_iff in Hx.
    destruct Hx as ([y|] & <- & _); discriminate.
  - apply median_nan_iff in Em. contradiction.
Qed.

Lemma cleaned_full (v : list float64) :
  dropna v <> [] -> forall x, In x (cleaned v) -> x <> NaN.
Proof.
  intros Hne x Hx. unfold cleaned in Hx.
  pose proof (fillna_full v Hne) as Hf.
  destruct (quantile (fillna v (median v)) (99 # 100)) as [p|];
    [|now apply Hf].
  unfold clip_upper in Hx. apply in_map_iff in Hx.
  destruct Hx as ([y|] & <- & Hy).
  - destruct (Qltb p y); discriminate.
  - now apply Hf in Hy.
Qed.

Lemma cleaned_all_missing (v : list float64) :
  dropna v = [] -> cleaned v = v.
Proof.
  intro He. unfold cleaned.
  assert (Em : median v = NaN) by now apply median_nan_iff.
  rewrite Em. cbn [fillna].
  assert (Eq : quantile v (99 # 100) = NaN) by now apply quantile_nan_iff.
  rewrite Eq. reflexivity.
Qed.

(** *** Repeated cleanings *)

Lemma iter_cleaned_within (lo hi : Q) (n : nat) (v : list float64) :
  within lo hi v -> within lo hi (Nat.iter n cleaned v).
Proof.
  intro Hw. induction n as [|n IH]; [exact Hw|].
  change (Nat.iter (S n) cleaned v) with (cleaned (Nat.iter n cleaned v)).
  now apply cleaned_within.
Qed.

Lemma iter_cleaned_present (n : nat) (v : list float64) (i : nat) (q : Q) :
  nth_error v i = Some (Fin q) ->
  exists q', nth_error (Nat.iter n cleaned v) i = Some (Fin q') /\ q' <= q.
Proof.
  intro H. induction n as [|n (q1 & H1 & Hle1)].
  - exists q. split; [exact H|apply Qle_refl].
  - change (Nat.iter (S n) cleaned v) with (cleaned (Nat.iter n cleaned v)).
    destruct (cleaned_present _ i q1 H1) as (q2 & H2 & Hle2).
    exists q2. split; [exact H2|]. Lqa.lra.
Qed.

Lemma iter_cleaned_full (n : nat) (v : list float64) :
  dropna v <> [] ->
  forall x, In x (Nat.iter (S n) cleaned v) -> x <> NaN.
Proof.
  intros Hne.
  change (Nat.iter (S n) cleaned v) with (cleaned (Nat.iter n cleaned v)).
  apply cleaned_full.
  destruct (dropna v) as [|q l] eqn:E; [congruence|].
  assert (Hq : In (Fin q) v) by (apply in_dropna; rewrite E; now left).
  apply In_nth_error in Hq. destruct Hq as [i Hi].
  destruct (iter_cleaned_present n v i q Hi) as (q' & Hq' & _).
  apply nth_error_In in Hq'. apply dropna_in in Hq'.
  intro E'. rewrite E' in Hq'. contradiction.
Qed.

Lemma iter_cleaned_all_missing (n : nat) (v : list float64) :
  dropna v = [] -> Nat.iter n cleaned v = v.
Proof.
  intro He. induction n as [|n IH]; [reflexivity|].
  change (Nat.iter (S n) cleaned v) with (cleaned (Nat.iter n cleaned v)).
  rewrite IH. now apply cleaned_all_missing.
Qed.

(** The values of a listed column after [clean_numeric]. *)
Lemma clean_numeric_values (df : DataFrame) (names : list string) :
  listed_numeric df names = true ->
  exists df',
    clean_numeric df names = Ok df'
    /\ forall c,
         lookup c (columns df')
         = match lookup c (columns df) with
           | None => None
           | Some s =>
               match count_occ string_dec names c with
               | O => Some s
               | S k => Some (map of_float
                                (Nat.iter (S k) cleaned (values_of df c)))
               end
           end.
Proof.
  intro H. destruct (clean_numeric_loop names df H) as (df' & H1 & _ & _ & H2).
  eauto.
Qed.

Lemma clean_numeric_listed (df df' : DataFrame) (names : list string)
  (c : string) (s : Series) (k : nat) :
  lookup c (columns df) = Some s ->
  count_occ string_dec names c = S k ->
  (forall c,
      lookup c (columns df')
      = match lookup c (columns df) with
        | None => None
        | Some s =>
            match count_occ string_dec names c with
            | O => Some s
            | S k => Some (map of_float
                             (Nat.iter (S k) cleaned (values_of df c)))
            end
        end) ->
  values_of df' c = Nat.iter (S k) cleaned (values_of df c).
Proof.
  intros Hs Hk Hcols. unfold values_of at 1.
  rewrite Hcols, Hs, Hk. now rewrite to_numeric_of_float.
Qed.



(** X19.  After [clean_numeric] a listed column of the frame has no
    missing value, provided it had one present value to take the median
    of; a listed column without any present value is left as it was. *)
Theorem clean_numeric_fills (df : DataFrame) (numeric_columns : list string)
  (c : string) :
  listed_numeric df numeric_columns = true ->
  In c numeric_columns ->
  has_column df c = true ->
  exists df',
    clean_numeric df numeric_columns = Ok df'
    /\ (dropna (values_of df c) <> [] ->
        forall x, In x (values_of df' c) -> x <> NaN)
    /\ (dropna (values_of df c) = [] ->
        lookup c (columns df') = lookup c (columns df)).
Proof.
  intros Hnum Hin Hhas.
  destruct (clean_numeric_values df numeric_columns Hnum) as (df' & Hrun & Hcols).
  exists df'. split; [exact Hrun|].
  apply has_column_true in Hhas. destruct Hhas as (s & Hs).
  assert (Hns : numeric_column df c = true).
  { unfold listed_numeric in Hnum. rewrite forallb_forall in Hnum.
    specialize (Hnum c Hin). unfold has_column in Hnum. rewrite Hs in Hnum.
    exact Hnum. }
  apply (count_occ_In string_dec) in Hin.
  destruct (count_occ string_dec numeric_columns c) as [|k] eqn:Ek; [lia|].
  split.
  - intro Hne.
    rewrite (clean_numeric_listed df df' numeric_columns c s k Hs Ek Hcols).
    now apply iter_cleaned_full.
  - intro He. rewrite Hcols, Hs, Ek.
    rewrite (iter_cleaned_all_missing (S k) _ He). f_equal.
    destruct (numeric_column_values _ _ Hns) as (s' & Hs' & Hv).
    rewrite Hs in Hs'. inversion Hs'; subst s'.
    now apply of_float_values.
Qed.

Lemma clean_numeric_fills_witness :
  exists df',
    clean_numeric amounts_dirty ["amount"; "balance"] = Ok df'
    /\ forall x, In x (values_of df' "amount") -> x <> NaN.
Proof.
  destruct (clean_numeric_fills amounts_dirty ["amount"; "balance"] "amount")
    as (df' & Hrun & Hfull & _).
  - reflexivity.
  - now left.
  - reflexivity.
  - exists df'. split; [exact Hrun|]. apply Hfull. discriminate.
Defined.

(** X20.  The columns are cleaned one by one and independently: listing
    the same columns in another order gives the same frame, column by
    column. *)
Theorem clean_numeric_order (df : DataFrame) (names1 names2 : list string) :
  Permutation names1 names2 ->
  listed_numeric df names1 = true ->
  exists df1 df2,
    clean_numeric df names1 = Ok df1
    /\ clean_numeric df names2 = Ok df2
    /\ nrows df1 = nrows df2
    /\ map fst (columns df1) = map fst (columns df2)
    /\ forall c, lookup c (columns df1) = lookup c (columns df2).
Proof.
  intros Hperm Hnum.
  assert (Hnum2 : listed_numeric df names2 = true).
  { unfold listed_numeric in *. rewrite forallb_forall in *.
    intros c Hc. apply Hnum. now apply (Permutation_in _ (Permutation_sym Hperm)). }
  destruct (clean_numeric_loop names1 df Hnum) as (df1 & H1 & Hr1 & Hn1 & Hc1).
  destruct (clean_numeric_loop names2 df Hnum2) as (df2 & H2 & Hr2 & Hn2 & Hc2).
  exists df1, df2. split; [exact H1|]. split; [exact H2|].
  split; [congruence|]. split; [congruence|].
  intro c. rewrite Hc1, Hc2.
  now rewrite (proj1 (Permutation_count_occ string_dec names1 names2) Hperm c).
Qed.

Lemma clean_numeric_order_witness :
  exists df1 df2,
    clean_numeric amounts_dirty ["amount"; "transaction_id"] = Ok df1
    /\ clean_numeric amounts_dirty ["transaction_id"; "amount"] = Ok df2
    /\ nrows df1 = nrows df2
    /\ map fst (columns df1) = map fst (columns df2)
    /\ forall c, lookup c (columns df1) = lookup c (columns df2).
Proof.
  apply (clean_numeric_order amounts_dirty).
  - apply perm_swap.
  - reflexivity.
Defined.

(** *** How many values the cap lowers *)

Lemma Qinsert_sorted (x : Q) (l : list Q) :
  StronglySorted Qle l -> StronglySorted Qle (Qinsert x l).
Proof.
  induction 1 as [|h t Ht IH Hh]; cbn [Qinsert].
  - constructor; constructor.
  - destruct (Qle_bool x h) eqn:E.
    + apply Qle_bool_iff in E. constructor; [now constructor|].
      constructor; [exact E|].
      apply (Forall_impl _ (fun y Hy => Qle_trans _ _ _ E Hy) Hh).
    + assert (Hhx : h <= x).
      { destruct (Qlt_le_dec h x) as [Hlt|Hle]; [now apply Qlt_le_weak|].
        apply Qle_bool_iff in Hle. congruence. }
      constructor; [exact IH|].
      apply (Permutation_Forall (Permutation_sym (Qinsert_perm x t))).
      now constructor.
Qed.

Lemma Qsort_sorted (l : list Q) : StronglySorted Qle (Qsort l).
Proof.
  induction l as [|x l IH]; [constructor|].
  unfold Qsort in *. cbn [fold_right]. now apply Qinsert_sorted.
Qed.

Lemma Qltb_irrefl_le (x y : Q) : y <= x -> Qltb x y = false.
Proof. intro H. now apply Qltb_ge. Qed.

Lemma filter_length_mono {A : Type} (f g : A -> bool) (l : list A) :
  (forall x, f x = true -> g x = true) ->
  (List.length (filter f l) <= List.length (filter g l))%nat.
Proof.
  intro H. induction l as [|x l IH]; [apply Nat.le_refl|].
  cbn [filter]. destruct (f x) eqn:E.
  - rewrite (H x E). cbn [List.length]. lia.
  - destruct (g x); cbn [List.length]; lia.
Qed.

(** In an ascending list at most the entries after position [i] are
    above the entry at position [i]. *)
Lemma sorted_above_nth (s : list Q) :
  StronglySorted Qle s ->
  forall i, (i < List.length s)%nat ->
    (List.length (filter (Qltb (nth i s 0%Q)) s) <= List.length s - S i)%nat.
Proof.
  induction 1 as [|h t Ht IH Hh]; intros i Hi; [cbn in Hi; lia|].
  destruct i as [|i]; cbn [nth filter].
  - rewrite (Qltb_irrefl_le h h (Qle_refl h)).
    pose proof (filter_length_le (Qltb h) t). cbn [List.length]. lia.
  - cbn [List.length] in Hi.
    assert (Hle : h <= nth i t 0).
    { rewrite Forall_forall in Hh. apply Hh. apply nth_In. lia. }
    rewrite (Qltb_irrefl_le _ _ Hle).
    specialize (IH i ltac:(lia)). cbn [List.length]. lia.
Qed.

Lemma sorted_nth_le (s : list Q) :
  StronglySorted Qle s ->
  forall i j, (i <= j < List.length s)%nat -> nth i s 0 <= nth j s 0.
Proof.
  induction 1 as [|h t Ht IH Hh]; intros i j Hij; [cbn in Hij; lia|].
  cbn [List.length] in Hij.
  destruct i as [|i], j as [|j]; cbn [nth]; try lia.
  - apply Qle_refl.
  - rewrite Forall_forall in Hh. apply Hh. apply nth_In. lia.
  - apply IH. lia.
Qed.

Lemma above_perm (p : Q) (l l' : list Q) :
  Permutation l l' ->
  List.length (filter (Qltb p) l) = List.length (filter (Qltb p) l').
Proof.
  induction 1 as [|x l l' _ IH|x y l|l l' l'' _ IH1 _ IH2].
  - reflexivity.
  - cbn [filter]. destruct (Qltb p x); cbn [List.length]; now rewrite IH.
  - cbn [filter]. destruct (Qltb p x), (Qltb p y); reflexivity.
  - now rewrite IH1.
Qed.

(** At most one value in a hundred, rounded up, is above the 99th
    percentile. *)
Lemma above_quantile (f : list float64) (p : Q) :
  quantile f (99 # 100) = Fin p ->
  (100 * above p f <= List.length (dropna f) + 98)%nat.
Proof.
  intro Hq. unfold above.
  rewrite <- (above_perm p _ _ (Qsort_perm (dropna f))).
  rewrite <- (Qsort_length (dropna f)).
  pose proof (Qsort_sorted (dropna f)) as Hsorted.
  unfold quantile in Hq. set (s := Qsort (dropna f)) in *.
  destruct s as [|x0 s0] eqn:Es; [discriminate|]. rewrite <- Es in *.
  assert (Hlen : (1 <= List.length s)%nat) by (rewrite Es; cbn; lia).
  set (top := inject_Z (Z.of_nat (List.length s - 1))) in *.
  set (pos := (99 # 100) * top) in *.
  assert (Htop : 0 <= top).
  { unfold top. change 0 with (inject_Z 0). rewrite <- Zle_Qle. lia. }
  assert (Hpos0 : 0 <= pos) by (apply Qmult_le_0_compat; [discriminate|exact Htop]).
  assert (Hpos1 : pos <= top).
  { unfold pos. rewrite <- (Qmult_1_l top) at 2.
    apply Qmult_le_compat_r; [discriminate|exact Htop]. }
  assert (Hf0 : (0 <= Qfloor pos)%Z).
  { change 0%Z with (Qfloor 0). now apply Qfloor_resp_le. }
  assert (Hf1 : (Qfloor pos <= Z.of_nat (List.length s - 1))%Z).
  { rewrite <- (Qfloor_Z (Z.of_nat (List.length s - 1))).
    now apply Qfloor_resp_le. }
  assert (Hf2 : (99 * Z.of_nat (List.length s - 1) < 100 * (Qfloor pos + 1))%Z).
  { pose proof (Qlt_floor pos) as H. unfold pos, top in H |- *.
    rewrite Zlt_Qlt, !inject_Z_mult.
    change (inject_Z 99) with 99. change (inject_Z 100) with 100.
    set (qn := inject_Z (Z.of_nat (List.length s - 1))) in *.
    set (qf := inject_Z (Qfloor ((99 # 100) * qn) + 1)) in *.
    Lqa.lra. }
  set (i := Z.to_nat (Qfloor pos)) in *.
  assert (Hi : (i < List.length s)%nat) by (unfold i; lia).
  set (a := nth i s 0) in *.
  assert (Hab : a <= nth (S i) s a).
  { destruct (Nat.lt_ge_cases (S i) (List.length s)) as [Hlt|Hge].
    - rewrite (nth_indep s a 0 Hlt). apply (sorted_nth_le s Hsorted). lia.
    - rewrite (nth_overflow s a Hge). apply Qle_refl. }
  set (b := nth (S i) s a) in *.
  set (frac := pos - inject_Z (Qfloor pos)) in *.
  assert (Hfrac0 : 0 <= frac).
  { unfold frac. pose proof (Qfloor_le pos). Lqa.lra. }
  injection Hq as <-.
  assert (Hap : a <= a + (b - a) * frac).
  { assert (0 <= (b - a) * frac) by (apply Qmult_le_0_compat; Lqa.lra).
    Lqa.lra. }
  pose proof (sorted_above_nth s Hsorted i Hi) as Hcount. fold a in Hcount.
  assert (Hmono : (List.length (filter (Qltb (a + (b - a) * frac)) s)
                   <= List.length (filter (Qltb a) s))%nat).
  { apply filter_length_mono. intros x Hx.
    apply Qltb_lt in Hx. apply Qltb_lt. Lqa.lra. }
  assert (Hi2 : (99 * (Z.of_nat (List.length s) - 1)
                 < 100 * (Z.of_nat i + 1))%Z).
  { unfold i. rewrite Z2Nat.id by exact Hf0.
    rewrite Nat2Z.inj_sub in Hf2 by exact Hlen. exact Hf2. }
  lia.
Qed.

Lemma above_fillna (p m : Q) (v : list float64) :
  (above p v <= above p (fillna v (Fin m)))%nat.
Proof.
  unfold above, fillna.
  induction v as [|x v IH]; [apply Nat.le_refl|].
  destruct x as [q|]; cbn [map dropna filter].
  - destruct (Qltb p q); cbn [List.length]; lia.
  - destruct (Qltb p m); cbn [List.length]; lia.
Qed.

Lemma lowered_cons (x y : float64) (v w : list float64) :
  lowered (x :: v) (y :: w)
  = ((if match x, y with
          | Fin a, Fin b => Qltb b a
          | _, _ => false
          end then 1 else 0) + lowered v w)%nat.
Proof.
  unfold lowered. cbn [combine filter].
  destruct x as [a|], y as [b|]; try reflexivity.
  destruct (Qltb b a); reflexivity.
Qed.

Lemma above_cons (p : Q) (x : float64) (v : list float64) :
  above p (x :: v)
  = (match x with
     | Fin q => if Qltb p q then 1 else 0
     | NaN => 0
     end + above p v)%nat.
Proof.
  unfold above. destruct x as [q|]; cbn [dropna filter]; [|reflexivity].
  destruct (Qltb p q); reflexivity.
Qed.

Lemma lowered_fillna (v : list float64) (m : float64) :
  lowered v (fillna v m) = 0%nat.
Proof.
  assert (Hsame : forall w : list float64, lowered w w = 0%nat).
  { induction w as [|x w IH]; [reflexivity|].
    rewrite lowered_cons, IH. destruct x as [q|]; [|reflexivity].
    now rewrite (Qltb_irrefl_le q q (Qle_refl q)). }
  unfold fillna. destruct m as [m|]; [|apply Hsame].
  induction v as [|x v IH]; [reflexivity|].
  cbn [map]. rewrite lowered_cons, IH. destruct x as [q|]; [|reflexivity].
  now rewrite (Qltb_irrefl_le q q (Qle_refl q)).
Qed.

Lemma lowered_clip (v : list float64) (m : float64) (p : Q) :
  lowered v (clip_upper (fillna v m) (Fin p)) = above p v.
Proof.
  unfold clip_upper, fillna. destruct m as [m|].
  - rewrite map_map.
    induction v as [|x v IH]; [reflexivity|].
    cbn [map]. rewrite lowered_cons, above_cons, IH.
    destruct x as [q|]; [|reflexivity].
    destruct (Qltb p q) eqn:E; [now rewrite E|].
    now rewrite (Qltb_irrefl_le q q (Qle_refl q)).
  - induction v as [|x v IH]; [reflexivity|].
    cbn [map]. rewrite lowered_cons, above_cons, IH.
    destruct x as [q|]; [|reflexivity].
    destruct (Qltb p q) eqn:E; [now rewrite E|].
    now rewrite (Qltb_irrefl_le q q (Qle_refl q)).
Qed.

Lemma lowered_cleaned (v : list float64) :
  (100 * lowered v (cleaned v) <= List.length v + 98)%nat.
Proof.
  unfold cleaned.
  destruct (quantile (fillna v (median v)) (99 # 100)) as [p|] eqn:Eq.
  - rewrite lowered_clip.
    pose proof (above_quantile _ p Eq) as H.
    pose proof (dropna_length_le (fillna v (median v))) as Hlen.
    rewrite fillna_length in Hlen.
    assert (Hle : (above p v <= above p (fillna v (median v)))%nat).
    { destruct (median v) as [m|]; [apply above_fillna|apply Nat.le_refl]. }
    lia.
  - cbn [clip_upper]. rewrite lowered_fillna. lia.
Qed.



End CleanMore.

(* ================================================================= *)
(** ** The geographic patterns *)

Module GeoFacts.
Import Pd Spec More PdFacts AnomalyFacts GroupFacts SegmentFacts CreditMore
       GroupMore MerchantMore FraudAnalyzer.

Lemma analyze_geographic_patterns_ok (data : DataFrame) (loc tid : Series) :
  lookup "merchant_location" (columns data) = Some loc ->
  lookup "transaction_id" (columns data) = Some tid ->
  numeric_column data "amount" = true ->
  numeric_column data "is_fraud" = true ->
  analyze_geographic_patterns data
  = Ok (map (fun g =>
               (fst g,
                (count (take_mask (snd g) tid),
                 round_decimals 3
                   (mean (take_mask (snd g) (values_of data "amount"))),
                 round_real 3
                   (std (take_mask (snd g) (values_of data "amount"))),
                 round_decimals 3
                   (mean (take_mask (snd g) (values_of data "is_fraud"))))))
            (groupby key_compare (map key_of_cell loc))).
Proof.
  intros Hloc Htid Ha Hf.
  destruct (numeric_column_values _ _ Ha) as (amt & Ha1 & Ha2).
  destruct (numeric_column_values _ _ Hf) as (fr & Hf1 & Hf2).
  unfold analyze_geographic_patterns, getitem.
  rewrite Hloc, Htid, Ha1, Hf1. cbn [bind]. now rewrite Ha2, Hf2.
Qed.

Lemma geo_keys {A : Type} (F : key * list bool -> A)
  (gs : list (key * list bool)) :
  map fst (map (fun g => (fst g, F g)) gs) = map fst gs.
Proof. rewrite map_map. reflexivity. Qed.

(** X22.  The geographic frame has one row per location that occurs in
    the data, in ascending order of the locations; transactions without
    a location are in no row, and the counts of the rows add up to the
    number of transactions that have a location and a transaction id. *)
Theorem geographic_rows (data : DataFrame) (loc tid : Series) :
  well_formed data = true ->
  lookup "merchant_location" (columns data) = Some loc ->
  lookup "transaction_id" (columns data) = Some tid ->
  numeric_column data "amount" = true ->
  numeric_column data "is_fraud" = true ->
  exists out,
    analyze_geographic_patterns data = Ok out
    /\ StronglySorted (cmp_lt key_compare) (map fst out)
    /\ (forall k, In k (map fst out)
                  <-> exists c, In c loc /\ key_of_cell c = Some k)
    /\ list_sum (map geo_count out) = keyed_present (map key_of_cell loc) tid.
Proof.
  intros Hwf Hloc Htid Ha Hf. eexists.
  split; [exact (analyze_geographic_patterns_ok data loc tid Hloc Htid Ha Hf)|].
  destruct (groupby_column loc) as (Hsorted & Hkeys & _).
  rewrite geo_keys. split; [exact Hsorted|]. split; [exact Hkeys|].
  rewrite map_map. unfold geo_count. cbn [fst snd].
  apply (groupby_counts_total key_compare canonical key_compare_eq
           key_compare_refl key_compare_antisym key_compare_trans).
  - apply column_keys_canonical.
  - rewrite length_map.
    rewrite (well_formed_lookup data _ _ Hwf Hloc).
    now rewrite (well_formed_lookup data _ _ Hwf Htid).
Qed.

Lemma geographic_rows_witness :
  exists out,
    analyze_geographic_patterns geo_scenario = Ok out
    /\ map fst out = [KStr "Accra"; KStr "Kumasi"]
    /\ list_sum (map geo_count out) = 4%nat.
Proof.
  destruct (geographic_rows geo_scenario
              [Str "Accra"; Str "Kumasi"; Str "Accra"; NA; Str "Accra"]
              (nums [1; 2; 3; 4; 5])
              eq_refl eq_refl eq_refl eq_refl eq_refl)
    as (out & Hout & _ & _ & Hsum).
  exists out. split; [exact Hout|]. split; [|rewrite Hsum; reflexivity].
  rewrite (analyze_geographic_patterns_ok geo_scenario _ _ eq_refl eq_refl
             eq_refl eq_refl) in Hout.
  injection Hout as <-. reflexivity.
Defined.

(** *** Rounding a standard deviation *)

Lemma rint_real_close (r : R) : (Rabs (r - IZR (rint_real r)) <= 1 / 2)%R.
Proof.
  destruct (archimed r) as [Hup1 Hup2].
  unfold rint_real. set (f := (up r - 1)%Z).
  assert (Hf : IZR f = (IZR (up r) - 1)%R) by (unfold f; now rewrite minus_IZR).
  assert (Hf1 : IZR (f + 1) = IZR (up r))
    by (unfold f; f_equal; lia).
  destruct (Rlt_dec (r - IZR f) (1 / 2)) as [Hlt|Hge].
  - apply Rabs_le. lra.
  - destruct (Rlt_dec (1 / 2) (r - IZR f)) as [Hgt|Hle].
    + rewrite Hf1. apply Rabs_le. lra.
    + destruct (Z.even f).
      * apply Rabs_le. lra.
      * rewrite Hf1. apply Rabs_le. lra.
Qed.

Lemma IZR_pow10_pos (d : nat) : (0 < IZR (10 ^ Z.of_nat d))%R.
Proof. apply IZR_lt. apply Z.pow_pos_nonneg; lia. Qed.

(** [round_real d] returns a multiple of [10^-d] within half a unit of
    the last place; a value that is not negative stays so. *)
Lemma round_real_spec (d : nat) (r : R) :
  exists z : Z,
    round_real d (RFin r) = RFin (IZR z / IZR (10 ^ Z.of_nat d))
    /\ (Rabs (r - IZR z / IZR (10 ^ Z.of_nat d))
        <= 1 / 2 / IZR (10 ^ Z.of_nat d))%R
    /\ ((0 <= r)%R -> (0 <= z)%Z).
Proof.
  pose proof (IZR_pow10_pos d) as Hp. set (P := IZR (10 ^ Z.of_nat d)) in *.
  exists (rint_real (r * P)). split; [reflexivity|].
  pose proof (rint_real_close (r * P)) as Hc.
  set (z := rint_real (r * P)) in *.
  assert (Hc' : (- (1 / 2) <= r * P - IZR z <= 1 / 2)%R).
  { unfold Rabs in Hc. destruct (Rcase_abs (r * P - IZR z)); lra. }
  destruct Hc' as [Hc1 Hc2].
  split.
  - apply Rabs_le.
    assert (E : (r - IZR z / P = (r * P - IZR z) / P)%R) by (field; lra).
    rewrite E. split.
    + apply (Rmult_le_reg_r P); [exact Hp|].
      replace ((r * P - IZR z) / P * P)%R with (r * P - IZR z)%R by (field; lra).
      replace (- (1 / 2 / P) * P)%R with (- (1 / 2))%R by (field; lra).
      lra.
    + apply (Rmult_le_reg_r P); [exact Hp|].
      replace ((r * P - IZR z) / P * P)%R with (r * P - IZR z)%R by (field; lra).
      replace (1 / 2 / P * P)%R with (1 / 2)%R by (field; lra).
      lra.
  - intro Hr.
    assert (H0 : (0 <= r * P)%R) by (apply Rmult_le_pos; lra).
    assert (Hz : (-1 < IZR z)%R) by lra.
    apply lt_IZR in Hz. lia.
Qed.



End GeoFacts.

(* ================================================================= *)
(** ** The date columns *)

Module DatesFacts.
Import Pd Spec More PdFacts AnomalyFacts CleanFacts DataLoader.

Section Loop.
Variable to_datetime : Series -> result Series.

Lemma preprocess_dates_loop_app (pre post : list string) : forall df,
  preprocess_dates_loop to_datetime (pre ++ post)%list df
  = match preprocess_dates_loop to_datetime pre df with
    | (df1, None) => preprocess_dates_loop to_datetime post df1
    | stopped => stopped
    end.
Proof.
  induction pre as [|c pre IH]; intro df; [reflexivity|].
  cbn [app preprocess_dates_loop].
  destruct (lookup c (columns df)) as [s|]; [|apply IH].
  destruct (to_datetime s) as [s'|e]; [apply IH|reflexivity].
Qed.

(** When every listed column of the frame converts, the loop runs to its
    end and converts each of them, once and from its original values. *)
Lemma preprocess_dates_loop_ok (date_columns : list string) : forall df,
  NoDup date_columns ->
  (forall c s, In c date_columns -> lookup c (columns df) = Some s ->
               is_ok (to_datetime s) = true) ->
  exists df',
    preprocess_dates_loop to_datetime date_columns df = (df', None)
    /\ nrows df' = nrows df
    /\ map fst (columns df') = map fst (columns df)
    /\ (forall c, ~ In c date_columns ->
                  lookup c (columns df') = lookup c (columns df))
    /\ (forall c, lookup c (columns df) = None ->
                  lookup c (columns df') = None)
    /\ (forall c s, In c date_columns -> lookup c (columns df) = Some s ->
                    exists s', to_datetime s = Ok s'
                               /\ lookup c (columns df') = Some s').
Proof.
  induction date_columns as [|col rest IH]; intros df Hnd Hconv.
  - exists df. split; [reflexivity|]. split; [reflexivity|].
    split; [reflexivity|]. split; [reflexivity|]. split; [auto|].
    intros c s [].
  - inversion Hnd as [|? ? Hnotin Hnd']; subst.
    cbn [preprocess_dates_loop].
    destruct (lookup col (columns df)) as [s|] eqn:Hs.
    + assert (Hok : is_ok (to_datetime s) = true)
        by (apply (Hconv col); [now left|exact Hs]).
      destruct (to_datetime s) as [s'|e] eqn:Hcv; [|discriminate].
      assert (Hother : forall c, c <> col ->
                lookup c (columns (setitem df col s')) = lookup c (columns df)).
      { intros c Hne. unfold setitem. cbn [columns].
        now apply lookup_assoc_set_neq. }
      destruct (IH (setitem df col s') Hnd') as (df' & Hrun & Hrows & Hnames & Hout & Habs & Hin).
      { intros c s0 Hc Hs0. apply (Hconv c); [now right|].
        rewrite <- Hother; [exact Hs0|]. intros ->. contradiction. }
      exists df'. split; [exact Hrun|]. split; [exact Hrows|].
      split; [|split; [|split]].
      * rewrite Hnames. unfold setitem. cbn [columns].
        now apply assoc_set_names with s.
      * intros c Hc. rewrite Hout by (intro; apply Hc; now right).
        apply Hother. intros ->. apply Hc. now left.
      * intros c Hc. apply Habs. rewrite Hother; [exact Hc|].
        intros ->. congruence.
      * intros c s0 [<-|Hc] Hs0.
        -- rewrite Hs in Hs0. inversion Hs0; subst s0.
           exists s'. split; [exact Hcv|].
           rewrite (Hout col Hnotin). unfold setitem. cbn [columns].
           apply lookup_assoc_set_eq.
        -- apply Hin; [exact Hc|]. rewrite Hother; [exact Hs0|].
           intros ->. contradiction.
    + destruct (IH df Hnd') as (df' & Hrun & Hrows & Hnames & Hout & Habs & Hin).
      { intros c s0 Hc Hs0. apply (Hconv c); [now right|exact Hs0]. }
      exists df'. split; [exact Hrun|]. split; [exact Hrows|].
      split; [exact Hnames|]. split; [|split].
      * intros c Hc. apply Hout. intro. apply Hc. now right.
      * exact Habs.
      * intros c s0 [<-|Hc] Hs0; [congruence|]. now apply Hin.
Qed.

End Loop.

(** X24.  [preprocess_dates] converts every listed column that is in the
    frame, once and from its original values, skips the listed columns
    that are not in the frame, and leaves the other columns, the column
    names and the number of rows as they were, provided each of the
    conversions succeeds. *)
Theorem preprocess_dates_converts (to_datetime : Series -> result Series)
  (df : DataFrame) (date_columns : list string) :
  NoDup date_columns ->
  (forall c s, In c date_columns -> lookup c (columns df) = Some s ->
               is_ok (to_datetime s) = true) ->
  exists df',
    preprocess_dates to_datetime df date_columns = Ok df'
    /\ nrows df' = nrows df
    /\ map fst (columns df') = map fst (columns df)
    /\ (forall c, ~ In c date_columns ->
                  lookup c (columns df') = lookup c (columns df))
    /\ (forall c, lookup c (columns df) = None ->
                  lookup c (columns df') = None)
    /\ (forall c s, In c date_columns -> lookup c (columns df) = Some s ->
                    exists s', to_datetime s = Ok s'
                               /\ lookup c (columns df') = Some s').
Proof.
  intros Hnd Hconv.
  destruct (preprocess_dates_loop_ok to_datetime date_columns df Hnd Hconv)
    as (df' & Hrun & H).
  exists df'. split; [|exact H].
  unfold preprocess_dates. now rewrite Hrun.
Qed.

Lemma preprocess_dates_converts_witness :
  exists df',
    preprocess_dates to_datetime_epoch dated ["opened"; "due"] = Ok df'
    /\ lookup "opened" (columns df')
       = Some [Time 0; NA; Time 86400000000000]
    /\ lookup "closed" (columns df') = lookup "closed" (columns dated)
    /\ lookup "due" (columns df') = None.
Proof.
  destruct (preprocess_dates_converts to_datetime_epoch dated ["opened"; "due"])
    as (df' & Hrun & _ & _ & Hout & Habs & Hin).
  - repeat constructor; simpl; intuition discriminate.
  - intros c s [<-|[<-|[]]] Hs; inversion Hs; reflexivity.
  - exists df'. split; [exact Hrun|]. split; [|split].
    + destruct (Hin "opened" _ (or_introl eq_refl) eq_refl) as (s' & Hs' & ->).
      inversion Hs'. reflexivity.
    + apply Hout. simpl. intuition discriminate.
    + now apply Habs.
Defined.

(** X25.  A column that cannot be converted stops [preprocess_dates] with
    the exception of the conversion, and the frame, which is updated in
    place, is left half converted: the listed columns before the failing
    one are converted, the failing column and all others are as they
    were. *)
Theorem preprocess_dates_stops (to_datetime : Series -> result Series)
  (df : DataFrame) (pre post : list string) (c : string) (s : Series)
  (e : exn) :
  NoDup (pre ++ c :: post)%list ->
  (forall c' s', In c' pre -> lookup c' (columns df) = Some s' ->
                 is_ok (to_datetime s') = true) ->
  lookup c (columns df) = Some s ->
  to_datetime s = Raise e ->
  preprocess_dates to_datetime df (pre ++ c :: post)%list = Raise e
  /\ exists left,
       preprocess_dates_loop to_datetime (pre ++ c :: post)%list df
       = (left, Some e)
       /\ (forall c', ~ In c' pre ->
                      lookup c' (columns left) = lookup c' (columns df))
       /\ (forall c' s', In c' pre -> lookup c' (columns df) = Some s' ->
                         exists t, to_datetime s' = Ok t
                                   /\ lookup c' (columns left) = Some t).
Proof.
  intros Hnd Hconv Hs He.
  assert (Hpre : NoDup pre) by (apply NoDup_app_remove_r in Hnd; exact Hnd).
  assert (Hc : ~ In c pre).
  { intro Hin. apply NoDup_remove_2 in Hnd. apply Hnd.
    apply in_or_app. now left. }
  destruct (preprocess_dates_loop_ok to_datetime pre df Hpre Hconv)
    as (left & Hrun & _ & _ & Hout & _ & Hin).
  assert (Hloop : preprocess_dates_loop to_datetime (pre ++ c :: post)%list df
                  = (left, Some e)).
  { rewrite preprocess_dates_loop_app, Hrun. cbn [preprocess_dates_loop].
    now rewrite (Hout c Hc), Hs, He. }
  split.
  - unfold preprocess_dates. now rewrite Hloop.
  - exists left. split; [exact Hloop|]. split; [exact Hout|exact Hin].
Qed.

Lemma preprocess_dates_stops_witness :
  preprocess_dates to_datetime_epoch dated ["opened"; "closed"; "amount"]
  = Raise ValueError
  /\ exists left,
       preprocess_dates_loop to_datetime_epoch ["opened"; "closed"; "amount"]
         dated = (left, Some ValueError)
       /\ lookup "opened" (columns left)
          = Some [Time 0; NA; Time 86400000000000]
       /\ lookup "amount" (columns left) = Some (nums [1; 2; 3]).
Proof.
  destruct (preprocess_dates_stops to_datetime_epoch dated
              ["opened"] ["amount"] "closed" [Num 5; Str "soon"; NA] ValueError)
    as (Hraise & left & Hloop & Hout & Hin).
  - repeat constructor; simpl; intuition discriminate.
  - intros c' s' [<-|[]] Hs'. inversion Hs'. reflexivity.
  - reflexivity.
  - reflexivity.
  - split; [exact Hraise|]. exists left. split; [exact Hloop|]. split.
    + destruct (Hin "opened" _ (or_introl eq_refl) eq_refl) as (t & Ht & ->).
      inversion Ht. reflexivity.
    + rewrite Hout; [reflexivity|]. simpl. intuition discriminate.
Defined.

End DatesFacts.

(* ================================================================= *)
(** ** Facts of binary64 arithmetic *)

Module FloatFacts.

(** The special values, as the specification of the operations sees
    them. *)
Lemma Prim2SF_zero : Prim2SF PrimFloat.zero = S754_zero false.
Proof. reflexivity. Qed.

Lemma Prim2SF_infinity : Prim2SF PrimFloat.infinity = S754_infinity false.
Proof. reflexivity. Qed.

Lemma Prim2SF_nan : Prim2SF PrimFloat.nan = S754_nan.
Proof. reflexivity. Qed.

Lemma Prim2SF_one :
  Prim2SF PrimFloat.one = S754_finite false 4503599627370496 (-52).
Proof. reflexivity. Qed.

Lemma SFcompare_refl (s : spec_float) :
  s <> S754_nan -> SFcompare s s = Some Eq.
Proof.
  destruct s as [b|b| |b m e]; intro H; simpl; try reflexivity.
  - now destruct b.
  - now elim H.
  - rewrite Z.compare_refl, Pos.compare_cont_refl. now destruct b.
Qed.

(** NaN is the one float that differs from itself. *)
Lemma is_nan_spec (x : float) :
  PrimFloat.is_nan x = true <-> Prim2SF x = S754_nan.
Proof.
  unfold PrimFloat.is_nan. rewrite FloatAxioms.eqb_spec. unfold SFeqb. split.
  - intro H. destruct (Prim2SF x) eqn:E; try reflexivity;
      rewrite SFcompare_refl in H by discriminate; discriminate.
  - intros ->. reflexivity.
Qed.

Lemma is_nan_false (x : float) :
  PrimFloat.is_nan x = false <-> Prim2SF x <> S754_nan.
Proof.
  split.
  - intros H E. apply is_nan_spec in E. congruence.
  - intro H. destruct (PrimFloat.is_nan x) eqn:E; [|reflexivity].
    apply is_nan_spec in E. contradiction.
Qed.

Lemma nan_unique (x : float) : PrimFloat.is_nan x = true -> x = PrimFloat.nan.
Proof.
  intro H. apply is_nan_spec in H. apply FloatAxioms.Prim2SF_inj.
  now rewrite H, Prim2SF_nan.
Qed.

(** NaN propagates through the arithmetic of a z-score. *)
Lemma sub_nan_l (x y : float) :
  PrimFloat.is_nan x = true -> PrimFloat.is_nan (PrimFloat.sub x y) = true.
Proof.
  rewrite !is_nan_spec, FloatAxioms.sub_spec. intros ->. reflexivity.
Qed.

Lemma div_nan_l (x y : float) :
  PrimFloat.is_nan x = true -> PrimFloat.is_nan (PrimFloat.div x y) = true.
Proof.
  rewrite !is_nan_spec, FloatAxioms.div_spec. intros ->. reflexivity.
Qed.

Lemma div_nan_r (x y : float) :
  PrimFloat.is_nan y = true -> PrimFloat.is_nan (PrimFloat.div x y) = true.
Proof.
  rewrite !is_nan_spec, FloatAxioms.div_spec. intros ->. now destruct (Prim2SF x).
Qed.

Lemma abs_nan (x : float) :
  PrimFloat.is_nan x = true -> PrimFloat.is_nan (PrimFloat.abs x) = true.
Proof.
  rewrite !is_nan_spec, FloatAxioms.abs_spec. intros ->. reflexivity.
Qed.

Lemma sqrt_nan (x : float) :
  PrimFloat.is_nan x = true -> PrimFloat.is_nan (PrimFloat.sqrt x) = true.
Proof.
  rewrite !is_nan_spec, FloatAxioms.sqrt_spec. intros ->. reflexivity.
Qed.

(** No float is below NaN. *)
Lemma ltb_nan_r (t z : float) :
  PrimFloat.is_nan z = true -> PrimFloat.ltb t z = false.
Proof.
  rewrite is_nan_spec, FloatAxioms.ltb_spec. intros ->. unfold SFltb.
  now destruct (Prim2SF t).
Qed.

(** A float that compares equal to zero is one of the two zeros. *)
Lemma eqb_zero_spec (x : float) :
  PrimFloat.eqb x PrimFloat.zero = true <-> exists s, Prim2SF x = S754_zero s.
Proof.
  rewrite FloatAxioms.eqb_spec, Prim2SF_zero. unfold SFeqb. split.
  - destruct (Prim2SF x) as [b|b| |b m e]; simpl; try discriminate.
    + eauto.
    + now destruct b.
    + now destruct b.
  - intros (s & ->). reflexivity.
Qed.

(** The absolute value of a quotient by zero: NaN for [0 / 0] and
    [NaN / 0], infinity otherwise; and what lies below infinity. *)
Lemma abs_div_zero (d sd t : float) :
  PrimFloat.eqb sd PrimFloat.zero = true ->
  PrimFloat.ltb t (PrimFloat.abs (PrimFloat.div d sd))
  = negb (PrimFloat.is_nan d) && negb (PrimFloat.eqb d PrimFloat.zero)
    && PrimFloat.ltb t PrimFloat.infinity.
Proof.
  intro Hsd. apply eqb_zero_spec in Hsd. destruct Hsd as (s & Hsd).
  unfold PrimFloat.is_nan.
  rewrite !FloatAxioms.ltb_spec, FloatAxioms.abs_spec, FloatAxioms.div_spec, !FloatAxioms.eqb_spec, Hsd,
    Prim2SF_zero, Prim2SF_infinity.
  unfold SFltb, SFeqb.
  destruct (Prim2SF d) as [b|b| |b m e] eqn:Ed; cbn [SFdiv SFabs].
  - simpl. now destruct (Prim2SF t).
  - rewrite SFcompare_refl by discriminate. simpl. now destruct b.
  - simpl. now destruct (Prim2SF t).
  - rewrite SFcompare_refl by discriminate. simpl. now destruct b.
Qed.

(** A finite float that is not zero has a sign, a mantissa and an
    exponent. *)
Lemma finite_nonzero (x : float) :
  F64.isfinite x = true -> PrimFloat.eqb x PrimFloat.zero = false ->
  exists s m e, Prim2SF x = S754_finite s m e.
Proof.
  unfold F64.isfinite, PrimFloat.is_infinity, PrimFloat.is_nan.
  rewrite !FloatAxioms.eqb_spec, FloatAxioms.abs_spec, Prim2SF_zero, Prim2SF_infinity.
  unfold SFeqb. destruct (Prim2SF x) as [b|b| |b m e]; simpl;
    intros Hf Hz; try discriminate; eauto.
  destruct b; discriminate.
Qed.

Lemma div_eucl_shift (m : positive) :
  Z.div_eucl (Z.shiftl (Z.pos m) 53) (Z.pos m) = (9007199254740992%Z, 0%Z).
Proof.
  rewrite Z.shiftl_mul_pow2 by lia.
  assert (Hq : (Z.pos m * 2 ^ 53 / Z.pos m = 2 ^ 53)%Z)
    by (rewrite Z.mul_comm; apply Z.div_mul; discriminate).
  assert (Hr : ((Z.pos m * 2 ^ 53) mod Z.pos m = 0)%Z)
    by (rewrite Z.mul_comm; apply Z.mod_mul; discriminate).
  unfold Z.div, Z.modulo in Hq, Hr.
  destruct (Z.div_eucl (Z.pos m * 2 ^ 53) (Z.pos m)) as [q r].
  now rewrite Hq, Hr.
Qed.

(** A finite float that is not zero, divided by itself, is 1. *)
Lemma div_self (x : float) :
  F64.isfinite x = true -> PrimFloat.eqb x PrimFloat.zero = false ->
  PrimFloat.div x x = PrimFloat.one.
Proof.
  intros Hf Hz. destruct (finite_nonzero x Hf Hz) as (s & m & e & Hx).
  apply FloatAxioms.Prim2SF_inj. rewrite FloatAxioms.div_spec, Hx, Prim2SF_one.
  unfold SF64div, SFdiv, SFdiv_core_binary.
  replace (Zdigits2 (Z.pos m) + e - (Zdigits2 (Z.pos m) + e))%Z with 0%Z by lia.
  replace (e - e)%Z with 0%Z by lia.
  change (IntDef.Z.min (fexp prec emax 0) 0) with (-53)%Z.
  change (0 - -53)%Z with 53%Z. cbv iota.
  change (IntDef.Z.shiftl (Z.pos m) 53) with (Z.shiftl (Z.pos m) 53).
  change IntDef.Z.div_eucl with Z.div_eucl.
  rewrite div_eucl_shift.
  assert (Hloc : new_location (Z.pos m) 0 = loc_Exact).
  { unfold new_location, new_location_even, new_location_odd.
    destruct (IntDef.Z.even (Z.pos m)); reflexivity. }
  rewrite Hloc. rewrite xorb_nilpotent. reflexivity.
Qed.

End FloatFacts.

(* ================================================================= *)
(** ** Numeric columns read as float64 *)

Module NumericFacts.
Import Pd Spec PdFacts AnomalyFacts.

Lemma float_to_numeric_cons (c : cell) (s : Series) :
  F64.to_numeric (c :: s)
  = (x <- F64.cell_float c ;; v <- F64.to_numeric s ;; Ok (x :: v)).
Proof. reflexivity. Qed.

(** A column is read as float64 exactly when it is read as numeric. *)
Lemma float_to_numeric_ok (s : Series) :
  is_ok (F64.to_numeric s) = is_ok (to_numeric s).
Proof.
  induction s as [|c s IH]; [reflexivity|].
  rewrite float_to_numeric_cons. unfold to_numeric in *. cbn [map_result].
  destruct c; cbn [F64.cell_float cell_float bind]; try reflexivity;
    destruct (F64.to_numeric s), (map_result cell_float s);
    simpl in *; congruence.
Qed.

Lemma float_to_numeric_length (s : Series) : forall v,
  F64.to_numeric s = Ok v -> List.length v = List.length s.
Proof.
  induction s as [|c s IH]; intros v H.
  - inversion H; reflexivity.
  - rewrite float_to_numeric_cons in H.
    destruct (F64.cell_float c) as [x|]; [|discriminate].
    destruct (F64.to_numeric s) as [v'|]; [|discriminate].
    inversion H; subst. simpl. f_equal. auto.
Qed.

Lemma float_values (data : DataFrame) (f : string) :
  numeric_column data f = true ->
  exists s, lookup f (columns data) = Some s
            /\ F64.to_numeric s = Ok (Spec64.values_of data f).
Proof.
  unfold numeric_column, Spec64.values_of.
  destruct (lookup f (columns data)) as [s|]; [|discriminate].
  rewrite <- float_to_numeric_ok.
  destruct (F64.to_numeric s) eqn:E; [|discriminate].
  intros _. exists s. auto.
Qed.

Lemma float_values_length (df : DataFrame) (f : string) :
  well_formed df = true -> numeric_column df f = true ->
  List.length (Spec64.values_of df f) = nrows df.
Proof.
  intros Hwf Hf. destruct (float_values _ _ Hf) as (s & Hs & Hv).
  rewrite (float_to_numeric_length _ _ Hv). now apply well_formed_lookup with f.
Qed.

End NumericFacts.

(* ================================================================= *)
(** ** Anomaly detection on float64 *)

Module AnomalyFloat.
Import Pd Spec PdFacts MaskFacts AnomalyFacts FloatFacts NumericFacts Spec64.

(** One turn of the loop on a numeric feature. *)
Lemma float_z_scores_step (data : DataFrame) (f : string)
  (acc : list (string * list float)) :
  numeric_column data f = true ->
  (s <- getitem data f ;;
   v <- F64.to_numeric s ;;
   Ok (assoc_set (f ++ "_zscore") (F64.zscore v) acc))
  = Ok (assoc_set (f ++ "_zscore") (F64.zscore (values_of data f)) acc).
Proof.
  intro H. destruct (float_values _ _ H) as (s & Hs & Hv).
  unfold getitem. rewrite Hs. simpl. rewrite Hv. reflexivity.
Qed.

(** The loop on numeric features: it ends, and the dictionary holds the
    z-score columns of the listed features and nothing else. *)
Lemma float_z_scores_for_each (data : DataFrame) (features : list string) :
  forallb (numeric_column data) features = true ->
  forall acc,
  exists z,
    for_each (fun feature z_scores =>
                s <- getitem data feature ;;
                v <- F64.to_numeric s ;;
                Ok (assoc_set (feature ++ "_zscore") (F64.zscore v) z_scores))
             features acc = Ok z
    /\ (forall p, In p z ->
          In p acc \/
          exists f, In f features
                    /\ p = (f ++ "_zscore", F64.zscore (values_of data f)))
    /\ (forall f, In (f ++ "_zscore", F64.zscore (values_of data f)) acc ->
                  In (f ++ "_zscore", F64.zscore (values_of data f)) z)
    /\ (forall f, In f features ->
                  In (f ++ "_zscore", F64.zscore (values_of data f)) z)
    /\ (features <> [] -> z <> []).
Proof.
  induction features as [|f features IH]; intros Hnum acc.
  - exists acc. simpl. repeat split; auto. intros g [].
  - simpl in Hnum. apply andb_true_iff in Hnum. destruct Hnum as [Hf Hrest].
    cbn [for_each]. rewrite (float_z_scores_step data f acc Hf). cbn [bind].
    destruct (IH Hrest
                (assoc_set (f ++ "_zscore") (F64.zscore (values_of data f)) acc))
      as (z & Hz & Hin & Hkeep & Hall & _).
    assert (Hstep : forall g,
      In (g ++ "_zscore", F64.zscore (values_of data g)) acc ->
      In (g ++ "_zscore", F64.zscore (values_of data g))
         (assoc_set (f ++ "_zscore") (F64.zscore (values_of data f)) acc)).
    { intros g Hg.
      destruct (string_dec (g ++ "_zscore") (f ++ "_zscore")) as [E|E].
      - apply string_append_cancel_r in E. subst g. apply assoc_set_in_new.
      - now apply assoc_set_in_old. }
    exists z. split; [exact Hz|]. split; [|split; [|split]].
    + intros p Hp. destruct (Hin p Hp) as [Hacc|(g & Hg & ->)].
      * destruct (assoc_set_in_inv _ _ _ _ Hacc) as [->|Hold]; [|now left].
        right. exists f. split; [now left|reflexivity].
      * right. exists g. split; [now right|reflexivity].
    + intros g Hg. apply Hkeep. now apply Hstep.
    + intros g [<-|Hg].
      * apply Hkeep. apply assoc_set_in_new.
      * now apply Hall.
    + intros _ Hnil. subst z.
      apply (Hkeep f (assoc_set_in_new _ _ _)).
Qed.

Lemma float_z_scores_loop (data : DataFrame) (features : list string) :
  forallb (numeric_column data) features = true ->
  exists z,
    F64.z_scores_loop data features = Ok z
    /\ (features <> [] -> z <> [])
    /\ (forall zs, In zs (map snd z) <->
                   exists f, In f features
                             /\ zs = F64.zscore (values_of data f)).
Proof.
  intro Hnum.
  destruct (float_z_scores_for_each data features Hnum [])
    as (z & Hz & Hin & _ & Hall & Hne).
  exists z. split; [exact Hz|]. split; [exact Hne|].
  intro zs. rewrite in_map_iff. split.
  - intros (p & <- & Hp). destruct (Hin p Hp) as [[]|(f & Hf & ->)].
    exists f. auto.
  - intros (f & Hf & ->). eexists. split; [|apply (Hall f Hf)]. reflexivity.
Qed.

(** A cell of the column [z > threshold] is the comparison of the
    z-score of the row's value; beyond the column it is False. *)
Lemma float_flag_nth (v : list float) (t : float) (i : nat) :
  nth i (map (fun z => F64.gt z t) (F64.zscore v)) false = true
  <-> exceeds v t i.
Proof.
  unfold exceeds, F64.zscore. rewrite map_map.
  fold (abs_zscore v).
  change (fun x => F64.gt (PrimFloat.abs
                             (PrimFloat.div (PrimFloat.sub x (F64.mean v))
                                            (F64.std v))) t)
    with (fun x => F64.gt (abs_zscore v x) t).
  destruct (nth_error v i) as [x|] eqn:E.
  - rewrite (nth_error_nth _ i false
               (map_nth_error (fun x => F64.gt (abs_zscore v x) t) i v E)).
    split; [eauto|]. intros (y & Hy & H). now inversion Hy; subst.
  - rewrite nth_overflow
      by (rewrite length_map; now apply nth_error_None).
    split; [discriminate|]. intros (y & Hy & _). discriminate.
Qed.

Lemma float_mask_nth (z : list (string * list float)) (t : float)
  (n i : nat) :
  nth i (any_axis1 n (map (fun c => map (fun x => F64.gt x t) (snd c)) z))
      false = true
  <-> (i < n)%nat
      /\ exists zs, In zs (map snd z)
                    /\ nth i (map (fun x => F64.gt x t) zs) false = true.
Proof.
  rewrite any_axis1_nth. split; intros [Hi (c & Hc & Hnth)]; (split; [exact Hi|]).
  - apply in_map_iff in Hc. destruct Hc as (p & <- & Hp).
    exists (snd p). split; [now apply in_map|exact Hnth].
  - apply in_map_iff in Hc. destruct Hc as (p & <- & Hp).
    exists (map (fun x => F64.gt x t) (snd p)). split; [|exact Hnth].
    apply in_map_iff. exists p. auto.
Qed.

(** *** The undefined z-scores *)

(** With at most one present value the variance, and so the standard
    deviation, is NaN. *)
Lemma std_small_sample (v : list float) :
  (F64.count v <= 1)%nat -> PrimFloat.is_nan (F64.std v) = true.
Proof.
  intro H. unfold F64.std, F64.var. apply sqrt_nan.
  destruct (Nat.leb_spec (F64.count v) 1) as [_|Hgt]; [|lia].
  apply div_nan_r. reflexivity.
Qed.

Lemma missing_not_flagged (v : list float) (x t : float) :
  PrimFloat.is_nan x = true -> F64.gt (abs_zscore v x) t = false.
Proof.
  intro H. unfold F64.gt, abs_zscore.
  apply ltb_nan_r, abs_nan, div_nan_l, sub_nan_l, H.
Qed.

Lemma small_sample_not_flagged (v : list float) (x t : float) :
  (F64.count v <= 1)%nat -> F64.gt (abs_zscore v x) t = false.
Proof.
  intro H. unfold F64.gt, abs_zscore.
  apply ltb_nan_r, abs_nan, div_nan_r, std_small_sample, H.
Qed.

Lemma zero_std_flag (v : list float) (x t : float) :
  PrimFloat.eqb (F64.std v) PrimFloat.zero = true ->
  F64.gt (abs_zscore v x) t
  = negb (PrimFloat.is_nan (PrimFloat.sub x (F64.mean v)))
    && negb (PrimFloat.eqb (PrimFloat.sub x (F64.mean v)) PrimFloat.zero)
    && PrimFloat.ltb t PrimFloat.infinity.
Proof. intro H. unfold F64.gt, abs_zscore. now apply abs_div_zero. Qed.

(** Three transactions of the same amount 0.1 in float64: the sum
    0.1 + 0.1 + 0.1 is 0.30000000000000004, so the mean lies above 0.1,
    the squared deviations do not vanish, the standard deviation is
    positive (1.7e-17) and every z-score lies between 0.8 and 0.9. *)
Example constant_amounts_moments :
  let v := values_of amounts_constant "amount" in
  v = [F64.of_Q (1 # 10); F64.of_Q (1 # 10); F64.of_Q (1 # 10)]
  /\ PrimFloat.ltb (F64.of_Q (1 # 10)) (F64.mean v) = true
  /\ PrimFloat.ltb PrimFloat.zero (F64.std v) = true
  /\ forallb (fun z => PrimFloat.ltb (F64.of_Q (8 # 10)) z
                       && PrimFloat.ltb z (F64.of_Q (9 # 10)))
              (F64.zscore v) = true.
Proof. repeat split; vm_compute; reflexivity. Qed.

(** Three amounts 1e-170, 2e-170 and 3e-170: the mean is 2e-170, the
    squared deviations, 1e-340, underflow to zero, and so does the
    standard deviation; the z-scores are infinity, NaN and infinity. *)
Example tiny_amounts_moments :
  let v := values_of amounts_tiny "amount" in
  F64.mean v = F64.of_Q (2 * tiny)
  /\ F64.std v = PrimFloat.zero
  /\ F64.zscore v = [PrimFloat.infinity; PrimFloat.nan; PrimFloat.infinity].
Proof. repeat split; vm_compute; reflexivity. Qed.

(** C3, the counterexample.  On the three transactions of the same
    amount 0.1 the feature does not vary, and yet all three rows are
    returned at the threshold 0.5.  On the amounts 1e-170, 2e-170 and
    3e-170 the computed standard deviation is zero, and yet the first
    and the third row are returned at the threshold 3. *)
Lemma detect_anomalies_zero_deviation :
  (values_of amounts_constant "amount"
   = [F64.of_Q (1 # 10); F64.of_Q (1 # 10); F64.of_Q (1 # 10)]
   /\ F64.detect_anomalies amounts_constant ["amount"] (F64.of_Q (1 # 2))
      = Ok amounts_constant)
  /\ (PrimFloat.eqb (F64.std (values_of amounts_tiny "amount")) PrimFloat.zero
      = true
      /\ F64.detect_anomalies amounts_tiny ["amount"] (F64.of_Q 3)
         = Ok (getitem_mask amounts_tiny [true; false; true])).
Proof. repeat split; vm_compute; reflexivity. Qed.

(** C3, as the code has it.  On a well-formed frame and a non-empty list
    of numeric feature columns, [detect_anomalies] returns [data[mask]]
    where the mask, one entry per row, is True exactly at the rows for
    which the absolute z-score of some listed feature, computed in
    float64 as [abs((x - mean) / std)] with the sample standard
    deviation, is above the threshold.  The result has the columns of
    the frame and its rows are those rows of the frame, in their order.
    A missing value is not above the threshold, nor is any value of a
    feature with fewer than two present values.  Where the computed
    standard deviation is zero, a value is above the threshold exactly
    when its deviation from the computed mean is not zero (and not NaN)
    and the threshold is below infinity. *)
Theorem detect_anomalies_float (data : DataFrame) (features : list string)
  (t : float) :
  well_formed data = true ->
  features <> [] ->
  forallb (numeric_column data) features = true ->
  exists mask,
    F64.detect_anomalies data features t = Ok (getitem_mask data mask)
    /\ List.length mask = nrows data
    /\ (forall i, nth i mask false = true <-> anomalous data features t i)
    /\ map fst (columns (getitem_mask data mask)) = map fst (columns data)
    /\ iterrows (getitem_mask data mask) = take_mask mask (iterrows data)
    /\ (forall f x,
          let v := values_of data f in
          let d := PrimFloat.sub x (F64.mean v) in
          (PrimFloat.is_nan x = true -> F64.gt (abs_zscore v x) t = false)
          /\ ((F64.count v <= 1)%nat -> F64.gt (abs_zscore v x) t = false)
          /\ (PrimFloat.eqb (F64.std v) PrimFloat.zero = true ->
              F64.gt (abs_zscore v x) t
              = negb (PrimFloat.is_nan d)
                && negb (PrimFloat.eqb d PrimFloat.zero)
                && PrimFloat.ltb t PrimFloat.infinity)).
Proof.
  intros Hwf Hne Hnum.
  destruct (float_z_scores_loop data features Hnum) as (z & Hz & Hnz & Hvals).
  set (mask := any_axis1 (nrows data)
                 (map (fun c => map (fun x => F64.gt x t) (snd c)) z)).
  assert (Hlen : List.length mask = nrows data).
  { unfold mask, any_axis1. now rewrite length_map, length_seq. }
  exists mask. split; [|split; [exact Hlen|split; [|split; [|split]]]].
  - unfold F64.detect_anomalies. rewrite Hz. cbn [bind].
    destruct z; [now elim (Hnz Hne)|reflexivity].
  - intro i. unfold mask. rewrite float_mask_nth. unfold anomalous. split.
    + intros [_ (zs & Hzs & Hgt)]. apply Hvals in Hzs.
      destruct Hzs as (f & Hf & ->). exists f. split; [exact Hf|].
      now apply float_flag_nth.
    + intros (f & Hf & Hex). split.
      * destruct Hex as (x & Hx & _).
        rewrite <- (float_values_length data f Hwf).
        -- apply nth_error_Some. congruence.
        -- rewrite forallb_forall in Hnum. now apply Hnum.
      * exists (F64.zscore (values_of data f)). split.
        -- apply Hvals. exists f. auto.
        -- now apply float_flag_nth.
  - apply getitem_mask_names.
  - now apply iterrows_getitem_mask.
  - intros f x v d. split; [|split].
    + apply missing_not_flagged.
    + apply small_sample_not_flagged.
    + apply zero_std_flag.
Qed.

(** C3 on the five amounts of the scenario, at the threshold 1: the row
    of the amount 1000 is the one returned. *)
Lemma detect_anomalies_float_witness :
  exists mask,
    F64.detect_anomalies amounts_scenario ["amount"] (F64.of_Q 1)
      = Ok (getitem_mask amounts_scenario mask)
    /\ mask = [false; false; false; false; true]
    /\ (forall i, nth i mask false = true
                  <-> anomalous amounts_scenario ["amount"] (F64.of_Q 1) i)
    /\ iterrows (getitem_mask amounts_scenario mask)
       = take_mask mask (iterrows amounts_scenario).
Proof.
  destruct (detect_anomalies_float amounts_scenario ["amount"] (F64.of_Q 1))
    as (mask & Hout & Hlen & Hiff & _ & Hrows & _);
    [reflexivity | discriminate | reflexivity |].
  exists mask. split; [exact Hout|]. split; [|split; assumption].
  vm_compute in Hout. injection Hout as Hn Hid Ham.
  destruct mask as [|b1 [|b2 [|b3 [|b4 [|b5 [|b6 mask]]]]]]; try discriminate.
  destruct b1, b2, b3, b4, b5; try discriminate; reflexivity.
Defined.

End AnomalyFloat.

(* ================================================================= *)
(** ** Correlation on float64 *)

Module CorrFloat.
Import Pd Spec PdFacts AnomalyFacts FloatFacts NumericFacts Spec64.

(** The columns are selected and read. *)
Lemma float_select_numeric (data : DataFrame) (features : list string) :
  forallb (numeric_column data) features = true ->
  exists selected,
    map_result (fun f => s <- getitem data f ;; Ok (f, s)) features = Ok selected
    /\ map_result (fun c : string * Series =>
                     v <- F64.to_numeric (snd c) ;; Ok (fst c, v)) selected
       = Ok (map (fun f => (f, values_of data f)) features).
Proof.
  induction features as [|f features IH]; intro H.
  - exists []. split; reflexivity.
  - simpl in H. apply andb_true_iff in H. destruct H as [Hf Hrest].
    destruct (IH Hrest) as (sel & Hsel & Hnum).
    destruct (float_values _ _ Hf) as (s & Hs & Hv).
    exists ((f, s) :: sel). split.
    + cbn [map_result]. unfold getitem at 1. rewrite Hs. cbn [bind].
      rewrite Hsel. reflexivity.
    + cbn [map_result fst snd]. rewrite Hv. cbn [bind]. rewrite Hnum. reflexivity.
Qed.

(** An entry of the matrix is computed from the column of the larger
    position and the column of the smaller one. *)
Lemma nancorr_entry (mat : list (list float)) (i j : nat) :
  nth j (nth i (F64.nancorr mat) []) PrimFloat.nan =
    if (i <? List.length mat)%nat && (j <? List.length mat)%nat
    then F64.nancorr_pair (nth (Nat.max i j) mat []) (nth (Nat.min i j) mat [])
    else PrimFloat.nan.
Proof.
  unfold F64.nancorr. set (K := List.length mat).
  destruct (Nat.ltb_spec i K) as [Hi|Hi]; cbn [andb].
  - rewrite (nth_indep _ [] (map (fun b : nat =>
               F64.nancorr_pair (nth (Nat.max 0 b) mat [])
                                (nth (Nat.min 0 b) mat [])) (seq 0 K)))
      by (now rewrite length_map, length_seq).
    rewrite (map_nth (fun a => map (fun b =>
               F64.nancorr_pair (nth (Nat.max a b) mat [])
                                (nth (Nat.min a b) mat [])) (seq 0 K))).
    rewrite seq_nth by exact Hi. cbn [Nat.add].
    destruct (Nat.ltb_spec j K) as [Hj|Hj].
    + rewrite (nth_indep _ PrimFloat.nan
                 (F64.nancorr_pair (nth (Nat.max i 0) mat [])
                                   (nth (Nat.min i 0) mat [])))
        by (now rewrite length_map, length_seq).
      rewrite (map_nth (fun b =>
                 F64.nancorr_pair (nth (Nat.max i b) mat [])
                                  (nth (Nat.min i b) mat []))).
      now rewrite seq_nth by exact Hj.
    + apply nth_overflow. now rewrite length_map, length_seq.
  - rewrite (nth_overflow (map _ (seq 0 K)))
      by (now rewrite length_map, length_seq).
    now destruct j.
Qed.

Lemma nancorr_rows (mat : list (list float)) :
  List.length (F64.nancorr mat) = List.length mat
  /\ Forall (fun r => List.length r = List.length mat) (F64.nancorr mat).
Proof.
  unfold F64.nancorr. split.
  - now rewrite length_map, length_seq.
  - apply Forall_forall. intros r Hr. apply in_map_iff in Hr.
    destruct Hr as (a & <- & _). now rewrite length_map, length_seq.
Qed.

(** *** The diagonal *)

(** On a column paired with itself the two means run together, and so
    do the two sums of squares and the co-moment. *)
Lemma welford_diagonal (v : list float) : forall w,
  F64.meany w = F64.meanx w ->
  F64.ssqdm_y w = F64.ssqdm_x w ->
  F64.covxy w = F64.ssqdm_x w ->
  let w' := F64.welford w v v in
  F64.ssqdm_y w' = F64.ssqdm_x w' /\ F64.covxy w' = F64.ssqdm_x w'.
Proof.
  induction v as [|x v IH]; intros w Hm Hs Hc; [now split|].
  cbn [F64.welford]. apply IH;
    destruct (F64.isfinite x && F64.isfinite x); try assumption;
    unfold F64.welford_step; cbn [F64.meanx F64.meany F64.ssqdm_x F64.ssqdm_y
                                  F64.covxy];
    rewrite ?Hm, ?Hs, ?Hc; reflexivity.
Qed.

Lemma welford_nobs (xs : list float) : forall ys w,
  (F64.nobs w <= F64.nobs (F64.welford w xs ys))%nat.
Proof.
  induction xs as [|x xs IH]; intros [|y ys] w; cbn [F64.welford]; try lia.
  destruct (F64.isfinite x && F64.isfinite y).
  - eapply Nat.le_trans; [|apply IH]. simpl. lia.
  - apply IH.
Qed.

(** Without a finite value nothing is accumulated. *)
Lemma welford_no_observation (xs : list float) : forall ys w,
  F64.nobs (F64.welford w xs ys) = F64.nobs w -> F64.welford w xs ys = w.
Proof.
  induction xs as [|x xs IH]; intros [|y ys] w; cbn [F64.welford]; try reflexivity.
  destruct (F64.isfinite x && F64.isfinite y).
  - intro H. pose proof (welford_nobs xs ys (F64.welford_step w x y)) as Hle.
    simpl in Hle. lia.
  - apply IH.
Qed.

(** The diagonal entry of a column in terms of its accumulated sum of
    squared deviations [d]: NaN when the square root of [d * d] is zero,
    the ratio [d / sqrt(d * d)] kept within [-1, 1] otherwise. *)
Lemma nancorr_pair_diagonal (v : list float) :
  let d := ssqdm v in
  F64.nancorr_pair v v =
    if (F64.nobs (F64.welford F64.no_moments v v) <? 1)%nat then PrimFloat.nan
    else if PrimFloat.eqb (PrimFloat.sqrt (PrimFloat.mul d d)) PrimFloat.zero
         then PrimFloat.nan
         else F64.clip_unit
                (PrimFloat.div d (PrimFloat.sqrt (PrimFloat.mul d d))).
Proof.
  unfold ssqdm, F64.nancorr_pair, F64.pearson.
  destruct (welford_diagonal v F64.no_moments eq_refl eq_refl eq_refl)
    as [Hs Hc].
  rewrite Hs, Hc. reflexivity.
Qed.

Lemma diagonal_one (v : list float) :
  F64.isfinite (ssqdm v) = true ->
  PrimFloat.eqb (ssqdm v) PrimFloat.zero = false ->
  PrimFloat.sqrt (PrimFloat.mul (ssqdm v) (ssqdm v)) = ssqdm v ->
  F64.nancorr_pair v v = PrimFloat.one.
Proof.
  intros Hf Hz Hsq. rewrite nancorr_pair_diagonal. cbv zeta.
  destruct (Nat.ltb_spec (F64.nobs (F64.welford F64.no_moments v v)) 1)
    as [Hn|Hn].
  - exfalso.
    assert (H0 : F64.nobs (F64.welford F64.no_moments v v)
                 = F64.nobs F64.no_moments) by (simpl; lia).
    apply welford_no_observation in H0.
    unfold ssqdm in Hz. rewrite H0 in Hz. discriminate.
  - rewrite Hsq, Hz, (div_self _ Hf Hz). reflexivity.
Qed.

Lemma diagonal_nan (v : list float) :
  PrimFloat.eqb (PrimFloat.sqrt (PrimFloat.mul (ssqdm v) (ssqdm v)))
                PrimFloat.zero = true ->
  F64.nancorr_pair v v = PrimFloat.nan.
Proof.
  intro H. rewrite nancorr_pair_diagonal. cbv zeta. rewrite H.
  now destruct (_ <? 1)%nat.
Qed.

(** The values 1e-90, 2e-90 and 3e-90: the accumulated sum of squared
    deviations is positive (2e-180), its square underflows to zero, and
    so the divisor of the coefficient is zero. *)
Example small_factor_moments :
  let d := ssqdm (values_of factor_small "t") in
  PrimFloat.ltb PrimFloat.zero d = true
  /\ PrimFloat.mul d d = PrimFloat.zero
  /\ PrimFloat.sqrt (PrimFloat.mul d d) = PrimFloat.zero.
Proof. repeat split; vm_compute; reflexivity. Qed.




End CorrFloat.

(* ================================================================= *)
(** ** Segment analysis on float64 *)

Module SegmentFloat.
Import Pd Spec PdFacts AnomalyFacts GroupFacts FloatFacts NumericFacts Spec64.

(** A group without a present value has the mean NaN, and rounding
    leaves NaN as it is. *)
Lemma group_mean_all_missing (v : list float) :
  F64.count v = 0%nat -> F64.group_mean v = PrimFloat.nan.
Proof.
  unfold F64.count, F64.group_mean. intro H. now rewrite H.
Qed.

Lemma float_round_nan (d : nat) :
  F64.round_decimals d PrimFloat.nan = PrimFloat.nan.
Proof.
  unfold F64.round_decimals.
  assert (Hm : PrimFloat.is_nan
                 (PrimFloat.mul PrimFloat.nan
                    (F64.of_Q (inject_Z (10 ^ Z.of_nat d)))) = true).
  { apply is_nan_spec. rewrite FloatAxioms.mul_spec. reflexivity. }
  apply nan_unique in Hm. rewrite Hm.
  apply nan_unique, div_nan_l. reflexivity.
Qed.

(** Twenty-three defaults among forty loans: the mean 23/40 is the
    float64 just below 0.575, a hundred times it is 57.499999999999993,
    below one half past 57, and the rounded mean is 0.57. *)
Example default_rate_23_of_40 :
  let m := F64.group_mean (map F64.of_Q (repeat 1 23 ++ repeat 0 17)) in
  m = F64.of_Q (23 # 40)
  /\ PrimFloat.ltb (PrimFloat.mul m (F64.of_Q 100)) (F64.of_Q (115 # 2)) = true
  /\ F64.rint (PrimFloat.mul m (F64.of_Q 100)) = F64.of_Q 57
  /\ F64.round_decimals 2 m = F64.of_Q (57 # 100).
Proof. repeat split; vm_compute; reflexivity. Qed.



(** The two regions of the four-row example: means 0.5, 625.5 and
    1000.5 in the north, and the single southern row. *)
Example segment_analysis_float_regions :
  F64.segment_analysis credit_segments "region"
  = Ok [ (KStr "north",
          [ ("default", F64.of_Q (1 # 2));
            ("credit_score", F64.of_Q (1251 # 2));
            ("loan_amount", F64.of_Q (2001 # 2)) ]);
         (KStr "south",
          [ ("default", F64.of_Q 0);
            ("credit_score", F64.of_Q 620);
            ("loan_amount", F64.of_Q 2500) ]) ].
Proof. vm_compute. reflexivity. Qed.

End SegmentFloat.
